(** * A growable vector over raw storage: model and verification

    The development embeds [vector.h] (class templates [RawMemory<T>] and
    [Vector<T>]) and proves properties of its operations.

    The header comes in two near-identical revisions.  Whatever the two
    revisions share (the whole of [RawMemory], the constructors, [Swap],
    the accessors) is defined once; the member functions that differ are
    defined per revision in the modules [V1] (first revision, which spells
    every algorithm out inside the member function) and [V2] (second
    revision, which factors [CopyRhs], [OffsetRight] and
    [OffsetRightNewCapacity] out and adds assertions).

    Modelling decisions.
    - [size_t] is a [Z] in [0, 2^64); increments, decrements and products
      wrap around explicitly.
    - Storage is a heap of blocks; a block is a list of slots, each either
      raw (no object lives there) or live (holding a value).  A pointer is
      a block and an offset in slots.  A released block stays in the heap
      as [None]; touching it is undefined.
    - An element type comes with its traits (the three [std::is_..._v]
      flags the header inspects), its size in bytes, the state a
      moved-from object is left in, its value-initialised state, and an
      oracle telling which constructor calls throw.
    - Every computation either returns, throws, or is undefined (failed
      [assert], access outside an object's lifetime, out-of-bounds
      access).  Two counters record how many objects were constructed and
      destroyed.
    - [operator new] either throws or returns a fresh block of the
      requested number of bytes; an oracle, kept with the element type
      the blocks are allocated for, tells which requests throw.
      [Allocate(n)] requests [n * sizeof(T)] bytes, a product of two
      [size_t] that wraps around, so the block it gets may have room for
      fewer than [n] objects. *)

From Stdlib Require Import ZArith Lia Bool.
From stdpp Require Import base list.

Local Open Scope Z_scope.

(** ** [size_t] *)

Definition SIZE_MAX : Z := 2 ^ 64 - 1.

Definition wrap (z : Z) : Z := z mod 2 ^ 64.

(** [x + y], [x - y], [x * y] on [size_t]. *)
Definition size_add (x y : Z) : Z := wrap (x + y).
Definition size_sub (x y : Z) : Z := wrap (x - y).
Definition size_mul (x y : Z) : Z := wrap (x * y).

(** ** Element types *)

Class Element (T : Type) := {
  (** [std::is_nothrow_move_constructible_v<T>] *)
  nothrow_move_constructible : bool;
  (** [std::is_copy_constructible_v<T>] *)
  copy_constructible : bool;
  (** [std::is_nothrow_move_assignable_v<T>] *)
  nothrow_move_assignable : bool;
  (** the state in which a move leaves its source *)
  moved_from : T -> T;
  (** the value of [T()] *)
  value_init : T;
  (** [ctor_throws k v]: the constructor call that would create an object
      of value [v] when [k] objects have been constructed so far throws
      (used for every constructor that is not known to be [noexcept]) *)
  ctor_throws : nat -> T -> bool;
  (** [sizeof(T)] *)
  size_of : positive;
  (** [new_throws b n]: the call of [operator new] that asks for [n]
      bytes when [b] blocks have been allocated so far throws
      [std::bad_alloc] *)
  new_throws : nat -> Z -> bool;
}.

(** The condition of every [if constexpr] of the header. *)
Definition transfer_safe {T} `{Element T} : bool :=
  nothrow_move_constructible || negb copy_constructible.

(** ** Storage *)

Inductive slot (T : Type) : Type :=
| Raw
| Live (v : T).
Arguments Raw {T}.
Arguments Live {T} v.

Record ptr : Type := { blk : option nat; off : Z }.

Definition nullptr : ptr := {| blk := None; off := 0 |}.

Definition ptr_add (p : ptr) (k : Z) : ptr := {| blk := blk p; off := off p + k |}.

(** [p - q] for two pointers into the same array. *)
Definition ptr_diff (p q : ptr) : Z := off p - off q.

Definition ptr_eqb (p q : ptr) : bool :=
  match blk p, blk q with
  | Some a, Some b => Nat.eqb a b && (off p =? off q)
  | None, None => off p =? off q
  | _, _ => false
  end.

(** [p <= q] and [p < q] for pointers into the same array. *)
Definition ptr_leb (p q : ptr) : bool :=
  match blk p, blk q with
  | Some a, Some b => Nat.eqb a b && (off p <=? off q)
  | None, None => off p <=? off q
  | _, _ => false
  end.

Definition ptr_ltb (p q : ptr) : bool :=
  match blk p, blk q with
  | Some a, Some b => Nat.eqb a b && (off p <? off q)
  | None, None => off p <? off q
  | _, _ => false
  end.

Definition same_block (p q : ptr) : bool :=
  match blk p, blk q with
  | Some a, Some b => Nat.eqb a b
  | None, None => true
  | _, _ => false
  end.

Record world (T : Type) : Type := {
  heap : list (option (list (slot T)));
  constructed : nat;
  destroyed : nat;
}.
Arguments heap {T} w.
Arguments constructed {T} w.
Arguments destroyed {T} w.

Definition empty_world {T} : world T :=
  {| heap := []; constructed := 0; destroyed := 0 |}.

(** ** Computations *)

Inductive outcome (S A : Type) : Type :=
| Ret (a : A) (s : S)
| Exn (s : S)
| Undef.
Arguments Ret {S A} a s.
Arguments Exn {S A} s.
Arguments Undef {S A}.

Definition M (S A : Type) : Type := S -> outcome S A.

Definition ret {S A} (a : A) : M S A := fun s => Ret a s.

Definition bind {S A B} (m : M S A) (k : A -> M S B) : M S B :=
  fun s => match m s with
           | Ret a s1 => k a s1
           | Exn s1 => Exn s1
           | Undef => Undef
           end.

Definition throw {S A} : M S A := fun s => Exn s.

Definition undefined {S A} : M S A := fun _ => Undef.

(** [assert(c)] *)
Definition assert {S} (c : bool) : M S unit :=
  if c then ret tt else undefined.

(** Run [m]; if it throws, run [cleanup] and let the exception go on. *)
Definition unwind {S A} (cleanup : M S unit) (m : M S A) : M S A :=
  fun s => match m s with
           | Ret a s1 => Ret a s1
           | Exn s1 => match cleanup s1 with
                       | Ret _ s2 => Exn s2
                       | Exn _ => Undef
                       | Undef => Undef
                       end
           | Undef => Undef
           end.

Declare Scope comp_scope.
Delimit Scope comp_scope with comp.
Notation "'do' x <- m ; k" := (bind m (fun x => k))
  (at level 10, x name, m at level 100, k at level 200) : comp_scope.
Notation "'do' ' p <- m ; k" := (bind m (fun x => match x with p => k end))
  (at level 10, p pattern, m at level 100, k at level 200) : comp_scope.
Notation "m ;;; k" := (bind m (fun _ => k))
  (at level 100, k at level 200, right associativity) : comp_scope.
Local Open Scope comp_scope.

Section Memory.
Context {T : Type} `{Element T}.

Abbreviation W := (world T).

Definition block_at (w : W) (b : nat) : option (list (slot T)) :=
  match heap w !! b with
  | Some (Some cells) => Some cells
  | _ => None
  end.

Definition cell_at (w : W) (p : ptr) : option (slot T) :=
  match blk p with
  | Some b =>
      match block_at w b with
      | Some cells => if 0 <=? off p then cells !! Z.to_nat (off p) else None
      | None => None
      end
  | None => None
  end.

Definition set_cell (w : W) (p : ptr) (s : slot T) : W :=
  match blk p with
  | Some b =>
      match block_at w b with
      | Some cells =>
          {| heap := <[b := Some (<[Z.to_nat (off p) := s]> cells)]> (heap w);
             constructed := constructed w;
             destroyed := destroyed w |}
      | None => w
      end
  | None => w
  end.

Definition count_ctor (w : W) : W :=
  {| heap := heap w; constructed := S (constructed w); destroyed := destroyed w |}.

Definition count_dtor (w : W) : W :=
  {| heap := heap w; constructed := constructed w; destroyed := S (destroyed w) |}.

(** *** Operations on one object *)

(** Read the object at [p]. *)
Definition load (p : ptr) : M W T :=
  fun w => match cell_at w p with
           | Some (Live v) => Ret v w
           | _ => Undef
           end.

(** The end of a constructor call that creates an object of value [v] in
    the storage at [p] (placement [new]).  Storage that holds a live
    object may be reused: the old object is gone without its destructor
    having run. *)
Definition emplace_at (p : ptr) (v : T) : M W unit :=
  fun w => match cell_at w p with
           | Some _ => Ret tt (count_ctor (set_cell w p (Live v)))
           | None => Undef
           end.

(** [new (p) T(args...)] for a constructor that may throw and yields [v]. *)
Definition construct_at (p : ptr) (v : T) : M W unit :=
  fun w => if ctor_throws (constructed w) v then Exn w else emplace_at p v w.

(** [new (p) T(x)] for the object [x] at [src] *)
Definition copy_construct (src dst : ptr) : M W unit :=
  do v <- load src; construct_at dst v.

(** Put a live object into its moved-from state. *)
Definition leave_moved (p : ptr) : M W unit :=
  fun w => match cell_at w p with
           | Some (Live v) => Ret tt (set_cell w p (Live (moved_from v)))
           | _ => Undef
           end.

(** [new (p) T(std::move(x))] for the object [x] at [src] *)
Definition move_construct (src dst : ptr) : M W unit :=
  do v <- load src;
  (if nothrow_move_constructible then emplace_at dst v else construct_at dst v);;;
  leave_moved src.

(** Overwrite the live object at [p] (the end of an assignment). *)
Definition store (p : ptr) (v : T) : M W unit :=
  fun w => match cell_at w p with
           | Some (Live _) => Ret tt (set_cell w p (Live v))
           | _ => Undef
           end.

(** copy assignment of the object at [src] to the object at [dst] *)
Definition copy_assign (src dst : ptr) : M W unit :=
  do v <- load src; store dst v.

(** move assignment of the object at [src] to the object at [dst] *)
Definition move_assign (src dst : ptr) : M W unit :=
  do v <- load src; store dst v;;; leave_moved src.

(** [std::destroy_at(p)], [p->~T()] *)
Definition destroy_at (p : ptr) : M W unit :=
  fun w => match cell_at w p with
           | Some (Live _) => Ret tt (count_dtor (set_cell w p Raw))
           | _ => Undef
           end.

(** A local object [T temp(args...)] of value [v]: its constructor and,
    at the end of its scope, its destructor. *)
Definition construct_local (v : T) : M W T :=
  fun w => if ctor_throws (constructed w) v then Exn w else Ret v (count_ctor w).

Definition destroy_local : M W unit :=
  fun w => Ret tt (count_dtor w).

(** *** Algorithms of [<memory>] and [<algorithm>] *)

(** [std::destroy_n(first, n)] *)
Fixpoint destroy_loop (first : ptr) (n : nat) : M W unit :=
  match n with
  | O => ret tt
  | S n' => destroy_at first;;; destroy_loop (ptr_add first 1) n'
  end.

Definition destroy_n (first : ptr) (n : Z) : M W unit :=
  destroy_loop first (Z.to_nat n).

(** The loop shared by the [std::uninitialized_*_n] algorithms: [step i]
    builds the [i]-th object of the destination; when it throws, the
    objects built so far are destroyed and the exception goes on. *)
Fixpoint uninitialized_loop (step : Z -> M W unit) (result : ptr)
    (built : nat) (n : nat) : M W unit :=
  match n with
  | O => ret tt
  | S n' =>
      unwind (destroy_loop result built) (step (Z.of_nat built));;;
      uninitialized_loop step result (S built) n'
  end.

(** [std::uninitialized_copy_n(first, n, result)] *)
Definition uninitialized_copy_n (first : ptr) (n : Z) (result : ptr) : M W unit :=
  uninitialized_loop
    (fun i => copy_construct (ptr_add first i) (ptr_add result i))
    result 0 (Z.to_nat n).

(** [std::uninitialized_move_n(first, n, result)] *)
Definition uninitialized_move_n (first : ptr) (n : Z) (result : ptr) : M W unit :=
  uninitialized_loop
    (fun i => move_construct (ptr_add first i) (ptr_add result i))
    result 0 (Z.to_nat n).

(** [std::uninitialized_move_n(first, n, result)] when [first] points to
    [const T]: [std::move] of a [const] object is a [const T&&], which
    only the copy constructor accepts, so every object is built by copy
    and the source is left as it is. *)
Definition uninitialized_move_n_const (first : ptr) (n : Z) (result : ptr) : M W unit :=
  uninitialized_loop
    (fun i => copy_construct (ptr_add first i) (ptr_add result i))
    result 0 (Z.to_nat n).

(** [std::uninitialized_value_construct_n(first, n)] *)
Definition uninitialized_value_construct_n (first : ptr) (n : Z) : M W unit :=
  uninitialized_loop
    (fun i => construct_at (ptr_add first i) value_init)
    first 0 (Z.to_nat n).

(** [std::copy_n(first, n, result)] *)
Fixpoint copy_loop (first result : ptr) (n : nat) : M W unit :=
  match n with
  | O => ret tt
  | S n' =>
      copy_assign first result;;;
      copy_loop (ptr_add first 1) (ptr_add result 1) n'
  end.

Definition copy_n (first : ptr) (n : Z) (result : ptr) : M W unit :=
  copy_loop first result (Z.to_nat n).

(** [std::move_backward(first, last, d_last)]: it steps [last] and
    [d_last] back and move-assigns, until [last] meets [first]; the
    algorithm requires a range, [last] reachable from [first]. *)
Fixpoint move_backward_loop (last d_last : ptr) (n : nat) : M W unit :=
  match n with
  | O => ret tt
  | S n' =>
      move_assign (ptr_add last (-1)) (ptr_add d_last (-1));;;
      move_backward_loop (ptr_add last (-1)) (ptr_add d_last (-1)) n'
  end.

Definition move_backward (first last d_last : ptr) : M W unit :=
  if same_block first last && (off first <=? off last)
  then move_backward_loop last d_last (Z.to_nat (off last - off first))
  else undefined.

(** [for (i = first; i != bound; i++) body(i)] over pointers.  A
    pointer steps up to the slot after the last one of its array and
    no further: [rounds] counts the steps that are left, and a walk
    that has not met [bound] by then is undefined. *)
Fixpoint ptr_for_loop (bound : ptr) (body : ptr -> M W unit) (i : ptr) (rounds : nat)
  : M W unit :=
  if ptr_eqb i bound then ret tt
  else match rounds with
       | O => undefined
       | S n' => body i;;; ptr_for_loop bound body (ptr_add i 1) n'
       end.

Definition steps_left (w : W) (p : ptr) : nat :=
  match blk p with
  | Some b =>
      match block_at w b with
      | Some cells => Z.to_nat (Z.of_nat (length cells) - off p)
      | None => O
      end
  | None => O
  end.

Definition ptr_for (first bound : ptr) (body : ptr -> M W unit) : M W unit :=
  fun w => ptr_for_loop bound body first (steps_left w first) w.

(** [for (size_t i = 0; i < n; i++) body(i)] *)
Fixpoint index_for_loop (body : Z -> M W unit) (i : Z) (n : nat) : M W unit :=
  match n with
  | O => ret tt
  | S n' => body i;;; index_for_loop body (i + 1) n'
  end.

Definition index_for (n : Z) (body : Z -> M W unit) : M W unit :=
  index_for_loop body 0 (Z.to_nat n).

End Memory.

(** ** [RawMemory<T>] *)

Record RawMemory : Type := { buffer_ : ptr; capacity_ : Z }.

Section RawMemoryClass.
Context {T : Type} `{Element T}.

Abbreviation W := (world T).

(** [operator new(bytes)]: it throws, or returns a fresh block of
    [bytes] bytes, which has room for [bytes / sizeof(T)] objects. *)
Definition operator_new (bytes : Z) : M W ptr :=
  fun w =>
    if new_throws (length (heap w)) bytes then Exn w
    else Ret {| blk := Some (length (heap w)); off := 0 |}
             {| heap := heap w ++ [Some (replicate (Z.to_nat (bytes / Z.pos size_of)) Raw)];
                constructed := constructed w;
                destroyed := destroyed w |}.

(** [Allocate(n)]: [n != 0 ? operator new(n * sizeof(T)) : nullptr] *)
Definition Allocate (n : Z) : M W ptr :=
  if n =? 0 then ret nullptr
  else operator_new (size_mul n (Z.pos size_of)).

(** [Deallocate(buf)]: [operator delete(buf)] *)
Definition Deallocate (buf : ptr) : M W unit :=
  match blk buf with
  | None => if off buf =? 0 then ret tt else undefined
  | Some b =>
      fun w =>
        match block_at w b with
        | Some _ =>
            if off buf =? 0
            then Ret tt {| heap := <[b := None]> (heap w);
                           constructed := constructed w;
                           destroyed := destroyed w |}
            else Undef
        | None => Undef
        end
  end.

(** [RawMemory()] *)
Definition RawMemory_default : RawMemory := {| buffer_ := nullptr; capacity_ := 0 |}.

(** [RawMemory(capacity)] *)
Definition RawMemory_new (capacity : Z) : M W RawMemory :=
  do buf <- Allocate capacity;
  ret {| buffer_ := buf; capacity_ := capacity |}.

(** [RawMemory(RawMemory&& other)]: the new object and what is left of
    [other]. *)
Definition RawMemory_move (other : RawMemory) : RawMemory * RawMemory :=
  ({| buffer_ := buffer_ other; capacity_ := capacity_ other |},
   {| buffer_ := nullptr; capacity_ := 0 |}).

(** [~RawMemory()] *)
Definition RawMemory_destroy (m : RawMemory) : M W unit :=
  Deallocate (buffer_ m).

(** [operator+(offset)] *)
Definition RawMemory_plus {S} (m : RawMemory) (offset : Z) : M S ptr :=
  assert (offset <=? capacity_ m);;;
  ret (ptr_add (buffer_ m) offset).

(** [operator[](index)], as the address of the slot it refers to *)
Definition RawMemory_index {S} (m : RawMemory) (index : Z) : M S ptr :=
  assert (index <? capacity_ m);;;
  ret (ptr_add (buffer_ m) index).

(** [Swap(other)]: the two objects after the exchange. *)
Definition RawMemory_Swap (m other : RawMemory) : RawMemory * RawMemory :=
  ({| buffer_ := buffer_ other; capacity_ := capacity_ other |},
   {| buffer_ := buffer_ m; capacity_ := capacity_ m |}).

Definition GetAddress (m : RawMemory) : ptr := buffer_ m.

Definition RawMemory_Capacity (m : RawMemory) : Z := capacity_ m.

End RawMemoryClass.

(** ** [Vector<T>]: what the two revisions share *)

Record Vector : Type := { data_ : RawMemory; size_ : Z }.

(** A member function runs on the object it is called on and the store. *)
Record frame (T : Type) : Type := { this : Vector; mem : world T }.
Arguments this {T} f.
Arguments mem {T} f.

Section VectorClass.
Context {T : Type} `{Element T}.

Abbreviation W := (world T).
Abbreviation F := (frame T).

(** Run a computation on the store from inside a member function. *)
Definition in_mem {A} (m : M W A) : M F A :=
  fun f => match m (mem f) with
           | Ret a w => Ret a {| this := this f; mem := w |}
           | Exn w => Exn {| this := this f; mem := w |}
           | Undef => Undef
           end.

(** Call a member function on [v]. *)
Definition call {A} (m : M F A) (v : Vector) (w : W) : outcome F A :=
  m {| this := v; mem := w |}.

Definition get_data : M F RawMemory := fun f => Ret (data_ (this f)) f.
Definition get_size : M F Z := fun f => Ret (size_ (this f)) f.

Definition set_data (d : RawMemory) : M F unit :=
  fun f => Ret tt {| this := {| data_ := d; size_ := size_ (this f) |}; mem := mem f |}.

Definition set_size (n : Z) : M F unit :=
  fun f => Ret tt {| this := {| data_ := data_ (this f); size_ := n |}; mem := mem f |}.

(** [Vector()] *)
Definition Vector_default : Vector := {| data_ := RawMemory_default; size_ := 0 |}.

(** [Vector(size)]; when an element constructor throws, the members
    built so far ([data_]) are destroyed and no object comes to be. *)
Definition Vector_sized (size : Z) : M W Vector :=
  do data <- RawMemory_new size;
  unwind (RawMemory_destroy data)
         (uninitialized_value_construct_n (GetAddress data) size);;;
  ret {| data_ := data; size_ := size |}.

(** [Vector(const Vector& other)] *)
Definition Vector_copy (other : Vector) : M W Vector :=
  do data <- RawMemory_new (size_ other);
  unwind (RawMemory_destroy data)
         (uninitialized_copy_n (GetAddress (data_ other)) (size_ other) (GetAddress data));;;
  ret {| data_ := data; size_ := size_ other |}.

(** [Vector(Vector&& other)]: the new object and what is left of
    [other]. *)
Definition Vector_move (other : Vector) : Vector * Vector :=
  let '(data, other_data) := RawMemory_move (data_ other) in
  ({| data_ := data; size_ := size_ other |},
   {| data_ := other_data; size_ := 0 |}).

(** [Swap(other)]; returns [other] as it is afterwards. *)
Definition Swap (other : Vector) : M F Vector :=
  do data <- get_data;
  do size <- get_size;
  let '(data', other_data) := RawMemory_Swap data (data_ other) in
  set_data data';;;
  set_size (size_ other);;;
  ret {| data_ := other_data; size_ := size |}.

Definition Size : M F Z := get_size.

Definition Capacity : M F Z :=
  do data <- get_data; ret (RawMemory_Capacity data).

(** [operator[](index)], as the address of the element *)
Definition subscript (index : Z) : M F ptr :=
  do size <- get_size;
  assert (index <? size);;;
  do data <- get_data;
  RawMemory_index data index.

(** [begin()], [cbegin()] *)
Definition begin_ : M F ptr :=
  do data <- get_data; ret (GetAddress data).

(** [end()], [cend()] *)
Definition end_ : M F ptr :=
  do data <- get_data;
  do size <- get_size;
  RawMemory_plus data size.

(** [~Vector()], followed by the destructor of the member [data_] *)
Definition Vector_destroy (v : Vector) : M W unit :=
  destroy_n (GetAddress (data_ v)) (size_ v);;;
  RawMemory_destroy (data_ v).

(** [data_.Swap(new_data)] for a local [new_data]; returns the local as
    it is afterwards. *)
Definition data_Swap (new_data : RawMemory) : M F RawMemory :=
  do data <- get_data;
  let '(data', new_data') := RawMemory_Swap data new_data in
  set_data data';;;
  ret new_data'.

(** [operator=(Vector&& rhs)]; returns [rhs] as it is afterwards. *)
Definition move_assignment (rhs : option Vector) : M F (option Vector) :=
  match rhs with
  | None => ret None
  | Some rhs => do rhs' <- Swap rhs; ret (Some rhs')
  end.

End VectorClass.

(** ** First revision *)

Module V1.
Section Members.
Context {T : Type} `{Element T}.

Abbreviation W := (world T).
Abbreviation F := (frame T).

(** [operator=(const Vector& rhs)]; [None] stands for an [rhs] that is
    the object itself. *)
Definition copy_assignment (rhs : option Vector) : M F unit :=
  match rhs with
  | None => ret tt
  | Some rhs =>
      do data <- get_data;
      if RawMemory_Capacity data <? size_ rhs then
        do rhs_copy <- in_mem (Vector_copy rhs);
        do rhs_copy <- Swap rhs_copy;
        in_mem (Vector_destroy rhs_copy)
      else
        do size <- get_size;
        let copy_count := Z.min size (size_ rhs) in
        in_mem (copy_n (GetAddress (data_ rhs)) copy_count (GetAddress data));;;
        do mine <- Size;
        (if mine <? size_ rhs then
           do src <- RawMemory_plus (data_ rhs) size;
           do dst <- RawMemory_plus data size;
           in_mem (uninitialized_copy_n src (size_sub (size_ rhs) size) dst)
         else
           in_mem (destroy_n (ptr_add (GetAddress data) (size_ rhs))
                             (size_sub size (size_ rhs))));;;
        set_size (size_ rhs)
  end.

(** [Reserve(new_capacity)] *)
Definition Reserve (new_capacity : Z) : M F unit :=
  do data <- get_data;
  if new_capacity <=? RawMemory_Capacity data then ret tt
  else
    do size <- get_size;
    do new_data <- in_mem (RawMemory_new new_capacity);
    do new_data <-
      unwind (in_mem (RawMemory_destroy new_data))
        ((if transfer_safe
          then in_mem (uninitialized_move_n (GetAddress data) size (GetAddress new_data))
          else in_mem (uninitialized_copy_n (GetAddress data) size (GetAddress new_data)));;;
         in_mem (destroy_n (GetAddress data) size);;;
         data_Swap new_data);
    in_mem (RawMemory_destroy new_data).

(** [Resize(new_size)] *)
Definition Resize (new_size : Z) : M F unit :=
  do size <- get_size;
  do data <- get_data;
  if new_size <? size then
    in_mem (destroy_n (ptr_add (GetAddress data) new_size) (size_sub size new_size));;;
    set_size new_size
  else
    do cap <- Capacity;
    if cap <? new_size then
      do new_data <- in_mem (RawMemory_new new_size);
      do new_data <-
        unwind (in_mem (RawMemory_destroy new_data))
          ((if transfer_safe then
              in_mem (index_for size (fun i =>
                do src <- RawMemory_index data i;
                move_construct src (ptr_add (GetAddress new_data) i)))
            else
              in_mem (index_for size (fun i =>
                do src <- RawMemory_index data i;
                copy_construct src (ptr_add (GetAddress new_data) i))));;;
           in_mem (uninitialized_value_construct_n
                     (ptr_add (GetAddress new_data) size) (size_sub new_size size));;;
           data_Swap new_data);
      in_mem (destroy_n (GetAddress new_data) size);;;
      set_size new_size;;;
      in_mem (RawMemory_destroy new_data)
    else
      in_mem (uninitialized_value_construct_n
                (ptr_add (GetAddress data) size) (size_sub new_size size));;;
      set_size new_size.

(** [EmplaceBack(args...)]; [args] is the value the constructor call
    [T(args...)] yields.  Returns the address of the element referred
    to by the result. *)
Definition EmplaceBack (args : T) : M F ptr :=
  do size <- get_size;
  do cap <- Capacity;
  if size <? cap then
    do data <- get_data;
    do p <- RawMemory_plus data size;
    in_mem (construct_at p args);;;
    set_size (size_add size 1);;;
    do size <- get_size;
    RawMemory_plus data (size_sub size 1)
  else
    let new_capacity := if size =? 0 then 1 else size_mul size 2 in
    do new_data <- in_mem (RawMemory_new new_capacity);
    do new_data <-
      unwind (in_mem (RawMemory_destroy new_data))
        (do p <- RawMemory_plus new_data size;
         in_mem (construct_at p args);;;
         do data <- get_data;
         (if transfer_safe
          then in_mem (uninitialized_move_n (GetAddress data) size (GetAddress new_data))
          else in_mem (uninitialized_copy_n (GetAddress data) size (GetAddress new_data)));;;
         data_Swap new_data);
    in_mem (destroy_n (GetAddress new_data) size);;;
    set_size (size_add size 1);;;
    do size <- get_size;
    do data <- get_data;
    do r <- RawMemory_plus data (size_sub size 1);
    in_mem (RawMemory_destroy new_data);;;
    ret r.

(** [PushBack(const T& value)] and [PushBack(T&& value)] *)
Definition PushBack (value : T) : M F unit :=
  do _ <- EmplaceBack value; ret tt.

(** [Emplace(pos, args...)] *)
Definition Emplace (pos : ptr) (args : T) : M F ptr :=
  do size <- get_size;
  do cap <- Capacity;
  if size <? cap then
    do e <- end_;
    if ptr_eqb pos e then
      do e <- end_;
      in_mem (construct_at e args);;;
      set_size (size_add size 1);;;
      ret pos
    else
      do temp <- in_mem (construct_local args);
      unwind (in_mem destroy_local)
        (do e <- end_;
         (if transfer_safe
          then in_mem (uninitialized_move_n (ptr_add e (-1)) 1 e)
          else in_mem (move_assign (ptr_add e (-1)) e));;;
         do e <- end_;
         let pos_end := ptr_add e (-1) in
         do e <- end_;
         in_mem (move_backward pos pos_end e);;;
         (if transfer_safe
          then in_mem (store pos temp)
          else in_mem (if nothrow_move_constructible
                       then emplace_at pos temp
                       else construct_at pos temp));;;
         do size <- get_size;
         set_size (size_add size 1));;;
      in_mem destroy_local;;;
      ret pos
  else
    let new_capacity := if size =? 0 then 1 else size_mul size 2 in
    do new_data <- in_mem (RawMemory_new new_capacity);
    do new_data <-
      unwind (in_mem (RawMemory_destroy new_data))
        (do b <- begin_;
         do p <- RawMemory_plus new_data (wrap (ptr_diff pos b));
         in_mem (construct_at p args);;;
         do data <- get_data;
         do e <- end_;
         (if transfer_safe then
            in_mem (uninitialized_move_n (GetAddress data) (ptr_diff pos b)
                                         (GetAddress new_data));;;
            in_mem (uninitialized_move_n (ptr_add (GetAddress data) (ptr_diff pos b))
                                         (ptr_diff e pos)
                                         (ptr_add (GetAddress new_data) (ptr_diff pos b + 1)))
          else
            in_mem (uninitialized_copy_n (GetAddress data) (ptr_diff pos b)
                                         (GetAddress new_data));;;
            in_mem (uninitialized_copy_n (ptr_add (GetAddress data) (ptr_diff pos b))
                                         (ptr_diff e pos)
                                         (ptr_add (GetAddress new_data) (ptr_diff pos b + 1))));;;
         data_Swap new_data);
    do size <- get_size;
    in_mem (destroy_n (GetAddress new_data) size);;;
    set_size (size_add size 1);;;
    do data <- get_data;
    do r <- RawMemory_plus data (wrap (ptr_diff pos (GetAddress new_data)));
    in_mem (RawMemory_destroy new_data);;;
    ret r.

(** [Erase(pos)] *)
Definition Erase (pos : ptr) : M F ptr :=
  do b <- begin_;
  do e <- end_;
  let bound := ptr_add e (- (ptr_diff pos b + 1)) in
  (if nothrow_move_assignable
   then in_mem (ptr_for pos bound (fun i => move_assign (ptr_add i 1) i))
   else in_mem (ptr_for pos bound (fun i => copy_assign (ptr_add i 1) i)));;;
  do size <- get_size;
  set_size (size_sub size 1);;;
  do e <- end_;
  in_mem (destroy_at e);;;
  ret pos.

(** [Insert(pos, const T& value)] and [Insert(pos, T&& value)] *)
Definition Insert (pos : ptr) (value : T) : M F ptr := Emplace pos value.

(** [PopBack()] *)
Definition PopBack : M F unit :=
  do size <- get_size;
  set_size (size_sub size 1);;;
  do e <- end_;
  in_mem (destroy_at e).

End Members.
End V1.

(** ** Second revision *)

Module V2.

(** What the caller gets from a function that returns a reference to one
    of its local objects: the object as the function left it, and
    whether its lifetime is over, which it is once the function has
    returned and the destructor of the local has run. *)
Record reference (A : Type) : Type := { referent : A; ended : bool }.
Arguments referent {A} r.
Arguments ended {A} r.

Section Members.
Context {T : Type} `{Element T}.

Abbreviation W := (world T).
Abbreviation F := (frame T).

(** [CopyRhs(rhs)] *)
Definition CopyRhs (rhs : Vector) : M F unit :=
  do size <- get_size;
  do data <- get_data;
  let copy_count := Z.min size (size_ rhs) in
  in_mem (copy_n (GetAddress (data_ rhs)) copy_count (GetAddress data));;;
  do mine <- Size;
  (if mine <? size_ rhs then
     do src <- RawMemory_plus (data_ rhs) size;
     do dst <- RawMemory_plus data size;
     in_mem (uninitialized_copy_n src (size_sub (size_ rhs) size) dst)
   else
     in_mem (destroy_n (ptr_add (GetAddress data) (size_ rhs))
                       (size_sub size (size_ rhs))));;;
  set_size (size_ rhs).

(** [operator=(const Vector& rhs)]; [None] stands for an [rhs] that is
    the object itself. *)
Definition copy_assignment (rhs : option Vector) : M F unit :=
  match rhs with
  | None => ret tt
  | Some rhs =>
      do data <- get_data;
      if RawMemory_Capacity data <? size_ rhs then
        do rhs_copy <- in_mem (Vector_copy rhs);
        do rhs_copy <- Swap rhs_copy;
        in_mem (Vector_destroy rhs_copy)
      else
        CopyRhs rhs
  end.

(** [SwapNewData(new_capacity)].  The result type is [RawMemory<T>&&] and
    the result is [std::move(new_data)]: a reference to the local
    [new_data], whose destructor releases the new buffer as the function
    returns. *)
Definition SwapNewData (new_capacity : Z) : M F (reference RawMemory) :=
  do new_data <- in_mem (RawMemory_new new_capacity);
  unwind (in_mem (RawMemory_destroy new_data))
    (do data <- get_data;
     do size <- get_size;
     if transfer_safe
     then in_mem (uninitialized_move_n (GetAddress data) size (GetAddress new_data))
     else in_mem (uninitialized_copy_n (GetAddress data) size (GetAddress new_data)));;;
  in_mem (RawMemory_destroy new_data);;;
  ret {| referent := new_data; ended := true |}.

(** [RawMemory<T> new_data = std::move(r)]: the move constructor reads
    the members of the object [r] refers to. *)
Definition RawMemory_move_from (r : reference RawMemory) : M F RawMemory :=
  if ended r then undefined else ret (fst (RawMemory_move (referent r))).

(** [Reserve(new_capacity)] *)
Definition Reserve (new_capacity : Z) : M F unit :=
  do data <- get_data;
  if new_capacity <=? RawMemory_Capacity data then ret tt
  else
    do r <- SwapNewData new_capacity;
    do new_data <- RawMemory_move_from r;
    do data <- get_data;
    do size <- get_size;
    in_mem (destroy_n (GetAddress data) size);;;
    do new_data <- data_Swap new_data;
    in_mem (RawMemory_destroy new_data).

(** [Resize(new_size)] *)
Definition Resize (new_size : Z) : M F unit :=
  do size <- get_size;
  do data <- get_data;
  if new_size <? size then
    in_mem (destroy_n (ptr_add (GetAddress data) new_size) (size_sub size new_size));;;
    set_size new_size
  else
    do cap <- Capacity;
    if cap <? new_size then
      do r <- SwapNewData new_size;
      do new_data <- RawMemory_move_from r;
      do new_data <-
        unwind (in_mem (RawMemory_destroy new_data))
          (in_mem (uninitialized_value_construct_n
                     (ptr_add (GetAddress new_data) size) (size_sub new_size size));;;
           data_Swap new_data);
      in_mem (destroy_n (GetAddress new_data) size);;;
      set_size new_size;;;
      in_mem (RawMemory_destroy new_data)
    else
      in_mem (uninitialized_value_construct_n
                (ptr_add (GetAddress data) size) (size_sub new_size size));;;
      set_size new_size.

(** [OffsetRight(pos, args...)] *)
Definition OffsetRight (pos : ptr) (args : T) : M F unit :=
  do temp <- in_mem (construct_local args);
  unwind (in_mem destroy_local)
    ((if transfer_safe then
        do e <- end_;
        in_mem (uninitialized_move_n (ptr_add e (-1)) 1 e);;;
        do e <- end_;
        let pos_end := ptr_add e (-1) in
        do e <- end_;
        in_mem (move_backward pos pos_end e);;;
        in_mem (store pos temp)
      else
        do e <- end_;
        in_mem (move_assign (ptr_add e (-1)) e);;;
        do e <- end_;
        let pos_end := ptr_add e (-1) in
        do e <- end_;
        in_mem (move_backward pos pos_end e);;;
        in_mem (if nothrow_move_constructible
                then emplace_at pos temp
                else construct_at pos temp));;;
     do size <- get_size;
     set_size (size_add size 1));;;
  in_mem destroy_local.

(** [OffsetRightNewCapacity(pos, args...)] *)
Definition OffsetRightNewCapacity (pos : ptr) (args : T) : M F Z :=
  do size <- get_size;
  let new_capacity := if size =? 0 then 1 else size_mul size 2 in
  do new_data <- in_mem (RawMemory_new new_capacity);
  do new_data <-
    unwind (in_mem (RawMemory_destroy new_data))
      (do b <- begin_;
       do p <- RawMemory_plus new_data (wrap (ptr_diff pos b));
       in_mem (construct_at p args);;;
       do data <- get_data;
       do e <- end_;
       (if transfer_safe then
          in_mem (uninitialized_move_n (GetAddress data) (ptr_diff pos b)
                                       (GetAddress new_data));;;
          in_mem (uninitialized_move_n (ptr_add (GetAddress data) (ptr_diff pos b))
                                       (ptr_diff e pos)
                                       (ptr_add (GetAddress new_data) (ptr_diff pos b + 1)))
        else
          in_mem (uninitialized_copy_n (GetAddress data) (ptr_diff pos b)
                                       (GetAddress new_data));;;
          in_mem (uninitialized_copy_n (ptr_add (GetAddress data) (ptr_diff pos b))
                                       (ptr_diff e pos)
                                       (ptr_add (GetAddress new_data) (ptr_diff pos b + 1))));;;
       data_Swap new_data);
  do size <- get_size;
  in_mem (destroy_n (GetAddress new_data) size);;;
  set_size (size_add size 1);;;
  let offset := wrap (ptr_diff pos (GetAddress new_data)) in
  in_mem (RawMemory_destroy new_data);;;
  ret offset.

(** [Emplace(pos, args...)] *)
Definition Emplace (pos : ptr) (args : T) : M F ptr :=
  do b <- begin_;
  do e <- end_;
  assert (ptr_leb b pos && ptr_leb pos e);;;
  do size <- get_size;
  do cap <- Capacity;
  if size <? cap then
    do e <- end_;
    if ptr_eqb pos e then
      do e <- end_;
      in_mem (construct_at e args);;;
      set_size (size_add size 1);;;
      ret pos
    else
      OffsetRight pos args;;;
      ret pos
  else
    do offset <- OffsetRightNewCapacity pos args;
    do data <- get_data;
    RawMemory_plus data offset.

(** [EmplaceBack(args...)] *)
Definition EmplaceBack (args : T) : M F ptr :=
  do e <- end_;
  Emplace e args.

(** [PushBack(const T& value)] and [PushBack(T&& value)] *)
Definition PushBack (value : T) : M F unit :=
  do _ <- EmplaceBack value; ret tt.

(** [Insert(pos, const T& value)] and [Insert(pos, T&& value)] *)
Definition Insert (pos : ptr) (value : T) : M F ptr := Emplace pos value.

(** [Erase(pos)] *)
Definition Erase (pos : ptr) : M F ptr :=
  do b <- begin_;
  do e <- end_;
  assert (ptr_leb b pos && ptr_ltb pos e);;;
  (if nothrow_move_assignable
   then in_mem (uninitialized_move_n_const (ptr_add pos 1) (ptr_diff pos b + 1) pos)
   else in_mem (copy_n (ptr_add pos 1) (ptr_diff pos b + 1) pos));;;
  do size <- get_size;
  set_size (size_sub size 1);;;
  do e <- end_;
  in_mem (destroy_at e);;;
  ret pos.

(** [PopBack()] *)
Definition PopBack : M F unit :=
  do size <- get_size;
  if negb (size =? 0) then
    set_size (size_sub size 1);;;
    do e <- end_;
    in_mem (destroy_at e)
  else ret tt.

End Members.
End V2.

(** ** Element types used in examples *)

(** An [int]-like element of four bytes: every trait holds, nothing
    throws, a move leaves the source as it was. *)
Definition plain : Element Z :=
  {| nothrow_move_constructible := true;
     copy_constructible := true;
     nothrow_move_assignable := true;
     moved_from := fun v => v;
     value_init := 0;
     ctor_throws := fun _ _ => false;
     size_of := 4;
     new_throws := fun _ _ => false |}.

(** An element whose move constructor may throw and that can be copied
    (so transfers copy); its constructors throw on the call that follows
    [k] successful constructions, and on no other (a counting test
    element of four bytes); no allocation fails. *)
Definition throwing_at (k : nat) : Element Z :=
  {| nothrow_move_constructible := false;
     copy_constructible := true;
     nothrow_move_assignable := false;
     moved_from := fun v => v;
     value_init := 0;
     ctor_throws := fun n _ => Nat.eqb n k;
     size_of := 4;
     new_throws := fun _ _ => false |}.

(** An element whose move constructor does not throw and leaves its
    source at [-1]; its other constructors throw on the call that
    follows [k] successful constructions, and on no other. *)
Definition movable_at (k : nat) : Element Z :=
  {| nothrow_move_constructible := true;
     copy_constructible := true;
     nothrow_move_assignable := true;
     moved_from := fun _ => -1;
     value_init := 0;
     ctor_throws := fun n _ => Nat.eqb n k;
     size_of := 4;
     new_throws := fun _ _ => false |}.

(** An [int]-like element where no memory is left: every call of
    [operator new] throws. *)
Definition starved : Element Z :=
  {| nothrow_move_constructible := true;
     copy_constructible := true;
     nothrow_move_assignable := true;
     moved_from := fun v => v;
     value_init := 0;
     ctor_throws := fun _ _ => false;
     size_of := 4;
     new_throws := fun _ _ => true |}.

(** The values of the live elements of [v], read through [operator[]];
    [None] when some slot below [size_] holds no object. *)
Definition contents {T} `{Element T} (v : Vector) (w : world T) : option (list T) :=
  mapM (fun i : nat =>
          match call (do p <- subscript (Z.of_nat i); in_mem (load p)) v w with
          | Ret x _ => Some x
          | _ => None
          end)
       (seq 0 (Z.to_nat (size_ v))).

(** ** Vocabulary of the specifications *)

Section Vocabulary.
Context {T : Type} `{Element T}.

Abbreviation W := (world T).

(** The slots of the block [p] points into; the null pointer points into
    an array of no slots. *)
Definition block_of (w : W) (p : ptr) : option (list (slot T)) :=
  match blk p with
  | Some b => block_at w b
  | None => Some []
  end.

(** [w'] differs from [w] at most in the block of [p], which now holds
    [cells], and in that [c] constructions and [d] destructions have
    been counted. *)
Definition writes (w w' : W) (p : ptr) (cells : list (slot T)) (c d : nat) : Prop :=
  block_of w' p = Some cells /\
  (forall q, blk q <> blk p -> block_of w' q = block_of w q) /\
  constructed w' = (constructed w + c)%nat /\
  destroyed w' = (destroyed w + d)%nat.

(** The same for the blocks of two pointers. *)
Definition writes2 (w w' : W) (p : ptr) (cells_p : list (slot T))
    (q : ptr) (cells_q : list (slot T)) (c d : nat) : Prop :=
  block_of w' p = Some cells_p /\
  block_of w' q = Some cells_q /\
  (forall r, blk r <> blk p -> blk r <> blk q -> block_of w' r = block_of w r) /\
  constructed w' = (constructed w + c)%nat /\
  destroyed w' = (destroyed w + d)%nat.

(** None of the next [n] constructor calls throws. *)
Definition calm (w : W) (n : nat) : Prop :=
  forall k v, (constructed w <= k < constructed w + n)%nat -> ctor_throws k v = false.

(** No constructor call throws from now on. *)
Definition quiet (w : W) : Prop :=
  forall k v, (constructed w <= k)%nat -> ctor_throws k v = false.

(** No call of [operator new] throws. *)
Definition roomy : Prop :=
  forall b bytes, new_throws b bytes = false.

(** An array of [n] objects has a size in bytes that a [size_t] can
    hold: [n * sizeof(T)] does not wrap around. *)
Definition representable (n : Z) : Prop :=
  n * Z.pos size_of <= SIZE_MAX.

(** The number of objects the block has room for that [Allocate(n)]
    asks [operator new] for. *)
Definition room (n : Z) : Z :=
  size_mul n (Z.pos size_of) / Z.pos size_of.

(** The vector [v] holds the elements [l] in a buffer of [cap] slots:
    [size_] and [capacity_] say so, the first [length l] slots of the
    buffer are live and hold [l], and the remaining slots are raw; the
    buffer is an array of [cap] objects, of a size in bytes that a
    [size_t] can hold. *)
Definition holds (w : W) (v : Vector) (l : list T) (cap : nat) : Prop :=
  size_ v = Z.of_nat (length l) /\
  capacity_ (data_ v) = Z.of_nat cap /\
  (length l <= cap)%nat /\
  Z.of_nat cap <= SIZE_MAX /\
  off (buffer_ (data_ v)) = 0 /\
  block_of w (buffer_ (data_ v)) =
    Some ((Live <$> l) ++ replicate (cap - length l) Raw) /\
  representable (Z.of_nat cap).

(** Two vectors do not share storage. *)
Definition apart (v1 v2 : Vector) : Prop :=
  blk (buffer_ (data_ v1)) = blk (buffer_ (data_ v2)) ->
  blk (buffer_ (data_ v1)) = None.

(** The capacity after [n] calls of [PushBack] on an empty vector. *)
Fixpoint capacity_after (n : nat) : nat :=
  match n with
  | O => O
  | S n' =>
      let cap := capacity_after n' in
      if (n' <? cap)%nat then cap else Nat.max 1 (2 * n')
  end.

(** [PushBack] of each element of [l] in turn. *)
Fixpoint push_all (push : T -> M (frame T) unit) (l : list T) : M (frame T) unit :=
  match l with
  | [] => ret tt
  | x :: l' => push x;;; push_all push l'
  end.

End Vocabulary.

(** ** Vocabulary of the statements about sequences of calls *)

Section Sequences.
Context {T : Type} `{Element T}.

(** [PushBack], as the sequence of pushes needs it. *)
Definition push_spec (push : T -> M (frame T) unit) : Prop :=
  forall v w l cap x,
    holds w v l cap -> representable (Z.max 1 (2 * Z.of_nat (length l))) ->
    quiet w ->
    exists f, call (push x) v w = Ret tt f /\
              holds (mem f) (this f) (l ++ [x])
                    (if (length l <? cap)%nat then cap else Nat.max 1 (2 * length l)) /\
              quiet (mem f).

(** Run a member function on a default-constructed vector in an empty
    store. *)
Definition from_scratch {A} (m : M (frame T) A) : outcome (frame T) A :=
  call m Vector_default empty_world.

(** The elements of the vector a call leaves behind, when it returns or
    throws. *)
Definition elements_after {A} (o : outcome (frame T) A) : option (list T) :=
  match o with
  | Ret _ f => contents (this f) (mem f)
  | Exn f => contents (this f) (mem f)
  | Undef => None
  end.

End Sequences.

(** A vector of one element in a buffer of two slots, as [Reserve(2)] and
    [PushBack(5)] leave it. *)
Definition sample_world : world Z :=
  {| heap := [Some [Live 5; Raw]]; constructed := 1; destroyed := 0 |}.

Definition sample_vector : Vector :=
  {| data_ := {| buffer_ := {| blk := Some 0%nat; off := 0 |}; capacity_ := 2 |};
     size_ := 1 |}.

(** A full vector of two elements and a second vector of one element, as
    [PushBack(1)], [PushBack(2)] on one and [PushBack(7)] on another leave
    them. *)
Definition pair_world : world Z :=
  {| heap := [None; Some [Live 1; Live 2]; Some [Live 7]];
     constructed := 4; destroyed := 1 |}.

Definition first_vector : Vector :=
  {| data_ := {| buffer_ := {| blk := Some 1%nat; off := 0 |}; capacity_ := 2 |};
     size_ := 2 |}.

Definition second_vector : Vector :=
  {| data_ := {| buffer_ := {| blk := Some 2%nat; off := 0 |}; capacity_ := 1 |};
     size_ := 1 |}.

(** Element types of the examples: counting test elements that throw on
    the fifth and on the sixth constructor call, and one of the same kind
    that never gets to throw in the examples. *)
Definition throws_fifth : Element Z := throwing_at 4.
Definition copied : Element Z := throwing_at 1000.

Section Statements.
Context {T : Type} `{Element T}.

(** The call returns and leaves the vector with capacity [c], holding
    the elements [l] in a buffer of [c] slots. *)
Definition grows_to {A} (m : M (frame T) A) (v : Vector) (w : world T)
    (l : list T) (c : Z) : Prop :=
  exists a f, call m v w = Ret a f /\
              capacity_ (data_ (this f)) = c /\
              holds (mem f) (this f) l (Z.to_nat c).

(** The call returns the address of the element of index [i], which
    holds [x]. *)
Definition designates (m : M (frame T) ptr) (v : Vector) (w : world T)
    (i : Z) (x : T) : Prop :=
  exists p f, call m v w = Ret p f /\
              p = ptr_add (buffer_ (data_ (this f))) i /\
              0 <= i < size_ (this f) /\
              load p (mem f) = Ret x (mem f).

(** The copy assignment returns and leaves the destination with the
    elements [lr] of the source [rhs], which is as before; [built] and
    [ended] count the constructions and destructions it made; [fresh]
    tells whether the destination got a buffer of its own size. *)
Definition assigned (assign : option Vector -> M (frame T) unit)
    (v : Vector) (w : world T) (rhs : Vector) (lr : list T) (capr : nat)
    (cap' : nat) (built ended : nat) : Prop :=
  exists f, call (assign (Some rhs)) v w = Ret tt f /\
            holds (mem f) (this f) lr cap' /\
            holds (mem f) rhs lr capr /\
            constructed (mem f) = (constructed w + built)%nat /\
            destroyed (mem f) = (destroyed w + ended)%nat.

(** The copy assignment throws and leaves destination and source as
    they were, and no object behind. *)
Definition unmodified (assign : option Vector -> M (frame T) unit)
    (v : Vector) (w : world T) (l : list T) (cap : nat)
    (rhs : Vector) (lr : list T) (capr : nat) : Prop :=
  exists w', call (assign (Some rhs)) v w = Exn {| this := v; mem := w' |} /\
             holds w' v l cap /\ holds w' rhs lr capr /\
             (constructed w' + destroyed w = constructed w + destroyed w')%nat.

End Statements.

(** * Verification *)

(** ** Stepping through computations *)

Ltac zb :=
  repeat first
    [ rewrite (proj2 (Z.ltb_lt _ _)) by lia
    | rewrite (proj2 (Z.ltb_ge _ _)) by lia
    | rewrite (proj2 (Z.leb_le _ _)) by lia
    | rewrite (proj2 (Z.leb_gt _ _)) by lia
    | rewrite (proj2 (Z.eqb_eq _ _)) by lia
    | rewrite (proj2 (Z.eqb_neq _ _)) by lia ].

Section Stepping.
Context {T : Type} `{Element T}.

Lemma bind_ret {S A B} (m : M S A) (k : A -> M S B) s a s' :
  m s = Ret a s' -> bind m k s = k a s'.
Proof. intros E. unfold bind. by rewrite E. Qed.

Lemma bind_exn {S A B} (m : M S A) (k : A -> M S B) s s' :
  m s = Exn s' -> bind m k s = Exn s'.
Proof. intros E. unfold bind. by rewrite E. Qed.

Lemma bind_undef {S A B} (m : M S A) (k : A -> M S B) s :
  m s = Undef -> bind m k s = Undef.
Proof. intros E. unfold bind. by rewrite E. Qed.

Lemma unwind_undef {S A} (cleanup : M S unit) (m : M S A) s :
  m s = Undef -> unwind cleanup m s = Undef.
Proof. intros E. unfold unwind. by rewrite E. Qed.

Lemma unwind_ret {S A} (cleanup : M S unit) (m : M S A) s a s' :
  m s = Ret a s' -> unwind cleanup m s = Ret a s'.
Proof. intros E. unfold unwind. by rewrite E. Qed.

Lemma unwind_exn {S A} (cleanup : M S unit) (m : M S A) s s1 s2 :
  m s = Exn s1 -> cleanup s1 = Ret tt s2 -> unwind cleanup m s = Exn s2.
Proof. intros E1 E2. unfold unwind. by rewrite E1, E2. Qed.

Lemma in_mem_ret {A} (m : M (world T) A) (f : frame T) a w' :
  m (mem f) = Ret a w' -> in_mem m f = Ret a {| this := this f; mem := w' |}.
Proof. intros E. unfold in_mem. by rewrite E. Qed.

Lemma in_mem_exn {A} (m : M (world T) A) (f : frame T) w' :
  m (mem f) = Exn w' -> in_mem m f = Exn {| this := this f; mem := w' |}.
Proof. intros E. unfold in_mem. by rewrite E. Qed.

Lemma in_mem_undef {A} (m : M (world T) A) (f : frame T) :
  m (mem f) = Undef -> in_mem m f = Undef.
Proof. intros E. unfold in_mem. by rewrite E. Qed.

Lemma if_in_mem {A} (b : bool) (m1 m2 : M (world T) A) (f : frame T) :
  (if b then in_mem m1 else in_mem m2) f = in_mem (if b then m1 else m2) f.
Proof. by destruct b. Qed.

Lemma size_add_small x y : 0 <= x + y <= SIZE_MAX -> size_add x y = x + y.
Proof. unfold size_add, wrap, SIZE_MAX. intros. apply Z.mod_small. lia. Qed.

Lemma size_sub_small x y : 0 <= x - y <= SIZE_MAX -> size_sub x y = x - y.
Proof. unfold size_sub, wrap, SIZE_MAX. intros. apply Z.mod_small. lia. Qed.

Lemma size_mul_small x y : 0 <= x * y <= SIZE_MAX -> size_mul x y = x * y.
Proof. unfold size_mul, wrap, SIZE_MAX. intros. apply Z.mod_small. lia. Qed.

Lemma wrap_small x : 0 <= x <= SIZE_MAX -> wrap x = x.
Proof. unfold wrap, SIZE_MAX. intros. apply Z.mod_small. lia. Qed.

Lemma RawMemory_plus_ok {S} (m : RawMemory) (offset : Z) (s : S) :
  offset <= capacity_ m ->
  RawMemory_plus m offset s = Ret (ptr_add (buffer_ m) offset) s.
Proof. intros Hle. unfold RawMemory_plus, assert, bind. zb. done. Qed.

Lemma RawMemory_index_ok {S} (m : RawMemory) (index : Z) (s : S) :
  index < capacity_ m ->
  RawMemory_index m index s = Ret (ptr_add (buffer_ m) index) s.
Proof. intros Hle. unfold RawMemory_index, assert, bind. zb. done. Qed.

Lemma end_ok (f : frame T) :
  size_ (this f) <= capacity_ (data_ (this f)) ->
  end_ f = Ret (ptr_add (buffer_ (data_ (this f))) (size_ (this f))) f.
Proof. intros Hle. unfold end_. cbn. by apply RawMemory_plus_ok. Qed.

End Stepping.

Ltac step_plus :=
  erewrite bind_ret by (apply RawMemory_plus_ok; cbn; lia); cbn.
Ltac step_mem E :=
  erewrite bind_ret by (apply in_mem_ret; exact E); cbn.
Ltac step_if E :=
  erewrite bind_ret by (rewrite if_in_mem; apply in_mem_ret; exact E); cbn.
Ltac step_end :=
  erewrite bind_ret by (apply end_ok; cbn; lia); cbn.

Section StoreFacts.
Context {T : Type} `{Element T}.
Implicit Types (w : world T) (p q : ptr) (cs : list (slot T)).

Lemma block_of_null w p cs :
  block_of w p = Some cs -> blk p = None -> cs = [].
Proof. unfold block_of. intros Hb Hn. rewrite Hn in Hb. congruence. Qed.

Lemma block_of_some w p cs :
  block_of w p = Some cs -> cs <> [] -> exists b, blk p = Some b /\ heap w !! b = Some (Some cs).
Proof.
  unfold block_of, block_at. destruct (blk p) as [b|]; [|congruence].
  intros Hb _. exists b. split; [done|].
  destruct (heap w !! b) as [[c|]|]; congruence.
Qed.

Lemma cell_at_block w p cs :
  block_of w p = Some cs -> 0 <= off p -> cell_at w p = cs !! Z.to_nat (off p).
Proof.
  unfold block_of, cell_at. destruct (blk p) as [b|].
  - intros -> Hoff. destruct (Z.leb_spec 0 (off p)); [done|lia].
  - intros [= <-] _. done.
Qed.

Lemma writes_refl w p cs : block_of w p = Some cs -> writes w w p cs 0 0.
Proof. intros Hb. repeat split; auto with lia. Qed.

Lemma writes_trans w w1 w2 p cs1 cs2 c1 d1 c2 d2 :
  writes w w1 p cs1 c1 d1 -> writes w1 w2 p cs2 c2 d2 ->
  writes w w2 p cs2 (c1 + c2) (d1 + d2).
Proof.
  intros (_ & F1 & C1 & D1) (B2 & F2 & C2 & D2). repeat split; [done| |lia|lia].
  intros q Hq. rewrite F2, F1; done.
Qed.

Lemma writes_counts w w' p cs c d c' d' :
  writes w w' p cs c d -> c = c' -> d = d' -> writes w w' p cs c' d'.
Proof. intros Hw <- <-. done. Qed.

Lemma writes_cells w w' p cs cs' c d :
  writes w w' p cs c d -> cs = cs' -> writes w w' p cs' c d.
Proof. intros Hw <-. done. Qed.

Lemma writes_other w w' p cs c d q :
  writes w w' p cs c d -> blk q <> blk p -> block_of w' q = block_of w q.
Proof. intros (_ & F & _) Hq. auto. Qed.

Lemma writes_calm w w' p cs c d n :
  writes w w' p cs c d -> calm w (c + n) -> calm w' n.
Proof.
  intros (_ & _ & C & _) Hc k v Hk. apply Hc. lia.
Qed.

Lemma calm_le w n m : calm w n -> (m <= n)%nat -> calm w m.
Proof. intros Hc Hle k v Hk. apply Hc. lia. Qed.

(** Bookkeeping of counters. *)
Lemma count_ctor_writes w p cs :
  block_of w p = Some cs -> writes w (count_ctor w) p cs 1 0.
Proof. intros Hb. repeat split; simpl; auto with lia. Qed.

Lemma count_dtor_writes w p cs :
  block_of w p = Some cs -> writes w (count_dtor w) p cs 0 1.
Proof. intros Hb. repeat split; simpl; auto with lia. Qed.

(** Writing one slot. *)
Lemma set_cell_writes w p cs s :
  block_of w p = Some cs -> 0 <= off p -> (Z.to_nat (off p) < length cs)%nat ->
  writes w (set_cell w p s) p (<[Z.to_nat (off p) := s]> cs) 0 0.
Proof.
  intros Hb Hoff Hlen.
  destruct (block_of_some w p cs Hb) as (b & Hp & Hh).
  { intros ->. simpl in Hlen. lia. }
  assert (Hbl : (b < length (heap w))%nat) by (eapply lookup_lt_Some; eauto).
  unfold writes, set_cell, block_of, block_at. rewrite Hp.
  unfold block_at. rewrite Hh. simpl.
  rewrite list_lookup_insert_eq by done.
  repeat split; [|lia|lia].
  intros q Hq. destruct (blk q) as [b'|]; [|done].
  rewrite list_lookup_insert_ne by congruence. done.
Qed.

(** *** The operations on one object *)

Lemma load_ok w p cs v :
  block_of w p = Some cs -> 0 <= off p -> cs !! Z.to_nat (off p) = Some (Live v) ->
  load p w = Ret v w.
Proof.
  intros Hb Hoff Hv. unfold load. rewrite (cell_at_block w p cs), Hv; done.
Qed.

Lemma emplace_at_ok w p cs v :
  block_of w p = Some cs -> 0 <= off p -> (Z.to_nat (off p) < length cs)%nat ->
  exists w', emplace_at p v w = Ret tt w' /\
             writes w w' p (<[Z.to_nat (off p) := Live v]> cs) 1 0.
Proof.
  intros Hb Hoff Hlen. unfold emplace_at.
  rewrite (cell_at_block w p cs) by done.
  destruct (lookup_lt_is_Some_2 cs _ Hlen) as [s ->].
  eexists. split; [done|].
  pose proof (set_cell_writes w p cs (Live v) Hb Hoff Hlen) as Hw.
  eapply writes_counts; [eapply writes_trans; [exact Hw|]|..].
  - apply count_ctor_writes. apply Hw.
  - done.
  - done.
Qed.

Lemma construct_at_ok w p cs v :
  block_of w p = Some cs -> 0 <= off p -> (Z.to_nat (off p) < length cs)%nat ->
  calm w 1 ->
  exists w', construct_at p v w = Ret tt w' /\
             writes w w' p (<[Z.to_nat (off p) := Live v]> cs) 1 0.
Proof.
  intros Hb Hoff Hlen Hc. unfold construct_at.
  rewrite Hc by lia. by apply emplace_at_ok.
Qed.

Lemma emplace_at_outside w p cs v :
  block_of w p = Some cs -> 0 <= off p -> (length cs <= Z.to_nat (off p))%nat ->
  emplace_at p v w = Undef.
Proof.
  intros Hb Hoff Hlen. unfold emplace_at.
  rewrite (cell_at_block w p cs) by done.
  by rewrite lookup_ge_None_2 by lia.
Qed.

Lemma construct_at_outside w p cs v :
  block_of w p = Some cs -> 0 <= off p -> (length cs <= Z.to_nat (off p))%nat ->
  calm w 1 ->
  construct_at p v w = Undef.
Proof.
  intros Hb Hoff Hlen Hc. unfold construct_at.
  rewrite Hc by lia. by eapply emplace_at_outside.
Qed.

Lemma construct_at_throws w p v :
  ctor_throws (constructed w) v = true -> construct_at p v w = Exn w.
Proof. intros Ht. unfold construct_at. by rewrite Ht. Qed.

Lemma store_ok w p cs v0 v :
  block_of w p = Some cs -> 0 <= off p -> cs !! Z.to_nat (off p) = Some (Live v0) ->
  exists w', store p v w = Ret tt w' /\
             writes w w' p (<[Z.to_nat (off p) := Live v]> cs) 0 0.
Proof.
  intros Hb Hoff Hv. unfold store.
  rewrite (cell_at_block w p cs), Hv by done.
  eexists. split; [done|].
  apply set_cell_writes; [done..|]. eapply lookup_lt_Some; eauto.
Qed.

Lemma leave_moved_ok w p cs v :
  block_of w p = Some cs -> 0 <= off p -> cs !! Z.to_nat (off p) = Some (Live v) ->
  exists w', leave_moved p w = Ret tt w' /\
             writes w w' p (<[Z.to_nat (off p) := Live (moved_from v)]> cs) 0 0.
Proof.
  intros Hb Hoff Hv. unfold leave_moved.
  rewrite (cell_at_block w p cs), Hv by done.
  eexists. split; [done|].
  apply set_cell_writes; [done..|]. eapply lookup_lt_Some; eauto.
Qed.

Lemma destroy_at_ok w p cs v :
  block_of w p = Some cs -> 0 <= off p -> cs !! Z.to_nat (off p) = Some (Live v) ->
  exists w', destroy_at p w = Ret tt w' /\
             writes w w' p (<[Z.to_nat (off p) := Raw]> cs) 0 1.
Proof.
  intros Hb Hoff Hv. unfold destroy_at.
  rewrite (cell_at_block w p cs), Hv by done.
  eexists. split; [done|].
  assert (Hlen : (Z.to_nat (off p) < length cs)%nat) by (eapply lookup_lt_Some; eauto).
  pose proof (set_cell_writes w p cs Raw Hb Hoff Hlen) as Hw.
  eapply writes_counts; [eapply writes_trans; [exact Hw|]|..].
  - apply count_dtor_writes. apply Hw.
  - done.
  - done.
Qed.

End StoreFacts.

Section ListFacts.
Context {A : Type}.
Implicit Types (l P Q : list A).

Lemma insert_middle P Q x y n :
  n = length P -> <[n := y]> (P ++ x :: Q) = P ++ y :: Q.
Proof.
  intros ->. replace (length P) with (length P + 0)%nat by lia.
  by rewrite insert_app_r.
Qed.

Lemma snoc_app P Q x : (P ++ [x]) ++ Q = P ++ x :: Q.
Proof. by rewrite <- app_assoc. Qed.
End ListFacts.

Section LoopFacts.
Context {T : Type} `{Element T}.
Implicit Types (w : world T) (p q : ptr) (cs : list (slot T)) (vs : list T).

(** [std::destroy_n] over live objects leaves raw storage. *)
Lemma destroy_loop_ok vs : forall w p P Q,
  block_of w p = Some (P ++ (Live <$> vs) ++ Q) ->
  0 <= off p -> length P = Z.to_nat (off p) ->
  exists w', destroy_loop p (length vs) w = Ret tt w' /\
             writes w w' p (P ++ replicate (length vs) Raw ++ Q) 0 (length vs).
Proof.
  induction vs as [|x vs IH]; intros w p P Q Hb Hoff HP.
  - exists w. split; [done|]. by apply writes_refl.
  - simpl in Hb.
    destruct (destroy_at_ok w p _ x Hb Hoff) as (w1 & E1 & W1).
    { by apply list_lookup_middle. }
    rewrite insert_middle in W1 by done.
    destruct (IH w1 (ptr_add p 1) (P ++ [Raw]) Q) as (w2 & E2 & W2).
    { rewrite snoc_app. apply W1. }
    { simpl. lia. }
    { rewrite length_app. simpl. lia. }
    exists w2. split.
    + simpl. erewrite bind_ret by exact E1. exact E2.
    + eapply writes_counts; [eapply writes_cells; [eapply writes_trans; [exact W1|exact W2]|]|..].
      * by rewrite snoc_app.
      * done.
      * simpl. lia.
Qed.

Lemma destroy_n_ok vs w p P Q n :
  block_of w p = Some (P ++ (Live <$> vs) ++ Q) ->
  0 <= off p -> length P = Z.to_nat (off p) -> n = Z.of_nat (length vs) ->
  exists w', destroy_n p n w = Ret tt w' /\
             writes w w' p (P ++ replicate (length vs) Raw ++ Q) 0 (length vs).
Proof.
  intros Hb Hoff HP ->. unfold destroy_n. rewrite Nat2Z.id. by apply destroy_loop_ok.
Qed.

(** The loop of the [uninitialized] algorithms, when no step throws. *)
Lemma uninitialized_loop_ok (I : nat -> world T -> Prop) step result n :
  forall built w,
    I built w ->
    (forall i w, (built <= i < built + n)%nat -> I i w ->
                 exists w', step (Z.of_nat i) w = Ret tt w' /\ I (S i) w') ->
    exists w', uninitialized_loop step result built n w = Ret tt w' /\
               I (built + n)%nat w'.
Proof.
  induction n as [|n IH]; intros built w HI Hstep.
  - exists w. rewrite Nat.add_0_r. done.
  - destruct (Hstep built w) as (w1 & E1 & I1); [lia|done|].
    destruct (IH (S built) w1 I1) as (w2 & E2 & I2).
    { intros i w' Hi. apply Hstep. lia. }
    exists w2. split.
    + simpl. erewrite bind_ret by (apply unwind_ret; exact E1). exact E2.
    + by replace (built + S n)%nat with (S built + n)%nat by lia.
Qed.

(** [std::uninitialized_copy_n] between two blocks. *)
Lemma uninitialized_copy_n_ok vs w src dst P Q D mid E n :
  blk src <> blk dst -> 0 <= off src -> 0 <= off dst ->
  block_of w src = Some (P ++ (Live <$> vs) ++ Q) -> length P = Z.to_nat (off src) ->
  block_of w dst = Some (D ++ mid ++ E) -> length D = Z.to_nat (off dst) ->
  length mid = length vs -> n = Z.of_nat (length vs) ->
  calm w (length vs) ->
  exists w', uninitialized_copy_n src n dst w = Ret tt w' /\
             writes w w' dst (D ++ (Live <$> vs) ++ E) (length vs) 0.
Proof.
  intros Hne Hos Hod Hsrc HP Hdst HD Hmid -> Hcalm.
  unfold uninitialized_copy_n. rewrite Nat2Z.id.
  destruct (uninitialized_loop_ok
    (fun i w' => (i <= length vs)%nat /\
       writes w w' dst (D ++ (Live <$> take i vs) ++ drop i mid ++ E) i 0)
    (fun i => copy_construct (ptr_add src i) (ptr_add dst i)) dst (length vs) 0%nat w)
    as (w' & E' & _ & W').
  - split; [lia|]. rewrite take_0, drop_0. simpl. by apply writes_refl.
  - intros i w1 Hi (_ & W1).
    assert (is_Some (vs !! i)) as [x Hx] by (apply lookup_lt_is_Some_2; lia).
    assert (is_Some (mid !! i)) as [y Hy] by (apply lookup_lt_is_Some_2; lia).
    assert (Hsrc1 : block_of w1 src = Some (P ++ (Live <$> vs) ++ Q)).
    { rewrite <- Hsrc. eapply writes_other; eauto. }
    unfold copy_construct.
    erewrite bind_ret; cycle 1.
    { eapply (load_ok w1 (ptr_add src (Z.of_nat i))); [exact Hsrc1|simpl; lia|].
      simpl. rewrite lookup_app_r by lia. rewrite lookup_app_l.
      - rewrite list_lookup_fmap.
        replace (Z.to_nat (off src + Z.of_nat i) - length P)%nat with i by lia.
        by rewrite Hx.
      - rewrite length_fmap. lia. }
    destruct (construct_at_ok w1 (ptr_add dst (Z.of_nat i)) _ x (proj1 W1))
      as (w2 & E2 & W2).
    + simpl. lia.
    + simpl. rewrite !length_app, length_fmap, length_take, length_drop. lia.
    + eapply calm_le; [eapply (writes_calm _ _ _ _ _ _ (length vs - i)); [exact W1|]|lia].
      eapply calm_le; [exact Hcalm|lia].
    + exists w2. split; [exact E2|]. split; [lia|].
      eapply writes_counts; [eapply writes_cells; [eapply writes_trans; [exact W1|exact W2]|]|lia|lia].
      simpl. rewrite (drop_S mid y i Hy), (take_S_r vs i x Hx).
      rewrite app_assoc. rewrite <- (app_comm_cons (drop (S i) mid) E y). rewrite insert_middle.
      * rewrite fmap_app. simpl. by rewrite <- !app_assoc.
      * rewrite length_app, length_fmap, length_take. lia.
  - exists w'. split; [exact E'|].
    simpl in W'. rewrite firstn_all in W'.
    rewrite drop_ge in W' by lia. exact W'.
Qed.

End LoopFacts.

Section AlgorithmFacts.
Context {T : Type} `{Element T}.
Implicit Types (w : world T) (p q : ptr) (cs : list (slot T)) (vs : list T).

Lemma writes2_refl w p cp q cq :
  block_of w p = Some cp -> block_of w q = Some cq -> writes2 w w p cp q cq 0 0.
Proof. intros Hp Hq. repeat split; auto with lia. Qed.

Lemma writes2_then_q w w1 w2 p cp q cq cq' c d c' d' :
  blk p <> blk q ->
  writes2 w w1 p cp q cq c d -> writes w1 w2 q cq' c' d' ->
  writes2 w w2 p cp q cq' (c + c') (d + d').
Proof.
  intros Hne (Bp & _ & F1 & C1 & D1) (Bq & F2 & C2 & D2).
  repeat split; [|done| |lia|lia].
  - rewrite F2; done.
  - intros r Hrp Hrq. rewrite F2, F1; done.
Qed.

Lemma writes2_then_p w w1 w2 p cp cp' q cq c d c' d' :
  blk p <> blk q ->
  writes2 w w1 p cp q cq c d -> writes w1 w2 p cp' c' d' ->
  writes2 w w2 p cp' q cq (c + c') (d + d').
Proof.
  intros Hne (_ & Bq & F1 & C1 & D1) (Bp & F2 & C2 & D2).
  repeat split; [done| | |lia|lia].
  - rewrite F2; [done|congruence].
  - intros r Hrp Hrq. rewrite F2, F1; done.
Qed.

Lemma writes2_calm w w' p cp q cq c d n :
  writes2 w w' p cp q cq c d -> calm w (c + n) -> calm w' n.
Proof.
  intros (_ & _ & _ & C & _) Hc k v Hk. apply Hc. lia.
Qed.

(** One [move_construct], whatever the two places. *)
Lemma move_construct_step w src dst x :
  calm w 1 ->
  (exists cs, block_of w src = Some cs /\ 0 <= off src /\
              cs !! Z.to_nat (off src) = Some (Live x)) ->
  forall w1, emplace_at dst x w = Ret tt w1 ->
  forall w2, leave_moved src w1 = Ret tt w2 ->
  move_construct src dst w = Ret tt w2.
Proof.
  intros Hc (cs & Hb & Hoff & Hx) w1 E1 w2 E2.
  unfold move_construct.
  erewrite bind_ret by (eapply load_ok; eauto).
  erewrite bind_ret; [exact E2|].
  destruct nothrow_move_constructible; [exact E1|].
  unfold construct_at. rewrite Hc by lia. exact E1.
Qed.

(** [std::uninitialized_move_n] between two blocks. *)
Lemma uninitialized_move_n_ok vs w src dst P Q D mid E n :
  blk src <> blk dst -> 0 <= off src -> 0 <= off dst ->
  block_of w src = Some (P ++ (Live <$> vs) ++ Q) -> length P = Z.to_nat (off src) ->
  block_of w dst = Some (D ++ mid ++ E) -> length D = Z.to_nat (off dst) ->
  length mid = length vs -> n = Z.of_nat (length vs) ->
  calm w (length vs) ->
  exists w', uninitialized_move_n src n dst w = Ret tt w' /\
             writes2 w w' src (P ++ (Live <$> (moved_from <$> vs)) ++ Q)
                          dst (D ++ (Live <$> vs) ++ E) (length vs) 0.
Proof.
  intros Hne Hos Hod Hsrc HP Hdst HD Hmid -> Hcalm.
  unfold uninitialized_move_n. rewrite Nat2Z.id.
  destruct (uninitialized_loop_ok
    (fun i w' => (i <= length vs)%nat /\
       writes2 w w'
         src (P ++ (Live <$> (moved_from <$> take i vs)) ++ (Live <$> drop i vs) ++ Q)
         dst (D ++ (Live <$> take i vs) ++ drop i mid ++ E) i 0)
    (fun i => move_construct (ptr_add src i) (ptr_add dst i)) dst (length vs) 0%nat w)
    as (w' & E' & _ & W').
  - split; [lia|]. rewrite take_0, !drop_0. simpl. by apply writes2_refl.
  - intros i w1 Hi (_ & W1).
    assert (is_Some (vs !! i)) as [x Hx] by (apply lookup_lt_is_Some_2; lia).
    assert (is_Some (mid !! i)) as [y Hy] by (apply lookup_lt_is_Some_2; lia).
    pose proof W1 as (Bs1 & Bd1 & _).
    assert (Hc1 : calm w1 1).
    { eapply calm_le; [eapply (writes2_calm _ _ _ _ _ _ _ _ (length vs - i)); [exact W1|]|lia].
      eapply calm_le; [exact Hcalm|lia]. }
    assert (Hlk : (P ++ (Live <$> (moved_from <$> take i vs)) ++ (Live <$> drop i vs) ++ Q)
                    !! Z.to_nat (off src + Z.of_nat i) = Some (Live x)).
    { rewrite (drop_S vs x i Hx). simpl. rewrite app_assoc.
      apply list_lookup_middle. rewrite length_app, !length_fmap, length_take. lia. }
    destruct (emplace_at_ok w1 (ptr_add dst (Z.of_nat i)) _ x Bd1) as (w2 & E2 & W2).
    { simpl. lia. }
    { simpl. rewrite !length_app, length_fmap, length_take, length_drop. lia. }
    assert (Bs2 : block_of w2 src =
                  Some (P ++ (Live <$> (moved_from <$> take i vs)) ++ (Live <$> drop i vs) ++ Q)).
    { rewrite <- Bs1. eapply (writes_other w1 w2); [exact W2|done]. }
    destruct (leave_moved_ok w2 (ptr_add src (Z.of_nat i)) _ x Bs2) as (w3 & E3 & W3).
    { simpl. lia. }
    { exact Hlk. }
    exists w3. split.
    { eapply move_construct_step; eauto.
      eexists. split; [exact Bs1|]. split; [simpl; lia|exact Hlk]. }
    split; [lia|].
    pose proof (writes2_then_p _ _ _ _ _ _ _ _ _ _ _ _ Hne
                  (writes2_then_q _ _ _ _ _ _ _ _ _ _ _ _ Hne W1 W2) W3) as W.
    destruct W as (Wp & Wq & WF & WC & WD).
    repeat split; [| |exact WF|lia|lia].
    + rewrite Wp. f_equal. simpl.
      rewrite (drop_S vs x i Hx), (take_S_r vs i x Hx). simpl.
      rewrite app_assoc, insert_middle.
      * rewrite !fmap_app. simpl. by rewrite <- !app_assoc.
      * rewrite length_app, !length_fmap, length_take. lia.
    + rewrite Wq. f_equal. simpl.
      rewrite (drop_S mid y i Hy), (take_S_r vs i x Hx).
      rewrite app_assoc, <- (app_comm_cons (drop (S i) mid) E y), insert_middle.
      * rewrite fmap_app. simpl. by rewrite <- !app_assoc.
      * rewrite length_app, length_fmap, length_take. lia.
  - exists w'. split; [exact E'|].
    simpl in W'. rewrite firstn_all in W'.
    rewrite !drop_ge in W' by lia. simpl in W'. exact W'.
Qed.

(** [std::copy_n] between two blocks: the live objects of the
    destination are overwritten. *)
Lemma copy_loop_ok vs : forall olds w src dst P Q D E,
  blk src <> blk dst -> 0 <= off src -> 0 <= off dst ->
  block_of w src = Some (P ++ (Live <$> vs) ++ Q) -> length P = Z.to_nat (off src) ->
  block_of w dst = Some (D ++ (Live <$> olds) ++ E) -> length D = Z.to_nat (off dst) ->
  length olds = length vs ->
  exists w', copy_loop src dst (length vs) w = Ret tt w' /\
             writes w w' dst (D ++ (Live <$> vs) ++ E) 0 0.
Proof.
  induction vs as [|x vs IH]; intros olds w src dst P Q D E Hne Hos Hod Hsrc HP Hdst HD Hlen.
  - destruct olds; [|done]. exists w. split; [done|]. by apply writes_refl.
  - destruct olds as [|y olds]; [done|]. rewrite !fmap_cons, <- !app_comm_cons in *.
    assert (Hlen' : length olds = length vs) by (simpl in Hlen; lia).
    destruct (store_ok w dst _ y x Hdst Hod) as (w1 & E1 & W1).
    { by apply list_lookup_middle. }
    rewrite insert_middle in W1 by done.
    assert (Hsrc1 : block_of w1 (ptr_add src 1) = Some ((P ++ [Live x]) ++ (Live <$> vs) ++ Q)).
    { rewrite snoc_app. rewrite <- Hsrc. apply (writes_other w w1 _ _ _ _ src W1). done. }
    assert (Hdst1 : block_of w1 (ptr_add dst 1) = Some ((D ++ [Live x]) ++ (Live <$> olds) ++ E)).
    { rewrite snoc_app. apply W1. }
    destruct (IH olds w1 (ptr_add src 1) (ptr_add dst 1) (P ++ [Live x]) Q (D ++ [Live x]) E)
      as (w2 & E2 & W2); [done|simpl; lia|simpl; lia|exact Hsrc1| |exact Hdst1| |done|].
    { rewrite length_app. simpl. lia. }
    { rewrite length_app. simpl. lia. }
    exists w2. split.
    + simpl. unfold copy_assign. erewrite bind_ret; cycle 1.
      { erewrite bind_ret; [exact E1|]. eapply load_ok; [exact Hsrc|done|].
        by apply list_lookup_middle. }
      exact E2.
    + eapply writes_counts; [eapply writes_cells; [eapply (writes_trans w w1 w2); [exact W1|exact W2]|]|..];
        [|done|done].
      by rewrite snoc_app.
Qed.

Lemma copy_n_ok vs olds w src dst P Q D E n :
  blk src <> blk dst -> 0 <= off src -> 0 <= off dst ->
  block_of w src = Some (P ++ (Live <$> vs) ++ Q) -> length P = Z.to_nat (off src) ->
  block_of w dst = Some (D ++ (Live <$> olds) ++ E) -> length D = Z.to_nat (off dst) ->
  length olds = length vs -> n = Z.of_nat (length vs) ->
  exists w', copy_n src n dst w = Ret tt w' /\
             writes w w' dst (D ++ (Live <$> vs) ++ E) 0 0.
Proof.
  intros. subst n. unfold copy_n. rewrite Nat2Z.id. by eapply copy_loop_ok.
Qed.

(** One [move_assign] inside a block. *)
Lemma move_assign_ok w src dst cs x y :
  block_of w src = Some cs -> blk dst = blk src ->
  0 <= off src -> 0 <= off dst -> off src <> off dst ->
  cs !! Z.to_nat (off src) = Some (Live x) ->
  cs !! Z.to_nat (off dst) = Some (Live y) ->
  exists w', move_assign src dst w = Ret tt w' /\
    writes w w' src
      (<[Z.to_nat (off src) := Live (moved_from x)]> (<[Z.to_nat (off dst) := Live x]> cs)) 0 0.
Proof.
  intros Hb Hblk Hos Hod Hne Hx Hy.
  assert (Hbd : block_of w dst = Some cs) by (unfold block_of in *; by rewrite Hblk).
  destruct (store_ok w dst cs y x Hbd Hod Hy) as (w1 & E1 & W1).
  assert (Hb1 : block_of w1 src = Some (<[Z.to_nat (off dst) := Live x]> cs)).
  { destruct W1 as (B & _). unfold block_of in *. by rewrite <- Hblk. }
  destruct (leave_moved_ok w1 src _ x Hb1 Hos) as (w2 & E2 & W2).
  { rewrite list_lookup_insert_ne by lia. done. }
  exists w2. split.
  - unfold move_assign. erewrite bind_ret by (eapply load_ok; eauto).
    erewrite bind_ret by exact E1. exact E2.
  - destruct W1 as (_ & F1 & C1 & D1). destruct W2 as (B2 & F2 & C2 & D2).
    repeat split; [done| |lia|lia].
    intros q Hq. rewrite F2 by done. apply F1. congruence.
Qed.

(** [std::move_backward] inside a block: the objects [vs] that start at
    [first] move up by one slot, onto a live object. *)
Lemma move_backward_loop_ok vs : forall w last d_last P z Q,
  block_of w last = Some (P ++ (Live <$> vs) ++ Live z :: Q) ->
  blk d_last = blk last -> 0 <= off last ->
  off d_last = off last + 1 ->
  Z.to_nat (off last) = (length P + length vs)%nat ->
  exists w' g, move_backward_loop last d_last (length vs) w = Ret tt w' /\
               writes w w' last (P ++ Live g :: (Live <$> vs) ++ Q) 0 0.
Proof.
  induction vs as [|x vs IH] using rev_ind; intros w last d_last P z Q Hb Hblk Hol Hd Hlen.
  - exists w, z. split; [done|]. by apply writes_refl.
  - rewrite length_app in *. simpl in *.
    rewrite fmap_app in Hb. simpl in Hb. rewrite <- app_assoc in Hb. simpl in Hb.
    destruct (move_assign_ok w (ptr_add last (-1)) (ptr_add d_last (-1)) _ x z Hb)
      as (w1 & E1 & W1); simpl; try lia; try done.
    { rewrite app_assoc. apply list_lookup_middle. rewrite length_app, length_fmap. lia. }
    { rewrite app_assoc.
      replace (Z.to_nat (off d_last + -1)) with (S (length (P ++ (Live <$> vs)))).
      - rewrite lookup_app_r by lia.
        replace (S (length (P ++ (Live <$> vs))) - length (P ++ (Live <$> vs)))%nat with 1%nat by lia.
        done.
      - rewrite length_app, length_fmap. lia. }
    simpl in W1.
    assert (Hcells :
      <[Z.to_nat (off last + -1) := Live (moved_from x)]>
        (<[Z.to_nat (off d_last + -1) := Live x]> (P ++ (Live <$> vs) ++ Live x :: Live z :: Q))
      = P ++ (Live <$> vs) ++ Live (moved_from x) :: Live x :: Q).
    { rewrite !app_assoc.
      replace (Z.to_nat (off d_last + -1)) with (length (P ++ (Live <$> vs)) + 1)%nat
        by (rewrite length_app, length_fmap; lia).
      rewrite insert_app_r. simpl.
      apply insert_middle. rewrite length_app, length_fmap. lia. }
    rewrite Hcells in W1.
    destruct (IH w1 (ptr_add last (-1)) (ptr_add d_last (-1)) P (moved_from x) (Live x :: Q))
      as (w2 & g & E2 & W2); simpl; try lia; try done.
    { apply W1. }
    exists w2, g. split.
    + replace (length vs + 1)%nat with (S (length vs)) by lia. simpl.
      erewrite bind_ret by exact E1. exact E2.
    + eapply writes_counts; [eapply writes_cells; [eapply (writes_trans w w1 w2); [exact W1|exact W2]|]|..];
        [|done|done].
      rewrite fmap_app. simpl. by rewrite <- app_assoc.
Qed.

End AlgorithmFacts.

Section AllocFacts.
Context {T : Type} `{Element T}.
Implicit Types (w : world T) (p q : ptr) (cs : list (slot T)) (vs : list T).

Lemma representable_le m n : m <= n -> representable n -> representable m.
Proof.
  unfold representable. intros Hle Hn.
  pose proof (Pos2Z.is_pos size_of). nia.
Qed.

Lemma representable_max n : representable n -> n <= SIZE_MAX.
Proof.
  unfold representable, SIZE_MAX. intros Hn.
  pose proof (Pos2Z.is_pos size_of).
  destruct (Z.le_gt_cases n 0); [lia|nia].
Qed.

Lemma representable_double n :
  representable (Z.max 1 (2 * n)) -> n < 2 ^ 63.
Proof.
  intros Hn. apply representable_max in Hn. unfold SIZE_MAX in Hn. lia.
Qed.

Lemma representable_grow n :
  representable (Z.max 1 (2 * Z.of_nat n)) ->
  representable (Z.of_nat (Nat.max 1 (2 * n))).
Proof.
  intros Hn.
  by replace (Z.of_nat (Nat.max 1 (2 * n))) with (Z.max 1 (2 * Z.of_nat n)) by lia.
Qed.

Lemma room_small n : 0 <= n -> representable n -> room n = n.
Proof.
  unfold representable, room. intros H0 Hn.
  pose proof (Pos2Z.is_pos size_of).
  rewrite size_mul_small by nia.
  apply Z.div_mul. lia.
Qed.


(** [RawMemory(n)] for [n != 0]: [operator new] throws and nothing has
    changed, or the object owns a fresh block of [room n] raw slots. *)
Lemma RawMemory_new_cases w n :
  0 < n ->
  (new_throws (length (heap w)) (size_mul n (Z.pos size_of)) = true /\
   RawMemory_new n w = Exn w) \/
  (new_throws (length (heap w)) (size_mul n (Z.pos size_of)) = false /\
   exists m w', RawMemory_new n w = Ret m w' /\
    capacity_ m = n /\ off (buffer_ m) = 0 /\
    writes w w' (buffer_ m) (replicate (Z.to_nat (room n)) Raw) 0 0 /\
    (forall q, is_Some (block_of w q) -> blk q <> blk (buffer_ m))).
Proof.
  intros Hn. unfold RawMemory_new, Allocate, operator_new, bind, ret.
  destruct (Z.eqb_spec n 0) as [->|_]; [lia|].
  destruct (new_throws _ _); [left; done|right].
  split; [done|].
  eexists _, _. split; [done|]. simpl.
  split; [done|]. split; [done|]. split; [split; [|split; [|simpl; lia]]|].
  - unfold block_of, block_at. simpl.
    by rewrite list_lookup_middle.
  - intros q Hq. unfold block_of, block_at. simpl in *.
    destruct (blk q) as [b|]; [|done].
    assert (b <> length (heap w)) by congruence.
    destruct (decide (b < length (heap w))%nat).
    + by rewrite lookup_app_l.
    + rewrite !lookup_ge_None_2; [done|lia|].
      rewrite length_app. simpl. lia.
  - intros q [cs Hq] Heq. unfold block_of, block_at in Hq. simpl in Heq.
    rewrite Heq in Hq.
    rewrite lookup_ge_None_2 in Hq by lia. done.
Qed.

Lemma RawMemory_new_block w n m w' :
  0 < n -> RawMemory_new n w = Ret m w' -> blk (buffer_ m) <> None.
Proof.
  intros Hn E.
  destruct (RawMemory_new_cases w n Hn) as [[_ E']|(_ & m' & w1 & E' & _ & _ & _ & Fresh)].
  - congruence.
  - rewrite E' in E. injection E as <- <-.
    apply not_eq_sym. apply (Fresh nullptr). by eexists.
Qed.

(** When [n * sizeof(T)] does not wrap around, the block has [n] slots. *)
Lemma RawMemory_new_or_throw w n :
  0 < n -> representable n ->
  (new_throws (length (heap w)) (size_mul n (Z.pos size_of)) = true /\
   RawMemory_new n w = Exn w) \/
  (new_throws (length (heap w)) (size_mul n (Z.pos size_of)) = false /\
   exists m w', RawMemory_new n w = Ret m w' /\
    capacity_ m = n /\ off (buffer_ m) = 0 /\
    writes w w' (buffer_ m) (replicate (Z.to_nat n) Raw) 0 0 /\
    (forall q, is_Some (block_of w q) -> blk q <> blk (buffer_ m))).
Proof.
  intros Hn Hrep.
  destruct (RawMemory_new_cases w n Hn) as [E|[Hf E]]; [by left|right].
  split; [done|].
  rewrite room_small in E; [exact E|lia|done].
Qed.

Lemma RawMemory_new_ok w n :
  0 < n -> representable n -> roomy ->
  exists m w', RawMemory_new n w = Ret m w' /\
    capacity_ m = n /\ off (buffer_ m) = 0 /\
    writes w w' (buffer_ m) (replicate (Z.to_nat n) Raw) 0 0 /\
    (forall q, is_Some (block_of w q) -> blk q <> blk (buffer_ m)).
Proof.
  intros Hn Hrep Hroomy.
  destruct (RawMemory_new_cases w n Hn) as [[E _]|[_ E]].
  - by rewrite Hroomy in E.
  - rewrite room_small in E; [exact E|lia|done].
Qed.

(** [RawMemory(n)] throws when [operator new] does. *)
Lemma RawMemory_new_throws w n :
  0 < n -> new_throws (length (heap w)) (size_mul n (Z.pos size_of)) = true ->
  RawMemory_new n w = Exn w.
Proof.
  intros Hn Ht.
  destruct (RawMemory_new_cases w n Hn) as [[_ E]|[E _]]; [done|congruence].
Qed.

Lemma RawMemory_destroy_ok w m cs :
  block_of w (buffer_ m) = Some cs -> off (buffer_ m) = 0 ->
  exists w', RawMemory_destroy m w = Ret tt w' /\
    (forall q, blk q <> blk (buffer_ m) -> block_of w' q = block_of w q) /\
    constructed w' = constructed w /\ destroyed w' = destroyed w.
Proof.
  intros Hb Hoff. unfold RawMemory_destroy, Deallocate.
  unfold block_of in *. destruct (blk (buffer_ m)) as [b|].
  - rewrite Hb, Hoff. simpl. eexists. split; [done|]. simpl.
    repeat split. intros q Hq. destruct (blk q) as [b'|]; [|done].
    unfold block_at. simpl. rewrite list_lookup_insert_ne by congruence. done.
  - rewrite Hoff. simpl. eexists. split; [done|]. done.
Qed.

End AllocFacts.

#[global] Arguments construct_at : simpl never.
#[global] Arguments emplace_at : simpl never.
#[global] Arguments load : simpl never.
#[global] Arguments store : simpl never.
#[global] Arguments destroy_at : simpl never.
#[global] Arguments destroy_n : simpl never.
#[global] Arguments uninitialized_copy_n : simpl never.
#[global] Arguments uninitialized_move_n : simpl never.
#[global] Arguments uninitialized_value_construct_n : simpl never.
#[global] Arguments copy_n : simpl never.
#[global] Arguments move_backward : simpl never.
#[global] Arguments move_assign : simpl never.
#[global] Arguments RawMemory_new : simpl never.
#[global] Arguments RawMemory_destroy : simpl never.
#[global] Arguments construct_local : simpl never.
#[global] Arguments destroy_local : simpl never.
#[global] Arguments Vector_copy : simpl never.
#[global] Arguments Vector_destroy : simpl never.
#[global] Arguments size_add : simpl never.
#[global] Arguments size_sub : simpl never.
#[global] Arguments size_mul : simpl never.
#[global] Arguments wrap : simpl never.
#[global] Arguments ptr_diff : simpl never.
#[global] Arguments ptr_eqb : simpl never.
#[global] Arguments ptr_leb : simpl never.
#[global] Arguments ptr_ltb : simpl never.

Section Methods.
Context {T : Type} `{Element T}.
Implicit Types (w : world T) (p q : ptr) (cs : list (slot T)) (vs l : list T) (v : Vector).

Lemma holds_intro w po c s l cap :
  s = Z.of_nat (length l) -> c = Z.of_nat cap -> (length l <= cap)%nat ->
  Z.of_nat cap <= SIZE_MAX -> off po = 0 ->
  block_of w po = Some ((Live <$> l) ++ replicate (cap - length l) Raw) ->
  representable (Z.of_nat cap) ->
  holds w {| data_ := {| buffer_ := po; capacity_ := c |}; size_ := s |} l cap.
Proof. intros. by repeat split. Qed.

Lemma cells_snoc l (x : T) cap :
  (length l < cap)%nat ->
  <[length l := Live x]> ((Live <$> l) ++ replicate (cap - length l) Raw) =
  (Live <$> (l ++ [x])) ++ replicate (cap - length (l ++ [x])) Raw.
Proof.
  intros Hlt. rewrite length_app. simpl.
  replace (cap - length l)%nat with (S (cap - (length l + 1))) by lia.
  simpl. rewrite insert_middle by (by rewrite length_fmap).
  rewrite fmap_app. simpl. by rewrite <- app_assoc.
Qed.

Lemma V1_EmplaceBack_inplace v w l cap x :
  holds w v l cap -> (length l < cap)%nat -> calm w 1 ->
  exists f,
    call (V1.EmplaceBack x) v w =
      Ret (ptr_add (buffer_ (data_ v)) (Z.of_nat (length l))) f /\
    data_ (this f) = data_ v /\
    holds (mem f) (this f) (l ++ [x]) cap /\
    constructed (mem f) = S (constructed w) /\ destroyed (mem f) = destroyed w.
Proof.
  intros (Hs & Hc & Hle & Hmax & Hoff & Hb & Hrep) Hlt Hcalm.
  destruct v as [[po c] s]. simpl in *. subst s c.
  unfold call, V1.EmplaceBack.
  cbn. zb. cbn. step_plus.
  destruct (construct_at_ok w (ptr_add po (Z.of_nat (length l))) _ x Hb) as (w1 & E1 & W1).
  { simpl. lia. }
  { simpl. rewrite length_app, length_fmap, length_replicate. lia. }
  { done. }
  step_mem E1.
  rewrite size_add_small by lia.
  rewrite size_sub_small by lia.
  rewrite RawMemory_plus_ok by (cbn; lia). cbn.
  replace (Z.of_nat (length l) + 1 - 1) with (Z.of_nat (length l)) by lia.
  eexists. split; [done|]. cbn.
  destruct W1 as (B1 & F1 & C1 & D1).
  split; [done|]. split; [|lia].
  apply holds_intro; try done; try lia.
  - rewrite length_app. simpl. lia.
  - rewrite length_app. simpl. lia.
  - etransitivity; [exact B1|]. f_equal. simpl. rewrite Hoff.
    replace (Z.to_nat (0 + Z.of_nat (length l))) with (length l) by lia.
    by apply cells_snoc.
Qed.

Lemma writes_writes2 w w' src cs dst cd c d :
  writes w w' dst cd c d -> block_of w src = Some cs -> blk src <> blk dst ->
  writes2 w w' src cs dst cd c d.
Proof.
  intros (B & F & C & D) Hs Hne. repeat split; try done.
  - rewrite F; done.
  - intros r _ Hr. by apply F.
Qed.

(** The transfer of a range into another block, by whichever strategy
    the element type selects. *)
Lemma transfer_ok vs w src dst P Q D mid E n :
  blk src <> blk dst -> 0 <= off src -> 0 <= off dst ->
  block_of w src = Some (P ++ (Live <$> vs) ++ Q) -> length P = Z.to_nat (off src) ->
  block_of w dst = Some (D ++ mid ++ E) -> length D = Z.to_nat (off dst) ->
  length mid = length vs -> n = Z.of_nat (length vs) ->
  calm w (length vs) ->
  exists w' vs',
    (if transfer_safe
     then uninitialized_move_n src n dst
     else uninitialized_copy_n src n dst) w = Ret tt w' /\
    length vs' = length vs /\
    writes2 w w' src (P ++ (Live <$> vs') ++ Q)
                 dst (D ++ (Live <$> vs) ++ E) (length vs) 0.
Proof.
  intros Hne Hos Hod Hsrc HP Hdst HD Hmid Hn Hcalm.
  destruct transfer_safe.
  - destruct (uninitialized_move_n_ok vs w src dst P Q D mid E n)
      as (w' & E' & W'); try done.
    exists w', (moved_from <$> vs). split; [done|].
    split; [by rewrite length_fmap|done].
  - destruct (uninitialized_copy_n_ok vs w src dst P Q D mid E n)
      as (w' & E' & W'); try done.
    exists w', vs. split; [done|]. split; [done|].
    by apply writes_writes2.
Qed.

(** The same, telling what the transfer leaves in the source. *)
Lemma transfer_exact vs w src dst P Q D mid E n :
  blk src <> blk dst -> 0 <= off src -> 0 <= off dst ->
  block_of w src = Some (P ++ (Live <$> vs) ++ Q) -> length P = Z.to_nat (off src) ->
  block_of w dst = Some (D ++ mid ++ E) -> length D = Z.to_nat (off dst) ->
  length mid = length vs -> n = Z.of_nat (length vs) ->
  calm w (length vs) ->
  exists w',
    (if transfer_safe
     then uninitialized_move_n src n dst
     else uninitialized_copy_n src n dst) w = Ret tt w' /\
    writes2 w w' src (P ++ (Live <$> (if transfer_safe then moved_from <$> vs else vs)) ++ Q)
                 dst (D ++ (Live <$> vs) ++ E) (length vs) 0.
Proof.
  intros Hne Hos Hod Hsrc HP Hdst HD Hmid Hn Hcalm.
  destruct transfer_safe.
  - destruct (uninitialized_move_n_ok vs w src dst P Q D mid E n)
      as (w' & E' & W'); try done.
    by exists w'.
  - destruct (uninitialized_copy_n_ok vs w src dst P Q D mid E n)
      as (w' & E' & W'); try done.
    exists w'. split; [done|]. by apply writes_writes2.
Qed.

(** The loop of the [uninitialized] algorithms, in two parts. *)
Lemma uninitialized_loop_app step result a b :
  forall built w,
    uninitialized_loop step result built (a + b) w =
    (uninitialized_loop step result built a;;;
     uninitialized_loop step result (built + a) b) w.
Proof.
  induction a as [|a IH]; intros built w.
  - simpl. by rewrite Nat.add_0_r.
  - simpl. unfold bind.
    destruct (unwind _ _ w) as [[] w1| |]; [|done|done].
    rewrite IH. by replace (built + S a)%nat with (S built + a)%nat by lia.
Qed.

(** The transfer of more elements than the destination has slots for
    runs out of the destination. *)
Lemma transfer_overflow l w src dst Q m :
  blk src <> blk dst -> off src = 0 -> off dst = 0 ->
  block_of w src = Some ((Live <$> l) ++ Q) ->
  block_of w dst = Some (replicate m Raw) -> (m < length l)%nat ->
  calm w (length l) ->
  (if transfer_safe
   then uninitialized_move_n src (Z.of_nat (length l)) dst
   else uninitialized_copy_n src (Z.of_nat (length l)) dst) w = Undef.
Proof.
  intros Hne Hos Hod Hsrc Hdst Hm Hcalm.
  assert (is_Some (l !! m)) as [y Hy] by (by apply lookup_lt_is_Some_2).
  assert (Hlt : length (take m l) = m) by (rewrite length_take; lia).
  destruct (transfer_ok (take m l) w src dst [] ((Live <$> drop m l) ++ Q)
              [] (replicate m Raw) [] (Z.of_nat m))
    as (w1 & l1 & E1 & Hl1 & W1); simpl; try done; try lia.
  { etransitivity; [exact Hsrc|]. f_equal.
    rewrite app_assoc, <- fmap_app, take_drop. done. }
  { etransitivity; [exact Hdst|]. by rewrite app_nil_r. }
  { rewrite length_replicate. lia. }
  { eapply calm_le; [exact Hcalm|lia]. }
  simpl in W1. rewrite app_nil_r, Hlt in W1.
  destruct W1 as (Bs1 & Bd1 & _ & C1 & _).
  assert (Hload : load (ptr_add src (Z.of_nat m)) w1 = Ret y w1).
  { eapply load_ok; [exact Bs1|simpl; lia|]. simpl. rewrite Hos.
    replace (Z.to_nat (0 + Z.of_nat m)) with (length (Live <$> l1)) by
      (rewrite length_fmap; lia).
    rewrite lookup_app_r, Nat.sub_diag by lia.
    rewrite lookup_app_l by (rewrite length_fmap, length_drop; lia).
    rewrite list_lookup_fmap, lookup_drop, Nat.add_0_r, Hy. done. }
  assert (Hc1 : calm w1 1).
  { intros k z Hk. apply Hcalm. lia. }
  assert (Hout : forall z : T, emplace_at (ptr_add dst (Z.of_nat m)) z w1 = Undef).
  { intros z. eapply emplace_at_outside; [exact Bd1|simpl; lia|].
    simpl. rewrite length_fmap, Hlt. lia. }
  assert (Hout' : forall z : T, construct_at (ptr_add dst (Z.of_nat m)) z w1 = Undef).
  { intros z. eapply construct_at_outside; [exact Bd1|simpl; lia| |done].
    simpl. rewrite length_fmap, Hlt. lia. }
  destruct (length l - m)%nat as [|r] eqn:Hr; [lia|].
  revert E1. destruct transfer_safe; intros E1.
  - unfold uninitialized_move_n in *. rewrite Nat2Z.id in *.
    replace (length l) with (m + S r)%nat by lia.
    rewrite uninitialized_loop_app. erewrite bind_ret by exact E1.
    simpl. unfold bind at 1. unfold unwind.
    unfold move_construct. erewrite bind_ret by exact Hload.
    unfold bind at 1.
    destruct nothrow_move_constructible; [by rewrite Hout|by rewrite Hout'].
  - unfold uninitialized_copy_n in *. rewrite Nat2Z.id in *.
    replace (length l) with (m + S r)%nat by lia.
    rewrite uninitialized_loop_app. erewrite bind_ret by exact E1.
    simpl. unfold bind at 1. unfold unwind.
    unfold copy_construct. erewrite bind_ret by exact Hload.
    by rewrite Hout'.
Qed.

Lemma new_capacity_eq n :
  Z.of_nat n < 2 ^ 63 ->
  (if Z.of_nat n =? 0 then 1 else size_mul (Z.of_nat n) 2) = Z.of_nat (Nat.max 1 (2 * n)).
Proof.
  intros Hn. destruct (Z.eqb_spec (Z.of_nat n) 0).
  - lia.
  - rewrite size_mul_small by (unfold SIZE_MAX; lia). lia.
Qed.

Lemma insert_replicate_raw (x : T) n N :
  (n < N)%nat ->
  <[n := Live x]> (replicate N Raw) = replicate n Raw ++ Live x :: replicate (N - S n) Raw.
Proof.
  intros Hlt. replace N with (n + S (N - S n))%nat at 1 by lia.
  rewrite replicate_add. simpl.
  apply insert_middle. by rewrite length_replicate.
Qed.

Lemma V1_EmplaceBack_realloc v w l cap x :
  holds w v l cap -> (cap <= length l)%nat ->
  representable (Z.max 1 (2 * Z.of_nat (length l))) -> roomy ->
  calm w (S (length l)) ->
  exists f,
    call (V1.EmplaceBack x) v w =
      Ret (ptr_add (buffer_ (data_ (this f))) (Z.of_nat (length l))) f /\
    holds (mem f) (this f) (l ++ [x]) (Nat.max 1 (2 * length l)) /\
    constructed (mem f) = (constructed w + S (length l))%nat /\
    destroyed (mem f) = (destroyed w + length l)%nat.
Proof.
  intros (Hs & Hc & Hle & Hmax & Hoff & Hb & Hrep) Hfull Hgrow Hroomy Hcalm.
  pose proof (representable_double _ Hgrow) as Hsmall.
  apply representable_grow in Hgrow.
  destruct v as [[po c] s]. simpl in *. subst s c.
  assert (cap = length l) by lia. subst cap.
  set (N := Nat.max 1 (2 * length l)) in *.
  unfold call, V1.EmplaceBack.
  cbn. zb. cbn. rewrite new_capacity_eq by done. fold N.
  destruct (RawMemory_new_ok w (Z.of_nat N)) as (nd & w1 & E1 & Hcn & Hoffn & W1 & Fresh);
    [lia|done|done|].
  destruct nd as [pn cn]. simpl in *. subst cn.
  assert (Hne : blk po <> blk pn) by (apply Fresh; by eexists).
  step_mem E1.
  rewrite Nat2Z.id in W1.
  (* the new element *)
  destruct (construct_at_ok w1 (ptr_add pn (Z.of_nat (length l))) _ x (proj1 W1))
    as (w2 & E2 & W2).
  { simpl. lia. }
  { simpl. rewrite length_replicate. lia. }
  { eapply calm_le; [eapply writes_calm; [exact W1|exact Hcalm]|lia]. }
  simpl in W2. rewrite Hoffn in W2.
  replace (Z.to_nat (0 + Z.of_nat (length l))) with (length l) in W2 by lia.
  rewrite insert_replicate_raw in W2 by lia.
  (* the transfer *)
  destruct (transfer_ok l w2
              po pn [] (replicate (length l - length l) Raw) [] (replicate (length l) Raw)
              (Live x :: replicate (N - S (length l)) Raw) (Z.of_nat (length l)))
    as (w3 & l' & E3 & Hl' & W3); simpl; try done; try lia.
  { rewrite (writes_other w1 w2 _ _ _ _ po W2) by done.
    rewrite (writes_other w w1 _ _ _ _ po W1) by done. exact Hb. }
  { apply W2. }
  { by rewrite length_replicate. }
  { eapply calm_le; [eapply (writes_calm w1 w2); [exact W2|]|].
    - eapply calm_le; [eapply (writes_calm w w1); [exact W1|exact Hcalm]|]. simpl. reflexivity.
    - lia. }
  simpl in W3.
  destruct W3 as (Bo3 & Bn3 & F3 & C3 & D3).
  (* the old elements *)
  destruct (destroy_n_ok l' w3 po [] (replicate (length l - length l) Raw) (Z.of_nat (length l)))
    as (w4 & E4 & W4); simpl; try done; try lia.
  destruct W4 as (Bo4 & F4 & C4 & D4).
  (* the old buffer *)
  destruct (RawMemory_destroy_ok w4 {| buffer_ := po; capacity_ := Z.of_nat (length l) |} _ Bo4)
    as (w5 & E5 & F5 & C5 & D5); [done|].
  simpl in F5.
  exists {| this := {| data_ := {| buffer_ := pn; capacity_ := Z.of_nat N |};
                       size_ := Z.of_nat (length l) + 1 |};
            mem := w5 |}.
  split.
  - erewrite bind_ret; cycle 1.
    { apply unwind_ret. step_plus. step_mem E2.
      step_if E3. reflexivity. }
    cbn. step_mem E4.
    rewrite size_add_small by (unfold SIZE_MAX; lia).
    rewrite size_sub_small by (unfold SIZE_MAX; lia).
    step_plus. step_mem E5.
    replace (Z.of_nat (length l) + 1 - 1) with (Z.of_nat (length l)) by lia.
    reflexivity.
  - cbn. destruct W1 as (_ & _ & C1 & D1). destruct W2 as (_ & _ & C2 & D2).
    split; [|lia].
    apply holds_intro; try done.
    + rewrite length_app. simpl. lia.
    + rewrite length_app. simpl. lia.
    + unfold SIZE_MAX. lia.
    + rewrite F5, F4 by done. etransitivity; [exact Bn3|]. f_equal.
      rewrite fmap_app, <- app_assoc. simpl. do 3 f_equal.
      rewrite length_app. simpl. lia.
Qed.
End Methods.

Section Traces.
Context {T : Type} `{Element T}.
Implicit Types (w : world T) (p q : ptr) (cs : list (slot T)) (vs l : list T) (v : Vector).

(** What the reallocating insertion does to the store, step by step. *)
Lemma grow_trace w po c l cap x i :
  block_of w po = Some ((Live <$> l) ++ replicate (cap - length l) Raw) ->
  off po = 0 -> (i <= length l)%nat ->
  representable (Z.max 1 (2 * Z.of_nat (length l))) -> roomy ->
  calm w (S (length l)) ->
  exists pn w1 w2 w3 w4 w5 w6,
    RawMemory_new (Z.of_nat (Nat.max 1 (2 * length l))) w =
      Ret {| buffer_ := pn; capacity_ := Z.of_nat (Nat.max 1 (2 * length l)) |} w1 /\
    construct_at (ptr_add pn (Z.of_nat i)) x w1 = Ret tt w2 /\
    (if transfer_safe
     then uninitialized_move_n po (Z.of_nat i) pn
     else uninitialized_copy_n po (Z.of_nat i) pn) w2 = Ret tt w3 /\
    (if transfer_safe
     then uninitialized_move_n (ptr_add po (Z.of_nat i)) (Z.of_nat (length l - i))
                               (ptr_add pn (Z.of_nat i + 1))
     else uninitialized_copy_n (ptr_add po (Z.of_nat i)) (Z.of_nat (length l - i))
                               (ptr_add pn (Z.of_nat i + 1))) w3 = Ret tt w4 /\
    destroy_n po (Z.of_nat (length l)) w4 = Ret tt w5 /\
    RawMemory_destroy {| buffer_ := po; capacity_ := c |} w5 = Ret tt w6 /\
    off pn = 0 /\
    block_of w6 pn =
      Some ((Live <$> (take i l ++ x :: drop i l)) ++
            replicate (Nat.max 1 (2 * length l) - S (length l)) Raw) /\
    constructed w6 = (constructed w + S (length l))%nat /\
    destroyed w6 = (destroyed w + length l)%nat.
Proof.
  intros Hb Hoff Hi Hgrow Hroomy Hcalm.
  apply representable_grow in Hgrow.
  set (N := Nat.max 1 (2 * length l)) in *.
  set (n := length l) in *.
  assert (HN : (n < N)%nat) by lia.
  destruct (RawMemory_new_ok w (Z.of_nat N)) as (nd & w1 & E1 & Hcn & Hoffn & W1 & Fresh);
    [lia|done|done|].
  destruct nd as [pn cn]. simpl in *. subst cn.
  assert (Hne : blk po <> blk pn) by (apply Fresh; by eexists).
  rewrite Nat2Z.id in W1.
  (* the new element *)
  destruct (construct_at_ok w1 (ptr_add pn (Z.of_nat i)) _ x (proj1 W1))
    as (w2 & E2 & W2).
  { simpl. lia. }
  { simpl. rewrite length_replicate. lia. }
  { eapply calm_le; [eapply writes_calm; [exact W1|exact Hcalm]|lia]. }
  simpl in W2. rewrite Hoffn in W2.
  replace (Z.to_nat (0 + Z.of_nat i)) with i in W2 by lia.
  rewrite insert_replicate_raw in W2 by lia.
  assert (Hcalm2 : calm w2 n).
  { eapply calm_le; [eapply (writes_calm w1 w2); [exact W2|]|].
    - eapply calm_le; [eapply (writes_calm w w1); [exact W1|exact Hcalm]|]. simpl. reflexivity.
    - lia. }
  assert (Hb2 : block_of w2 po = Some ((Live <$> l) ++ replicate (cap - n) Raw)).
  { rewrite (writes_other w1 w2 _ _ _ _ po W2) by done.
    rewrite (writes_other w w1 _ _ _ _ po W1) by done. exact Hb. }
  rewrite <- (take_drop i l), fmap_app, <- app_assoc in Hb2.
  assert (Hlt : length (take i l) = i) by (rewrite length_take; lia).
  assert (Hld : length (drop i l) = (n - i)%nat) by (by rewrite length_drop).
  (* the prefix *)
  destruct (transfer_ok (take i l) w2 po pn [] ((Live <$> drop i l) ++ replicate (cap - n) Raw)
              [] (replicate i Raw) (Live x :: replicate (N - S i) Raw) (Z.of_nat i))
    as (w3 & l1 & E3 & Hl1 & W3); simpl; try done; try lia.
  { apply W2. }
  { rewrite length_replicate. lia. }
  { eapply calm_le; [exact Hcalm2|lia]. }
  simpl in W3. destruct W3 as (Bo3 & Bn3 & F3 & C3 & D3).
  (* the suffix *)
  destruct (transfer_ok (drop i l) w3 (ptr_add po (Z.of_nat i)) (ptr_add pn (Z.of_nat i + 1))
              (Live <$> l1) (replicate (cap - n) Raw)
              ((Live <$> take i l) ++ [Live x]) (replicate (n - i) Raw)
              (replicate (N - S n) Raw) (Z.of_nat (n - i)))
    as (w4 & l2 & E4 & Hl2 & W4); simpl; try done; try lia.
  { rewrite length_fmap. lia. }
  { etransitivity; [exact Bn3|]. f_equal. rewrite <- app_assoc. simpl. do 2 f_equal.
    rewrite <- replicate_add. f_equal. lia. }
  { rewrite length_app, length_fmap. simpl. lia. }
  { rewrite length_replicate. lia. }
  { intros k v Hk. apply Hcalm2. lia. }
  simpl in W4. destruct W4 as (Bo4 & Bn4 & F4 & C4 & D4).
  (* the old elements *)
  destruct (destroy_n_ok (l1 ++ l2) w4 po [] (replicate (cap - n) Raw) (Z.of_nat n))
    as (w5 & E5 & W5); simpl; try done; try lia.
  { etransitivity; [exact Bo4|]. by rewrite fmap_app, <- app_assoc. }
  { rewrite length_app. lia. }
  destruct W5 as (Bo5 & F5 & C5 & D5).
  (* the old buffer *)
  destruct (RawMemory_destroy_ok w5 {| buffer_ := po; capacity_ := c |} _ Bo5)
    as (w6 & E6 & F6 & C6 & D6); [done|].
  simpl in F6.
  exists pn, w1, w2, w3, w4, w5, w6.
  destruct W1 as (_ & _ & C1 & D1). destruct W2 as (_ & _ & C2 & D2).
  rewrite length_app in D5.
  repeat split; try done; try lia.
  rewrite F6, F5 by done. etransitivity; [exact Bn4|]. f_equal.
  rewrite fmap_app, <- !app_assoc. simpl. done.
Qed.

Lemma insert2 {A} (P Q : list A) a b c d i j :
  i = S (length P) -> j = length P ->
  <[j := c]> (<[i := d]> (P ++ a :: b :: Q)) = P ++ c :: d :: Q.
Proof.
  intros -> ->. replace (S (length P)) with (length P + 1)%nat by lia.
  rewrite insert_app_r. simpl. by apply insert_middle.
Qed.

Lemma same_block_refl p q : blk p = blk q -> same_block p q = true.
Proof.
  unfold same_block. intros ->. destruct (blk q); [apply Nat.eqb_refl|done].
Qed.

(** One [move_construct] inside a block. *)
Lemma move_construct_within w src dst cs z :
  block_of w src = Some cs -> blk dst = blk src ->
  0 <= off src -> 0 <= off dst -> off src <> off dst ->
  cs !! Z.to_nat (off src) = Some (Live z) ->
  (Z.to_nat (off dst) < length cs)%nat ->
  calm w 1 ->
  exists w', move_construct src dst w = Ret tt w' /\
    writes w w' src
      (<[Z.to_nat (off src) := Live (moved_from z)]> (<[Z.to_nat (off dst) := Live z]> cs)) 1 0.
Proof.
  intros Hb Hblk Hos Hod Hne Hz Hlen Hcalm.
  assert (Hbd : block_of w dst = Some cs) by (unfold block_of in *; by rewrite Hblk).
  destruct (emplace_at_ok w dst cs z Hbd Hod Hlen) as (w1 & E1 & W1).
  assert (Hb1 : block_of w1 src = Some (<[Z.to_nat (off dst) := Live z]> cs)).
  { destruct W1 as (B & _). unfold block_of in *. by rewrite <- Hblk. }
  destruct (leave_moved_ok w1 src _ z Hb1 Hos) as (w2 & E2 & W2).
  { rewrite list_lookup_insert_ne by lia. done. }
  exists w2. split.
  - eapply move_construct_step; eauto.
  - destruct W1 as (_ & F1 & C1 & D1). destruct W2 as (B2 & F2 & C2 & D2).
    repeat split; [done| |lia|lia].
    intros q Hq. rewrite F2 by done. apply F1. congruence.
Qed.

(** What the in-place insertion before [end()] does to the store when
    the last element is moved by construction. *)
Lemma shift_trace w po l cap x i :
  block_of w po = Some ((Live <$> l) ++ replicate (cap - length l) Raw) ->
  off po = 0 -> (i < length l)%nat -> (length l < cap)%nat ->
  calm w 2 ->
  exists w1 w2 w3 w4 w5,
    construct_local x w = Ret x w1 /\
    uninitialized_move_n (ptr_add (ptr_add po (Z.of_nat (length l))) (-1)) 1
                         (ptr_add po (Z.of_nat (length l))) w1 = Ret tt w2 /\
    move_backward (ptr_add po (Z.of_nat i))
                  (ptr_add (ptr_add po (Z.of_nat (length l))) (-1))
                  (ptr_add po (Z.of_nat (length l))) w2 = Ret tt w3 /\
    store (ptr_add po (Z.of_nat i)) x w3 = Ret tt w4 /\
    destroy_local w4 = Ret tt w5 /\
    block_of w5 po =
      Some ((Live <$> (take i l ++ x :: drop i l)) ++ replicate (cap - S (length l)) Raw) /\
    constructed w5 = (constructed w + 2)%nat /\
    destroyed w5 = (destroyed w + 1)%nat.
Proof.
  intros Hb Hoff Hi Hlt Hcalm.
  destruct (exists_last (l := l)) as (l' & z & ->).
  { intros ->. simpl in Hi. lia. }
  rewrite length_app in *. simpl in *.
  set (A := take i l'). set (mid := drop i l').
  assert (HA : length A = i) by (unfold A; rewrite length_take; lia).
  assert (Hmid : length mid = (length l' - i)%nat) by (unfold mid; by rewrite length_drop).
  assert (Hl' : l' = A ++ mid) by (unfold A, mid; by rewrite take_drop).
  assert (Htake : take i (l' ++ [z]) = A) by (unfold A; apply take_app_le; lia).
  assert (Hdrop : drop i (l' ++ [z]) = mid ++ [z]) by (unfold mid; apply drop_app_le; lia).
  rewrite Htake, Hdrop.
  replace (cap - (length l' + 1))%nat with (S (cap - S (length l' + 1))) in Hb by lia.
  assert (Hfm : Live <$> l' = (Live <$> A) ++ (Live <$> mid)).
  { rewrite <- fmap_app. by rewrite <- Hl'. }
  rewrite fmap_app, Hfm, <- !app_assoc in Hb. simpl in Hb.
  (* the temporary *)
  assert (E1 : construct_local x w = Ret x (count_ctor w)).
  { unfold construct_local. by rewrite Hcalm by lia. }
  set (w1 := count_ctor w) in *.
  assert (Hb1 : block_of w1 po = Some ((Live <$> A) ++ (Live <$> mid) ++
                  Live z :: Raw :: replicate (cap - S (length l' + 1)) Raw)) by exact Hb.
  (* the last element moves up *)
  destruct (move_construct_within w1
              (ptr_add (ptr_add (ptr_add po (Z.of_nat (length l' + 1))) (-1)) (Z.of_nat 0))
              (ptr_add (ptr_add po (Z.of_nat (length l' + 1))) (Z.of_nat 0)) _ z Hb1)
    as (w2 & E2 & W2); simpl; try done; try lia.
  { rewrite !app_assoc. apply list_lookup_middle. rewrite length_app, !length_fmap. lia. }
  { rewrite !length_app, !length_fmap. simpl. rewrite length_replicate. lia. }
  { intros k v Hk. apply Hcalm. simpl in Hk. lia. }
  assert (W2' : writes w1 w2 po
            ((Live <$> A) ++ (Live <$> mid) ++
               Live (moved_from z) :: Live z :: replicate (cap - S (length l' + 1)) Raw) 1 0).
  { eapply writes_cells; [exact W2|]. rewrite !app_assoc.
    apply insert2; rewrite length_app, !length_fmap; simpl; lia. }
  clear W2. rename W2' into W2.
  (* the elements from [pos] on move up *)
  destruct (move_backward_loop_ok mid w2
              (ptr_add (ptr_add po (Z.of_nat (length l' + 1))) (-1))
              (ptr_add po (Z.of_nat (length l' + 1)))
              (Live <$> A) (moved_from z) (Live z :: replicate (cap - S (length l' + 1)) Raw))
    as (w3 & g & E3 & W3); simpl; try done; try lia.
  { apply W2. }
  { rewrite length_fmap. lia. }
  (* the new element *)
  destruct (store_ok w3 (ptr_add po (Z.of_nat i)) _ g x (proj1 W3))
    as (w4 & E4 & W4).
  { simpl. lia. }
  { simpl. apply list_lookup_middle. rewrite length_fmap. lia. }
  simpl in W4. rewrite insert_middle in W4 by (rewrite length_fmap; lia).
  exists w1, w2, w3, w4, (count_dtor w4).
  destruct W2 as (_ & _ & C2 & D2). destruct W3 as (_ & _ & C3 & D3).
  destruct W4 as (B4 & _ & C4 & D4).
  split; [exact E1|]. split.
  { unfold uninitialized_move_n. simpl.
    erewrite bind_ret by (apply unwind_ret; exact E2). done. }
  split.
  { unfold move_backward. rewrite same_block_refl by done. simpl.
    rewrite (proj2 (Z.leb_le _ _)) by lia. simpl.
    replace (Z.to_nat (off po + Z.of_nat (length l' + 1) + -1 - (off po + Z.of_nat i)))
      with (length mid) by lia.
    exact E3. }
  split; [exact E4|]. split; [done|].
  split; [|unfold w1 in *; simpl in *; lia].
  change (block_of w4 po = Some ((Live <$> A ++ x :: mid ++ [z]) ++
                                 replicate (cap - S (length l' + 1)) Raw)).
  etransitivity; [exact B4|]. f_equal.
  rewrite fmap_app, fmap_cons, fmap_app, <- !app_assoc. simpl.
  by rewrite <- !app_assoc.
Qed.

End Traces.

Section Insertion.
Context {T : Type} `{Element T}.
Implicit Types (w : world T) (p q : ptr) (cs : list (slot T)) (vs l : list T) (v : Vector).

Lemma ptr_diff_add p a b : ptr_diff (ptr_add p a) (ptr_add p b) = a - b.
Proof. unfold ptr_diff. simpl. lia. Qed.

Lemma ptr_diff_add_l p a : ptr_diff (ptr_add p a) p = a.
Proof. unfold ptr_diff. simpl. lia. Qed.

Lemma ptr_eqb_add p a b : ptr_eqb (ptr_add p a) (ptr_add p b) = (a =? b).
Proof.
  unfold ptr_eqb. simpl. destruct (blk p); rewrite ?Nat.eqb_refl; simpl;
    destruct (Z.eqb_spec (off p + a) (off p + b)), (Z.eqb_spec a b); done || lia.
Qed.

Lemma ptr_leb_add_r p b : ptr_leb p (ptr_add p b) = (0 <=? b).
Proof.
  unfold ptr_leb. simpl. destruct (blk p); rewrite ?Nat.eqb_refl; simpl;
    destruct (Z.leb_spec (off p) (off p + b)), (Z.leb_spec 0 b); done || lia.
Qed.

Lemma ptr_leb_add p a b : ptr_leb (ptr_add p a) (ptr_add p b) = (a <=? b).
Proof.
  unfold ptr_leb. simpl. destruct (blk p); rewrite ?Nat.eqb_refl; simpl;
    destruct (Z.leb_spec (off p + a) (off p + b)), (Z.leb_spec a b); done || lia.
Qed.

Lemma ptr_ltb_add p a b : ptr_ltb (ptr_add p a) (ptr_add p b) = (a <? b).
Proof.
  unfold ptr_ltb. simpl. destruct (blk p); rewrite ?Nat.eqb_refl; simpl;
    destruct (Z.ltb_spec (off p + a) (off p + b)), (Z.ltb_spec a b); done || lia.
Qed.

Lemma cells_insert l (x : T) i :
  (i <= length l)%nat ->
  length (take i l ++ x :: drop i l) = S (length l).
Proof.
  intros Hi. rewrite length_app, length_take. simpl. rewrite length_drop. lia.
Qed.

(** [OffsetRightNewCapacity] of the second revision. *)
Lemma V2_OffsetRightNewCapacity_ok v w l cap x i :
  holds w v l cap -> (i <= length l)%nat ->
  representable (Z.max 1 (2 * Z.of_nat (length l))) -> roomy ->
  calm w (S (length l)) ->
  exists f,
    call (V2.OffsetRightNewCapacity (ptr_add (buffer_ (data_ v)) (Z.of_nat i)) x) v w =
      Ret (Z.of_nat i) f /\
    holds (mem f) (this f) (take i l ++ x :: drop i l) (Nat.max 1 (2 * length l)) /\
    constructed (mem f) = (constructed w + S (length l))%nat /\
    destroyed (mem f) = (destroyed w + length l)%nat.
Proof.
  intros (Hs & Hc & Hle & Hmax & Hoff & Hb & Hrep) Hi Hsmall Hroomy Hcalm.
  pose proof (representable_double _ Hsmall) as Hlt63.
  pose proof (representable_grow _ Hsmall) as HN.
  destruct v as [[po c] s]. simpl in *. subst s c.
  destruct (grow_trace w po (Z.of_nat cap) l cap x i Hb Hoff Hi Hsmall Hroomy Hcalm)
    as (pn & w1 & w2 & w3 & w4 & w5 & w6 & E1 & E2 & E3 & E4 & E5 & E6 & Hoffn & Bn & C & D).
  set (N := Nat.max 1 (2 * length l)) in *.
  exists {| this := {| data_ := {| buffer_ := pn; capacity_ := Z.of_nat N |};
                       size_ := Z.of_nat (length l) + 1 |};
            mem := w6 |}.
  split.
  - unfold call, V2.OffsetRightNewCapacity. cbn.
    rewrite new_capacity_eq by done. fold N.
    step_mem E1.
    erewrite bind_ret; cycle 1.
    { apply unwind_ret. cbn. rewrite !ptr_diff_add_l.
      rewrite wrap_small by (unfold SIZE_MAX; lia).
      step_plus. step_mem E2. step_plus.
      rewrite ptr_diff_add.
      replace (Z.of_nat (length l) - Z.of_nat i) with (Z.of_nat (length l - i)) by lia.
      revert E3 E4. destruct transfer_safe; intros E3 E4.
      - erewrite bind_ret; cycle 1.
        { step_mem E3. apply in_mem_ret. exact E4. }
        reflexivity.
      - erewrite bind_ret; cycle 1.
        { step_mem E3. apply in_mem_ret. exact E4. }
        reflexivity. }
    cbn. step_mem E5.
    rewrite size_add_small by (unfold SIZE_MAX; lia).
    step_mem E6.
    rewrite ptr_diff_add_l.
    rewrite wrap_small by (unfold SIZE_MAX; lia). reflexivity.
  - cbn. split; [|done].
    apply holds_intro; try done.
    + rewrite cells_insert by done. lia.
    + rewrite cells_insert by done. lia.
    + unfold SIZE_MAX. lia.
    + rewrite cells_insert by done. exact Bn.
Qed.

(** [OffsetRight] of the second revision, for an element type whose
    transfers move. *)
Lemma V2_OffsetRight_ok v w l cap x i :
  holds w v l cap -> (i < length l)%nat -> (length l < cap)%nat ->
  transfer_safe = true -> calm w 2 ->
  exists f,
    call (V2.OffsetRight (ptr_add (buffer_ (data_ v)) (Z.of_nat i)) x) v w = Ret tt f /\
    data_ (this f) = data_ v /\
    holds (mem f) (this f) (take i l ++ x :: drop i l) cap /\
    constructed (mem f) = (constructed w + 2)%nat /\
    destroyed (mem f) = (destroyed w + 1)%nat.
Proof.
  intros (Hs & Hc & Hle & Hmax & Hoff & Hb & Hrep) Hi Hlt Hsafe Hcalm.
  destruct v as [[po c] s]. simpl in *. subst s c.
  destruct (shift_trace w po l cap x i Hb Hoff Hi Hlt Hcalm)
    as (w1 & w2 & w3 & w4 & w5 & E1 & E2 & E3 & E4 & E5 & B5 & C & D).
  exists {| this := {| data_ := {| buffer_ := po; capacity_ := Z.of_nat cap |};
                       size_ := Z.of_nat (length l) + 1 |};
            mem := w5 |}.
  split.
  - unfold call, V2.OffsetRight. rewrite Hsafe.
    step_mem E1.
    erewrite bind_ret; cycle 1.
    { apply unwind_ret. cbn.
      erewrite bind_ret; cycle 1.
      { step_end. step_mem E2. step_end. step_end. step_mem E3.
        apply in_mem_ret. exact E4. }
      cbn. rewrite size_add_small by lia. reflexivity. }
    cbn. erewrite in_mem_ret by exact E5. reflexivity.
  - cbn. split; [done|]. split; [|done].
    apply holds_intro; try done.
    + rewrite cells_insert by lia. lia.
    + rewrite cells_insert by lia. lia.
    + rewrite cells_insert by lia. exact B5.
Qed.

(** Appending in place: the branch [pos == end()] of [Emplace]. *)
Lemma append_trace w po l cap x :
  block_of w po = Some ((Live <$> l) ++ replicate (cap - length l) Raw) ->
  off po = 0 -> (length l < cap)%nat -> calm w 1 ->
  exists w1,
    construct_at (ptr_add po (Z.of_nat (length l))) x w = Ret tt w1 /\
    block_of w1 po = Some ((Live <$> (l ++ [x])) ++ replicate (cap - S (length l)) Raw) /\
    constructed w1 = S (constructed w) /\ destroyed w1 = destroyed w.
Proof.
  intros Hb Hoff Hlt Hcalm.
  destruct (construct_at_ok w (ptr_add po (Z.of_nat (length l))) _ x Hb) as (w1 & E1 & W1).
  { simpl. lia. }
  { simpl. rewrite length_app, length_fmap, length_replicate. lia. }
  { done. }
  exists w1. split; [done|]. destruct W1 as (B1 & _ & C1 & D1).
  split; [|lia].
  etransitivity; [exact B1|]. f_equal. simpl. rewrite Hoff.
  replace (Z.to_nat (0 + Z.of_nat (length l))) with (length l) by lia.
  rewrite cells_snoc by done. do 2 f_equal. rewrite length_app. simpl. lia.
Qed.

Lemma insert_at_end l (x : T) : take (length l) l ++ x :: drop (length l) l = l ++ [x].
Proof. by rewrite firstn_all, drop_all. Qed.

(** [Emplace] of the second revision. *)
Lemma V2_Emplace_ok v w l cap x i :
  holds w v l cap -> (i <= length l)%nat ->
  representable (Z.max 1 (2 * Z.of_nat (length l))) -> roomy ->
  calm w (S (S (length l))) ->
  transfer_safe = true \/ (cap <= length l)%nat \/ i = length l ->
  exists f,
    call (V2.Emplace (ptr_add (buffer_ (data_ v)) (Z.of_nat i)) x) v w =
      Ret (ptr_add (buffer_ (data_ (this f))) (Z.of_nat i)) f /\
    holds (mem f) (this f) (take i l ++ x :: drop i l)
          (if (length l <? cap)%nat then cap else Nat.max 1 (2 * length l)) /\
    (constructed (mem f) + destroyed w = constructed w + destroyed (mem f) + 1)%nat /\
    (destroyed w <= destroyed (mem f))%nat.
Proof.
  intros Hv Hi Hsmall Hroomy Hcalm Hcase.
  pose proof (representable_double _ Hsmall) as Hlt63.
  pose proof (representable_grow _ Hsmall) as HN.
  pose proof Hv as (Hs & Hc & Hle & Hmax & Hoff & Hb & Hrep).
  destruct (Nat.ltb_spec (length l) cap) as [Hlt|Hfull].
  - destruct (decide (i = length l)) as [->|Hne].
    + (* append in place *)
      destruct v as [[po c] s]. simpl in *. subst s c.
      destruct (append_trace w po l cap x Hb Hoff Hlt) as (w1 & E1 & B1 & C1 & D1).
      { eapply calm_le; [exact Hcalm|lia]. }
      exists {| this := {| data_ := {| buffer_ := po; capacity_ := Z.of_nat cap |};
                           size_ := Z.of_nat (length l) + 1 |};
                mem := w1 |}.
      split.
      * unfold call, V2.Emplace. cbn. step_plus.
        rewrite ptr_leb_add_r, ptr_leb_add. zb. cbn. zb.
        step_plus. rewrite ptr_eqb_add. zb. step_plus. step_mem E1.
        rewrite size_add_small by lia. reflexivity.
      * cbn. split; [|lia]. rewrite insert_at_end.
        apply holds_intro; try done; rewrite ?length_app; simpl; try lia.
        etransitivity; [exact B1|]. do 3 f_equal. lia.
    + (* shift in place *)
      destruct Hcase as [Hsafe|[?|?]]; [|lia|lia].
      destruct (V2_OffsetRight_ok v w l cap x i Hv) as (f & E & Hd & Hf & C & D);
        [lia|done|done|eapply calm_le; [exact Hcalm|lia]|].
      exists f. rewrite Hd. split; [|split; [done|lia]].
      destruct v as [[po c] s]. simpl in *. subst s c.
      unfold call in *. unfold V2.Emplace. cbn. step_plus.
      rewrite ptr_leb_add_r, ptr_leb_add. zb. cbn. zb.
      step_plus. rewrite ptr_eqb_add. zb.
      erewrite bind_ret by exact E. reflexivity.
  - (* reallocate *)
    destruct (V2_OffsetRightNewCapacity_ok v w l cap x i Hv) as (f & E & Hf & C & D);
      [done|done|done|eapply calm_le; [exact Hcalm|lia]|].
    exists f. split; [|split; [done|lia]].
    destruct v as [[po c] s]. simpl in *. subst s c.
    unfold call in *. unfold V2.Emplace. cbn. step_plus.
    rewrite ptr_leb_add_r, ptr_leb_add. zb. cbn. zb.
    erewrite bind_ret by exact E. cbn.
    destruct Hf as (_ & Hcf & _ & Hmf & _).
    apply RawMemory_plus_ok. rewrite Hcf. lia.
Qed.

(** [EmplaceBack] of the second revision. *)
Lemma V2_EmplaceBack_ok v w l cap x :
  holds w v l cap ->
  representable (Z.max 1 (2 * Z.of_nat (length l))) -> roomy ->
  calm w (S (S (length l))) ->
  exists f,
    call (V2.EmplaceBack x) v w =
      Ret (ptr_add (buffer_ (data_ (this f))) (Z.of_nat (length l))) f /\
    holds (mem f) (this f) (l ++ [x])
          (if (length l <? cap)%nat then cap else Nat.max 1 (2 * length l)) /\
    (constructed (mem f) + destroyed w = constructed w + destroyed (mem f) + 1)%nat /\
    (destroyed w <= destroyed (mem f))%nat.
Proof.
  intros Hv Hsmall Hroomy Hcalm.
  pose proof (representable_double _ Hsmall) as Hlt63.
  pose proof (representable_grow _ Hsmall) as HN.
  destruct (V2_Emplace_ok v w l cap x (length l) Hv) as (f & E & Hf & C); try done; auto.
  exists f. rewrite insert_at_end in Hf. split; [|done].
  destruct Hv as (Hs & Hc & Hle & _).
  unfold call, V2.EmplaceBack in *.
  erewrite bind_ret by (apply end_ok; cbn; lia).
  cbn. rewrite Hs. exact E.
Qed.

(** [Emplace] of the first revision. *)
Lemma V1_Emplace_ok v w l cap x i :
  holds w v l cap -> (i <= length l)%nat ->
  representable (Z.max 1 (2 * Z.of_nat (length l))) -> roomy ->
  calm w (S (S (length l))) ->
  transfer_safe = true \/ (cap <= length l)%nat \/ i = length l ->
  exists f,
    call (V1.Emplace (ptr_add (buffer_ (data_ v)) (Z.of_nat i)) x) v w =
      Ret (ptr_add (buffer_ (data_ (this f))) (Z.of_nat i)) f /\
    holds (mem f) (this f) (take i l ++ x :: drop i l)
          (if (length l <? cap)%nat then cap else Nat.max 1 (2 * length l)) /\
    (constructed (mem f) + destroyed w = constructed w + destroyed (mem f) + 1)%nat /\
    (destroyed w <= destroyed (mem f))%nat.
Proof.
  intros Hv Hi Hsmall Hroomy Hcalm Hcase.
  pose proof (representable_double _ Hsmall) as Hlt63.
  pose proof (representable_grow _ Hsmall) as HN.
  pose proof Hv as (Hs & Hc & Hle & Hmax & Hoff & Hb & Hrep).
  destruct v as [[po c] s]. simpl in *. subst s c.
  destruct (Nat.ltb_spec (length l) cap) as [Hlt|Hfull].
  - destruct (decide (i = length l)) as [->|Hne].
    + (* append in place *)
      destruct (append_trace w po l cap x Hb Hoff Hlt) as (w1 & E1 & B1 & C1 & D1).
      { eapply calm_le; [exact Hcalm|lia]. }
      exists {| this := {| data_ := {| buffer_ := po; capacity_ := Z.of_nat cap |};
                           size_ := Z.of_nat (length l) + 1 |};
                mem := w1 |}.
      split.
      * unfold call, V1.Emplace. cbn. zb. cbn.
        step_plus. rewrite ptr_eqb_add. zb. step_plus. step_mem E1.
        rewrite size_add_small by lia. reflexivity.
      * cbn. split; [|lia]. rewrite insert_at_end.
        apply holds_intro; try done; rewrite ?length_app; simpl; try lia.
        etransitivity; [exact B1|]. do 3 f_equal. lia.
    + (* shift in place *)
      destruct Hcase as [Hsafe|[?|?]]; [|lia|lia].
      destruct (shift_trace w po l cap x i Hb Hoff) as
        (w1 & w2 & w3 & w4 & w5 & E1 & E2 & E3 & E4 & E5 & B5 & C & D);
        [lia|done|eapply calm_le; [exact Hcalm|lia]|].
      exists {| this := {| data_ := {| buffer_ := po; capacity_ := Z.of_nat cap |};
                           size_ := Z.of_nat (length l) + 1 |};
                mem := w5 |}.
      split.
      * unfold call, V1.Emplace. cbn. zb. cbn.
        step_plus. rewrite ptr_eqb_add. zb. rewrite Hsafe.
        step_mem E1.
        erewrite bind_ret; cycle 1.
        { apply unwind_ret. cbn.
          step_end. step_mem E2. step_end. step_end. step_mem E3. step_mem E4.
          rewrite size_add_small by lia. reflexivity. }
        cbn. step_mem E5. reflexivity.
      * cbn. split; [|lia].
        apply holds_intro; try done; rewrite ?cells_insert by lia; try lia.
        exact B5.
  - (* reallocate *)
    destruct (grow_trace w po (Z.of_nat cap) l cap x i Hb Hoff Hi Hsmall Hroomy) as
      (pn & w1 & w2 & w3 & w4 & w5 & w6 & E1 & E2 & E3 & E4 & E5 & E6 & Hoffn & Bn & C & D).
    { eapply calm_le; [exact Hcalm|lia]. }
    set (N := Nat.max 1 (2 * length l)) in *.
    exists {| this := {| data_ := {| buffer_ := pn; capacity_ := Z.of_nat N |};
                         size_ := Z.of_nat (length l) + 1 |};
              mem := w6 |}.
    split.
    + unfold call, V1.Emplace. cbn. zb. cbn.
      rewrite new_capacity_eq by done. fold N.
      step_mem E1.
      erewrite bind_ret; cycle 1.
      { apply unwind_ret. cbn. rewrite !ptr_diff_add_l.
        rewrite wrap_small by (unfold SIZE_MAX; lia).
        step_plus. step_mem E2. step_plus.
        rewrite ptr_diff_add.
        replace (Z.of_nat (length l) - Z.of_nat i) with (Z.of_nat (length l - i)) by lia.
        revert E3 E4. destruct transfer_safe; intros E3 E4.
        - erewrite bind_ret; cycle 1.
          { step_mem E3. apply in_mem_ret. exact E4. }
          reflexivity.
        - erewrite bind_ret; cycle 1.
          { step_mem E3. apply in_mem_ret. exact E4. }
          reflexivity. }
      cbn. step_mem E5.
      rewrite size_add_small by (unfold SIZE_MAX; lia).
      rewrite ptr_diff_add_l.
      rewrite wrap_small by (unfold SIZE_MAX; lia).
      step_plus. step_mem E6. reflexivity.
    + cbn. split; [|lia].
      apply holds_intro; try done; rewrite ?cells_insert by lia; try lia.
      * unfold SIZE_MAX. lia.
      * exact Bn.
Qed.

(** The in-place branch before [end()] for an element type whose
    transfers copy: the first thing it does after building the
    temporary is to assign to the raw slot at [end()]. *)
Lemma shift_unsafe_undefined w po l cap i :
  block_of w po = Some ((Live <$> l) ++ replicate (cap - length l) Raw) ->
  off po = 0 -> (i < length l)%nat -> (length l < cap)%nat ->
  move_assign (ptr_add (ptr_add po (Z.of_nat (length l))) (-1))
              (ptr_add po (Z.of_nat (length l))) w = Undef.
Proof.
  intros Hb Hoff Hi Hlt.
  destruct (exists_last (l := l)) as (l' & z & ->).
  { intros ->. simpl in Hi. lia. }
  rewrite length_app in *. simpl in *.
  unfold move_assign.
  erewrite bind_ret; cycle 1.
  { eapply (load_ok w _ _ z); [exact Hb|simpl; lia|].
    simpl. rewrite fmap_app, <- app_assoc. simpl.
    apply list_lookup_middle. rewrite length_fmap. lia. }
  unfold bind, store.
  rewrite (cell_at_block w (ptr_add po (Z.of_nat (length l' + 1))) _ Hb) by (simpl; lia).
  simpl. rewrite lookup_app_r by (rewrite length_fmap, length_app; simpl; lia).
  rewrite lookup_replicate_2; [done|].
  rewrite length_fmap, length_app. simpl. lia.
Qed.

(** [Emplace] of the first revision before [end()] with spare
    capacity, for an element type whose transfers copy. *)
Lemma V1_Emplace_unsafe_undefined v w l cap x i :
  holds w v l cap -> (i < length l)%nat -> (length l < cap)%nat ->
  transfer_safe = false -> calm w 1 ->
  call (V1.Emplace (ptr_add (buffer_ (data_ v)) (Z.of_nat i)) x) v w = Undef.
Proof.
  intros (Hs & Hc & Hle & Hmax & Hoff & Hb & Hrep) Hi Hlt Hunsafe Hcalm.
  destruct v as [[po c] s]. simpl in *. subst s c.
  assert (E1 : construct_local x w = Ret x (count_ctor w)).
  { unfold construct_local. by rewrite Hcalm by lia. }
  pose proof (shift_unsafe_undefined (count_ctor w) po l cap i Hb Hoff Hi Hlt) as E2.
  unfold call, V1.Emplace. cbn. zb. cbn.
  step_plus. rewrite ptr_eqb_add. zb. rewrite Hunsafe.
  step_mem E1.
  unfold bind at 1. unfold unwind. cbn. step_end.
  unfold bind at 1. unfold in_mem at 1. cbn. by rewrite E2.
Qed.

End Insertion.

Section Capacity.
Context {T : Type} `{Element T}.
Implicit Types (w : world T) (p q : ptr) (cs : list (slot T)) (vs l : list T) (v : Vector).


(** [Reserve] of the first revision, when it reallocates. *)
Lemma V1_Reserve_grow v w l cap k :
  holds w v l cap -> Z.of_nat cap < k -> representable k -> roomy ->
  calm w (length l) ->
  exists f,
    call (V1.Reserve k) v w = Ret tt f /\
    holds (mem f) (this f) l (Z.to_nat k) /\
    capacity_ (data_ (this f)) = k /\
    constructed (mem f) = (constructed w + length l)%nat /\
    destroyed (mem f) = (destroyed w + length l)%nat.
Proof.
  intros (Hs & Hc & Hle & Hmax & Hoff & Hb & Hrep) Hlt Hrepk Hroomy Hcalm.
  assert (Hk : Z.of_nat cap < k <= SIZE_MAX) by (split; [done|by apply representable_max]).
  destruct v as [[po c] s]. simpl in *. subst s c.
  destruct (RawMemory_new_ok w k) as (nd & w1 & E1 & Hcn & Hoffn & W1 & Fresh);
    [lia|done|done|].
  destruct nd as [pn cn]. simpl in *. subst cn.
  assert (Hne : blk po <> blk pn) by (apply Fresh; by eexists).
  destruct (transfer_ok l w1 po pn [] (replicate (cap - length l) Raw)
              [] (replicate (length l) Raw) (replicate (Z.to_nat k - length l) Raw)
              (Z.of_nat (length l)))
    as (w2 & l' & E2 & Hl' & W2); simpl; try done; try lia.
  { rewrite (writes_other w w1 _ _ _ _ po W1) by done. exact Hb. }
  { etransitivity; [exact (proj1 W1)|]. f_equal. rewrite <- replicate_add. f_equal. lia. }
  { by rewrite length_replicate. }
  { eapply calm_le; [eapply (writes_calm w w1); [exact W1|exact Hcalm]|]. lia. }
  simpl in W2. destruct W2 as (Bo2 & Bn2 & F2 & C2 & D2).
  destruct (destroy_n_ok l' w2 po [] (replicate (cap - length l) Raw) (Z.of_nat (length l)))
    as (w3 & E3 & W3); simpl; try done; try lia.
  destruct W3 as (Bo3 & F3 & C3 & D3).
  destruct (RawMemory_destroy_ok w3 {| buffer_ := po; capacity_ := Z.of_nat cap |} _ Bo3)
    as (w4 & E4 & F4 & C4 & D4); [done|].
  simpl in F4.
  exists {| this := {| data_ := {| buffer_ := pn; capacity_ := k |};
                       size_ := Z.of_nat (length l) |};
            mem := w4 |}.
  split.
  - unfold call, V1.Reserve. cbn. zb. cbn. step_mem E1.
    erewrite bind_ret; cycle 1.
    { apply unwind_ret. cbn. step_if E2. step_mem E3. reflexivity. }
    cbn. erewrite in_mem_ret by exact E4. reflexivity.
  - cbn. destruct W1 as (_ & _ & C1 & D1).
    split; [|split; [done|lia]].
    apply holds_intro; try done; try lia.
    + rewrite F4, F3 by done. exact Bn2.
    + by rewrite Z2Nat.id by lia.
Qed.



End Capacity.

Section Assignment.
Context {T : Type} `{Element T}.
Implicit Types (w : world T) (p q : ptr) (cs : list (slot T)) (vs l : list T) (v : Vector).

(** The copy constructor, for a source that is not empty. *)
Lemma Vector_copy_ok w other l cap :
  holds w other l cap -> l <> [] -> roomy -> calm w (length l) ->
  exists c w',
    Vector_copy other w = Ret c w' /\
    holds w' c l (length l) /\
    (forall q, is_Some (block_of w q) -> blk q <> blk (buffer_ (data_ c))) /\
    (forall q, blk q <> blk (buffer_ (data_ c)) -> block_of w' q = block_of w q) /\
    constructed w' = (constructed w + length l)%nat /\
    destroyed w' = destroyed w.
Proof.
  intros (Hs & Hc & Hle & Hmax & Hoff & Hb & Hrep) Hne Hroomy Hcalm.
  destruct other as [[po c] s]. simpl in *. subst s c.
  assert (Hpos : (0 < length l)%nat) by (destruct l; [done|simpl; lia]).
  assert (Hrl : representable (Z.of_nat (length l)))
    by (eapply representable_le; [|exact Hrep]; lia).
  destruct (RawMemory_new_ok w (Z.of_nat (length l)))
    as (nd & w1 & E1 & Hcn & Hoffn & W1 & Fresh); [lia|done|done|].
  destruct nd as [pn cn]. simpl in *. subst cn.
  assert (Hnb : blk po <> blk pn) by (apply Fresh; by eexists).
  rewrite Nat2Z.id in W1.
  destruct (uninitialized_copy_n_ok l w1 po pn [] (replicate (cap - length l) Raw)
              [] (replicate (length l) Raw) [] (Z.of_nat (length l)))
    as (w2 & E2 & W2); simpl; try done; try lia.
  { rewrite (writes_other w w1 _ _ _ _ po W1) by done. exact Hb. }
  { etransitivity; [exact (proj1 W1)|]. by rewrite app_nil_r. }
  { by rewrite length_replicate. }
  { eapply calm_le; [eapply (writes_calm w w1); [exact W1|exact Hcalm]|]. lia. }
  exists {| data_ := {| buffer_ := pn; capacity_ := Z.of_nat (length l) |};
            size_ := Z.of_nat (length l) |}, w2.
  destruct W1 as (_ & F1 & C1 & D1). destruct W2 as (B2 & F2 & C2 & D2).
  split.
  - unfold Vector_copy. cbn.
    erewrite bind_ret by exact E1. cbn.
    erewrite bind_ret by (apply unwind_ret; exact E2). reflexivity.
  - cbn. split; [|split; [done|split; [|lia]]].
    + apply holds_intro; try done; try lia.
      etransitivity; [exact B2|]. f_equal. rewrite Nat.sub_diag. done.
    + intros q Hq. rewrite F2, F1; done.
Qed.

(** The destructor. *)
Lemma Vector_destroy_ok w v l cap :
  holds w v l cap ->
  exists w',
    Vector_destroy v w = Ret tt w' /\
    (forall q, blk q <> blk (buffer_ (data_ v)) -> block_of w' q = block_of w q) /\
    constructed w' = constructed w /\
    destroyed w' = (destroyed w + length l)%nat.
Proof.
  intros (Hs & Hc & Hle & Hmax & Hoff & Hb & Hrep).
  destruct v as [[po c] s]. simpl in *. subst s c.
  destruct (destroy_n_ok l w po [] (replicate (cap - length l) Raw) (Z.of_nat (length l)))
    as (w1 & E1 & W1); simpl; try done; try lia.
  destruct W1 as (B1 & F1 & C1 & D1).
  destruct (RawMemory_destroy_ok w1 {| buffer_ := po; capacity_ := Z.of_nat cap |} _ B1)
    as (w2 & E2 & F2 & C2 & D2); [done|].
  exists w2. split.
  - unfold Vector_destroy. cbn. erewrite bind_ret by exact E1. exact E2.
  - split; [|lia]. intros q Hq. simpl in F2. rewrite F2, F1; done.
Qed.

(** Copy assignment from a longer vector than the capacity: copy and
    swap. *)
Lemma V1_copy_assignment_swap v w l cap rhs lr capr :
  holds w v l cap -> holds w rhs lr capr -> apart v rhs ->
  (cap < length lr)%nat -> roomy -> calm w (length lr) ->
  exists f,
    call (V1.copy_assignment (Some rhs)) v w = Ret tt f /\
    holds (mem f) (this f) lr (length lr) /\
    holds (mem f) rhs lr capr /\
    constructed (mem f) = (constructed w + length lr)%nat /\
    destroyed (mem f) = (destroyed w + length l)%nat.
Proof.
  intros Hv Hr Hap Hlt Hroomy Hcalm.
  destruct (Vector_copy_ok w rhs lr capr Hr) as (c & w1 & E1 & Hc1 & Fresh & F1 & C1 & D1).
  { intros ->. simpl in Hlt. lia. }
  { done. }
  { done. }
  pose proof Hv as (Hs & Hc & Hle & Hmax & Hoff & Hb & Hrep).
  pose proof Hr as (Hsr & Hcr & Hler & Hmaxr & Hoffr & Hbr & Hrepr).
  assert (Hvc : blk (buffer_ (data_ v)) <> blk (buffer_ (data_ c))) by (apply Fresh; by eexists).
  assert (Hrc : blk (buffer_ (data_ rhs)) <> blk (buffer_ (data_ c))) by (apply Fresh; by eexists).
  assert (Hv1 : holds w1 v l cap).
  { repeat split; try done. rewrite F1; done. }
  destruct (Vector_destroy_ok w1 v l cap Hv1) as (w2 & E2 & F2 & C2 & D2).
  exists {| this := c; mem := w2 |}.
  destruct v as [[po cv] s]. destruct c as [[pn cn] sn]. simpl in *. subst s cv.
  split.
  - unfold call, V1.copy_assignment. cbn. unfold RawMemory_Capacity. cbn.
    rewrite Hsr. zb. step_mem E1.
    erewrite in_mem_ret by exact E2. reflexivity.
  - cbn. split; [|split; [|lia]].
    + destruct Hc1 as (? & ? & ? & ? & ? & Bc & ?). repeat split; try done.
      rewrite F2; [exact Bc|]. simpl. congruence.
    + repeat split; try done.
      destruct (decide (blk (buffer_ (data_ rhs)) = blk po)) as [Heq|Hne].
      * (* both buffers are null *)
        assert (Hnull : blk po = None) by (apply Hap; simpl; congruence).
        unfold block_of in *. rewrite Heq, Hnull in *. done.
      * rewrite F2, F1; done.
Qed.

(** Copy assignment from a vector that fits the capacity: in place. *)
Lemma V1_copy_assignment_inplace v w l cap rhs lr capr :
  holds w v l cap -> holds w rhs lr capr -> apart v rhs ->
  (length lr <= cap)%nat -> calm w (length lr - length l) ->
  exists f,
    call (V1.copy_assignment (Some rhs)) v w = Ret tt f /\
    data_ (this f) = data_ v /\
    holds (mem f) (this f) lr cap /\
    holds (mem f) rhs lr capr /\
    constructed (mem f) = (constructed w + (length lr - length l))%nat /\
    destroyed (mem f) = (destroyed w + (length l - length lr))%nat.
Proof.
  intros Hv Hr Hap Hfit Hcalm.
  pose proof Hv as (Hs & Hc & Hle & Hmax & Hoff & Hb & Hrep).
  pose proof Hr as (Hsr & Hcr & Hler & Hmaxr & Hoffr & Hbr & Hrepr).
  destruct v as [[po cv] s]. destruct rhs as [[pr cr] sr]. simpl in *. subst s cv sr cr.
  unfold apart in Hap. simpl in Hap.
  destruct (decide (blk po = blk pr)) as [Heq|Hne].
  { (* both buffers are null, both vectors are empty *)
    pose proof (Hap Heq) as Hnull.
    assert (l = [] /\ cap = 0%nat) as [-> ->].
    { unfold block_of in Hb. rewrite Hnull in Hb. injection Hb as Hb.
      symmetry in Hb. apply app_eq_nil in Hb as [Hl Hr0].
      apply fmap_nil_inv in Hl. subst l. split; [done|].
      simpl in Hr0. destruct cap; [done|]. done. }
    destruct lr; [|simpl in Hfit; lia].
    exists {| this := {| data_ := {| buffer_ := po; capacity_ := Z.of_nat 0 |};
                         size_ := Z.of_nat 0 |}; mem := w |}.
    split; [reflexivity|]. cbn. repeat split; try done. }
  set (n := length l) in *. set (m := length lr) in *.
  set (k := Nat.min n m).
  assert (Hk : Z.min (Z.of_nat n) (Z.of_nat m) = Z.of_nat (length (take k lr))).
  { rewrite length_take. fold m. lia. }
  (* the common prefix *)
  destruct (copy_n_ok (take k lr) (take k l) w pr po []
              ((Live <$> drop k lr) ++ replicate (capr - m) Raw) []
              ((Live <$> drop k l) ++ replicate (cap - n) Raw)
              (Z.min (Z.of_nat n) (Z.of_nat m)))
    as (w1 & E1 & W1); simpl; try done; try lia.
  { etransitivity; [exact Hbr|]. f_equal.
    rewrite app_assoc, <- fmap_app, take_drop. done. }
  { etransitivity; [exact Hb|]. f_equal.
    rewrite app_assoc, <- fmap_app, take_drop. done. }
  { rewrite !length_take. fold n m. lia. }
  simpl in W1. destruct W1 as (B1 & F1 & C1 & D1).
  assert (Hbr1 : block_of w1 pr = Some ((Live <$> lr) ++ replicate (capr - m) Raw)).
  { rewrite F1 by done. exact Hbr. }
  destruct (Nat.ltb_spec n m) as [Hlt|Hge].
  - (* the source is longer *)
    assert (Hkn : k = n) by lia. clearbody k. subst k.
    destruct (uninitialized_copy_n_ok (drop n lr) w1
                (ptr_add pr (Z.of_nat n)) (ptr_add po (Z.of_nat n))
                (Live <$> take n lr) (replicate (capr - m) Raw)
                (Live <$> take n lr) (replicate (m - n) Raw) (replicate (cap - m) Raw)
                (Z.of_nat m - Z.of_nat n))
      as (w2 & E2 & W2); simpl; try done; try lia.
    { etransitivity; [exact Hbr1|]. f_equal.
      rewrite app_assoc, <- fmap_app, take_drop. done. }
    { rewrite length_fmap, length_take. fold m. lia. }
    { etransitivity; [exact B1|]. f_equal.
      rewrite drop_ge by (fold n; lia). simpl. f_equal.
      rewrite <- replicate_add. f_equal. lia. }
    { rewrite length_fmap, length_take. fold m. lia. }
    { rewrite length_replicate, length_drop. done. }
    { rewrite length_drop. fold m. lia. }
    { rewrite length_drop. fold m. intros j x Hj. apply Hcalm. lia. }
    rewrite length_drop in W2. fold m in W2.
    destruct W2 as (B2 & F2 & C2 & D2).
    exists {| this := {| data_ := {| buffer_ := po; capacity_ := Z.of_nat cap |};
                         size_ := Z.of_nat m |}; mem := w2 |}.
    split.
    + unfold call, V1.copy_assignment. cbn. unfold RawMemory_Capacity. cbn. zb. cbn.
      step_mem E1. zb. cbn.
      erewrite bind_ret; cycle 1.
      { step_plus. step_plus. rewrite size_sub_small by lia.
        apply in_mem_ret. exact E2. }
      reflexivity.
    + cbn. split; [done|]. split; [|split; [|lia]].
      * apply holds_intro; try done.
        etransitivity; [exact B2|]. f_equal.
        rewrite app_assoc, <- fmap_app, take_drop. done.
      * apply holds_intro; try done.
        rewrite F2, F1 by (simpl; done). exact Hbr.
  - (* the source is not longer *)
    assert (Hkm : k = m) by lia. clearbody k. subst k.
    destruct (destroy_n_ok (drop m l) w1 (ptr_add po (Z.of_nat m))
                (Live <$> lr) (replicate (cap - n) Raw) (Z.of_nat n - Z.of_nat m))
      as (w2 & E2 & W2); simpl; try done; try lia.
    { etransitivity; [exact B1|]. f_equal.
      rewrite take_ge by (unfold m; lia). done. }
    { rewrite length_fmap. fold m. lia. }
    { rewrite length_drop. fold n. lia. }
    rewrite length_drop in W2. fold n in W2.
    destruct W2 as (B2 & F2 & C2 & D2).
    exists {| this := {| data_ := {| buffer_ := po; capacity_ := Z.of_nat cap |};
                         size_ := Z.of_nat m |}; mem := w2 |}.
    split.
    + unfold call, V1.copy_assignment. cbn. unfold RawMemory_Capacity. cbn. zb. cbn.
      step_mem E1. zb. cbn.
      rewrite size_sub_small by lia. step_mem E2. reflexivity.
    + cbn. split; [done|]. split; [|split; [|lia]].
      * apply holds_intro; try done.
        etransitivity; [exact B2|]. f_equal. f_equal.
        rewrite <- replicate_add. f_equal. lia.
      * apply holds_intro; try done.
        rewrite F2, F1 by (simpl; done). exact Hbr.
Qed.

End Assignment.

Section Throwing.
Context {T : Type} `{Element T}.
Implicit Types (w : world T) (p q : ptr) (cs : list (slot T)) (vs l : list T) (v : Vector).

(** The loop of the [uninitialized] algorithms when the step that
    follows [k] successful ones throws. *)
Lemma uninitialized_loop_throws (I : nat -> world T -> Prop) (J : world T -> Prop)
    step result k :
  forall n built w,
    (k < n)%nat -> I built w ->
    (forall i w, (built <= i < built + k)%nat -> I i w ->
                 exists w', step (Z.of_nat i) w = Ret tt w' /\ I (S i) w') ->
    (forall w, I (built + k)%nat w ->
               step (Z.of_nat (built + k)) w = Exn w /\
               exists w', destroy_loop result (built + k) w = Ret tt w' /\ J w') ->
    exists w', uninitialized_loop step result built n w = Exn w' /\ J w'.
Proof.
  induction k as [|k IH]; intros n built w Hk HI Hstep Hthrow.
  - destruct n as [|n]; [lia|].
    destruct (Hthrow w) as (E & w' & Ec & HJ); [by rewrite Nat.add_0_r|].
    rewrite Nat.add_0_r in *.
    exists w'. split; [|done]. simpl.
    apply bind_exn. eapply unwind_exn; eauto.
  - destruct n as [|n]; [lia|].
    destruct (Hstep built w) as (w1 & E1 & I1); [lia|done|].
    destruct (IH n (S built) w1) as (w' & E' & HJ); [lia|done| | |].
    + intros i w2 Hi. apply Hstep. lia.
    + intros w2 HI2. replace (S built + k)%nat with (built + S k)%nat in * by lia.
      by apply Hthrow.
    + exists w'. split; [|done]. simpl.
      erewrite bind_ret by (apply unwind_ret; exact E1). exact E'.
Qed.

(** [std::uninitialized_copy_n] between two blocks when the copy of the
    element of index [k] throws: the objects built so far are destroyed
    again. *)
Lemma uninitialized_copy_n_throws vs w src dst P Q D mid E n k x :
  blk src <> blk dst -> 0 <= off src -> 0 <= off dst ->
  block_of w src = Some (P ++ (Live <$> vs) ++ Q) -> length P = Z.to_nat (off src) ->
  block_of w dst = Some (D ++ mid ++ E) -> length D = Z.to_nat (off dst) ->
  length mid = length vs -> n = Z.of_nat (length vs) ->
  vs !! k = Some x ->
  calm w k -> ctor_throws (constructed w + k) x = true ->
  exists w', uninitialized_copy_n src n dst w = Exn w' /\
             writes w w' dst (D ++ replicate k Raw ++ drop k mid ++ E) k k.
Proof.
  intros Hne Hos Hod Hsrc HP Hdst HD Hmid -> Hx Hcalm Hthrow.
  assert (Hk : (k < length vs)%nat) by (eapply lookup_lt_Some; eauto).
  unfold uninitialized_copy_n. rewrite Nat2Z.id.
  apply (uninitialized_loop_throws
    (fun i w' => (i <= length vs)%nat /\
       writes w w' dst (D ++ (Live <$> take i vs) ++ drop i mid ++ E) i 0)
    (fun w' => writes w w' dst (D ++ replicate k Raw ++ drop k mid ++ E) k k)
    (fun i => copy_construct (ptr_add src i) (ptr_add dst i)) dst k (length vs) 0%nat w).
  - done.
  - split; [lia|]. rewrite take_0, drop_0. simpl. by apply writes_refl.
  - intros i w1 Hi (_ & W1).
    assert (is_Some (vs !! i)) as [y Hy] by (apply lookup_lt_is_Some_2; lia).
    assert (is_Some (mid !! i)) as [s Hs] by (apply lookup_lt_is_Some_2; lia).
    assert (Hsrc1 : block_of w1 src = Some (P ++ (Live <$> vs) ++ Q)).
    { rewrite <- Hsrc. eapply writes_other; eauto. }
    unfold copy_construct.
    erewrite bind_ret; cycle 1.
    { eapply (load_ok w1 (ptr_add src (Z.of_nat i))); [exact Hsrc1|simpl; lia|].
      simpl. rewrite lookup_app_r by lia. rewrite lookup_app_l.
      - rewrite list_lookup_fmap.
        replace (Z.to_nat (off src + Z.of_nat i) - length P)%nat with i by lia.
        by rewrite Hy.
      - rewrite length_fmap. lia. }
    destruct (construct_at_ok w1 (ptr_add dst (Z.of_nat i)) _ y (proj1 W1))
      as (w2 & E2 & W2).
    + simpl. lia.
    + simpl. rewrite !length_app, length_fmap, length_take, length_drop. lia.
    + intros j z Hj. apply Hcalm. destruct W1 as (_ & _ & C1 & _). lia.
    + exists w2. split; [exact E2|]. split; [lia|].
      eapply writes_counts; [eapply writes_cells; [eapply writes_trans; [exact W1|exact W2]|]|lia|lia].
      simpl. rewrite (drop_S mid s i Hs), (take_S_r vs i y Hy).
      rewrite app_assoc. rewrite <- (app_comm_cons (drop (S i) mid) E s). rewrite insert_middle.
      * rewrite fmap_app. simpl. by rewrite <- !app_assoc.
      * rewrite length_app, length_fmap, length_take. lia.
  - simpl. intros w1 (_ & W1).
    assert (Hsrc1 : block_of w1 src = Some (P ++ (Live <$> vs) ++ Q)).
    { rewrite <- Hsrc. eapply writes_other; eauto. }
    split.
    + unfold copy_construct.
      erewrite bind_ret; cycle 1.
      { eapply (load_ok w1 (ptr_add src (Z.of_nat k))); [exact Hsrc1|simpl; lia|].
        simpl. rewrite lookup_app_r by lia. rewrite lookup_app_l.
        - rewrite list_lookup_fmap.
          replace (Z.to_nat (off src + Z.of_nat k) - length P)%nat with k by lia.
          by rewrite Hx.
        - rewrite length_fmap. lia. }
      apply construct_at_throws. destruct W1 as (_ & _ & C1 & _).
      rewrite C1. by replace (constructed w + k)%nat with (constructed w + k)%nat by lia.
    + destruct (destroy_loop_ok (take k vs) w1 dst D (drop k mid ++ E)) as (w2 & E2 & W2).
      * exact (proj1 W1).
      * done.
      * done.
      * rewrite length_take in E2, W2.
        replace (k `min` length vs)%nat with k in * by lia.
        exists w2. split; [exact E2|].
        eapply writes_counts; [eapply writes_trans; [exact W1|exact W2]|lia|lia].
Qed.


(** The copy constructor when the copy of the element of index [k]
    throws: nothing is left behind.  (When [operator new] throws before
    that, nothing has changed.) *)
Lemma Vector_copy_throws w other l cap k y :
  holds w other l cap ->
  l !! k = Some y -> calm w k -> ctor_throws (constructed w + k) y = true ->
  exists w',
    Vector_copy other w = Exn w' /\
    (forall q, is_Some (block_of w q) -> block_of w' q = block_of w q) /\
    (new_throws (length (heap w))
                (size_mul (Z.of_nat (length l)) (Z.pos size_of)) = true /\ w' = w \/
     constructed w' = (constructed w + k)%nat /\
     destroyed w' = (destroyed w + k)%nat).
Proof.
  intros (Hs & Hc & Hle & Hmax & Hoff & Hb & Hrep) Hy Hcalm Hthrow.
  destruct other as [[po c] s]. simpl in *. subst s c.
  assert (Hk : (k < length l)%nat) by (eapply lookup_lt_Some; eauto).
  assert (Hrl : representable (Z.of_nat (length l)))
    by (eapply representable_le; [|exact Hrep]; lia).
  destruct (RawMemory_new_or_throw w (Z.of_nat (length l)))
    as [[Ht E0]|(_ & nd & w1 & E1 & Hcn & Hoffn & W1 & Fresh)]; [lia|done| |].
  { exists w. split; [|split; [done|by left]].
    unfold Vector_copy. cbn. by apply bind_exn. }
  destruct nd as [pn cn]. simpl in *. subst cn.
  assert (Hnb : blk po <> blk pn) by (apply Fresh; by eexists).
  rewrite Nat2Z.id in W1.
  pose proof W1 as (B1 & F1 & C1 & D1).
  destruct (uninitialized_copy_n_throws l w1 po pn [] (replicate (cap - length l) Raw)
              [] (replicate (length l) Raw) [] (Z.of_nat (length l)) k y)
    as (w2 & E2 & W2); simpl; try done; try lia.
  { rewrite F1 by done. exact Hb. }
  { etransitivity; [exact B1|]. by rewrite app_nil_r. }
  { by rewrite length_replicate. }
  { intros j z Hj. apply Hcalm. lia. }
  { rewrite <- Hthrow. f_equal. lia. }
  destruct W2 as (B2 & F2 & C2 & D2).
  destruct (RawMemory_destroy_ok w2 {| buffer_ := pn; capacity_ := Z.of_nat (length l) |} _ B2)
    as (w3 & E3 & F3 & C3 & D3); [done|].
  simpl in F3.
  exists w3. split.
  - unfold Vector_copy. cbn. erewrite bind_ret by exact E1. cbn.
    apply bind_exn. eapply unwind_exn; eauto.
  - split; [|right; lia]. intros q Hq.
    assert (blk q <> blk pn) by (by apply Fresh).
    rewrite F3, F2, F1; done.
Qed.

(** Copy assignment by copy and swap when a copy throws: the
    destination is as before. *)
Lemma V1_copy_assignment_throws v w l cap rhs lr capr k y :
  holds w v l cap -> holds w rhs lr capr -> (cap < length lr)%nat ->
  lr !! k = Some y -> calm w k -> ctor_throws (constructed w + k) y = true ->
  exists w',
    call (V1.copy_assignment (Some rhs)) v w = Exn {| this := v; mem := w' |} /\
    holds w' v l cap /\ holds w' rhs lr capr /\
    (constructed w' + destroyed w = constructed w + destroyed w')%nat.
Proof.
  intros Hv Hr Hlt Hy Hcalm Hthrow.
  destruct (Vector_copy_throws w rhs lr capr k y Hr Hy Hcalm Hthrow)
    as (w' & E & F & C).
  assert (Hbal : (constructed w' + destroyed w = constructed w + destroyed w')%nat).
  { destruct C as [[_ ->]|[C D]]; lia. }
  exists w'. split.
  - pose proof Hv as (Hs & Hc & _). pose proof Hr as (Hsr & _).
    unfold call, V1.copy_assignment. cbn. unfold RawMemory_Capacity.
    rewrite Hc, Hsr. zb.
    apply bind_exn. apply in_mem_exn. exact E.
  - split; [|split; [|done]].
    + destruct Hv as (? & ? & ? & ? & ? & Hb & ?). repeat split; try done.
      rewrite F; [done|by eexists].
    + destruct Hr as (? & ? & ? & ? & ? & Hb & ?). repeat split; try done.
      rewrite F; [done|by eexists].
Qed.

(** Copy assignment by copy and swap when [operator new] throws. *)
Lemma V1_copy_assignment_new_throws v w l cap rhs lr capr :
  holds w v l cap -> holds w rhs lr capr -> (cap < length lr)%nat ->
  new_throws (length (heap w))
             (size_mul (Z.of_nat (length lr)) (Z.pos size_of)) = true ->
  call (V1.copy_assignment (Some rhs)) v w = Exn {| this := v; mem := w |}.
Proof.
  intros (Hs & Hc & _) (Hsr & _) Hlt Hthrow.
  unfold call, V1.copy_assignment. cbn. unfold RawMemory_Capacity.
  rewrite Hc, Hsr. zb.
  apply bind_exn. apply in_mem_exn. cbn.
  unfold Vector_copy. apply bind_exn. rewrite Hsr.
  apply RawMemory_new_throws; [lia|done].
Qed.

End Throwing.

Section Removal.
Context {T : Type} `{Element T}.
Implicit Types (w : world T) (p q : ptr) (cs : list (slot T)) (vs l : list T) (v : Vector).

(** Destroying the last element. *)
Lemma pop_trace w po l z cap :
  block_of w po = Some ((Live <$> (l ++ [z])) ++ replicate (cap - length (l ++ [z])) Raw) ->
  off po = 0 -> (length (l ++ [z]) <= cap)%nat ->
  exists w1,
    destroy_at (ptr_add po (Z.of_nat (length l))) w = Ret tt w1 /\
    block_of w1 po = Some ((Live <$> l) ++ replicate (cap - length l) Raw) /\
    constructed w1 = constructed w /\ destroyed w1 = S (destroyed w).
Proof.
  intros Hb Hoff Hle. rewrite length_app in *. simpl in *.
  rewrite fmap_app, <- app_assoc in Hb. simpl in Hb.
  destruct (destroy_at_ok w (ptr_add po (Z.of_nat (length l))) _ z Hb) as (w1 & E1 & W1).
  { simpl. lia. }
  { simpl. apply list_lookup_middle. rewrite length_fmap. lia. }
  exists w1. split; [done|]. destruct W1 as (B1 & _ & C1 & D1).
  split; [|lia]. etransitivity; [exact B1|]. f_equal. simpl.
  rewrite insert_middle by (rewrite length_fmap; lia).
  replace (cap - length l)%nat with (S (cap - (length l + 1))) by lia. done.
Qed.

(** [PopBack] of the second revision. *)
Lemma V2_PopBack_empty v w cap :
  holds w v [] cap -> call V2.PopBack v w = Ret tt {| this := v; mem := w |}.
Proof.
  intros (Hs & _). destruct v as [d s]. simpl in *. subst s. reflexivity.
Qed.

Lemma V2_PopBack_nonempty v w l z cap :
  holds w v (l ++ [z]) cap ->
  exists f,
    call V2.PopBack v w = Ret tt f /\
    data_ (this f) = data_ v /\
    holds (mem f) (this f) l cap /\
    constructed (mem f) = constructed w /\ destroyed (mem f) = S (destroyed w).
Proof.
  intros (Hs & Hc & Hle & Hmax & Hoff & Hb & Hrep).
  destruct v as [[po c] s]. simpl in *. subst s c.
  destruct (pop_trace w po l z cap Hb Hoff Hle) as (w1 & E1 & B1 & C1 & D1).
  rewrite length_app in *. simpl in *.
  exists {| this := {| data_ := {| buffer_ := po; capacity_ := Z.of_nat cap |};
                       size_ := Z.of_nat (length l) |}; mem := w1 |}.
  split.
  - unfold call, V2.PopBack. cbn. zb. cbn.
    rewrite size_sub_small by lia.
    replace (Z.of_nat (length l + 1) - 1) with (Z.of_nat (length l)) by lia.
    step_end. erewrite in_mem_ret by exact E1. reflexivity.
  - cbn. split; [done|]. split; [|done].
    apply holds_intro; try done; lia.
Qed.

(** [PopBack] of the first revision. *)
Lemma V1_PopBack_nonempty v w l z cap :
  holds w v (l ++ [z]) cap ->
  exists f,
    call V1.PopBack v w = Ret tt f /\
    data_ (this f) = data_ v /\
    holds (mem f) (this f) l cap /\
    constructed (mem f) = constructed w /\ destroyed (mem f) = S (destroyed w).
Proof.
  intros (Hs & Hc & Hle & Hmax & Hoff & Hb & Hrep).
  destruct v as [[po c] s]. simpl in *. subst s c.
  destruct (pop_trace w po l z cap Hb Hoff Hle) as (w1 & E1 & B1 & C1 & D1).
  rewrite length_app in *. simpl in *.
  exists {| this := {| data_ := {| buffer_ := po; capacity_ := Z.of_nat cap |};
                       size_ := Z.of_nat (length l) |}; mem := w1 |}.
  split.
  - unfold call, V1.PopBack. cbn.
    rewrite size_sub_small by lia.
    replace (Z.of_nat (length l + 1) - 1) with (Z.of_nat (length l)) by lia.
    step_end. erewrite in_mem_ret by exact E1. reflexivity.
  - cbn. split; [done|]. split; [|done].
    apply holds_intro; try done; lia.
Qed.

(** On an empty vector the first revision lets [size_] wrap around to
    [SIZE_MAX] and then takes [end()]. *)
Lemma V1_PopBack_empty v w cap :
  holds w v [] cap -> call V1.PopBack v w = Undef.
Proof.
  intros (Hs & Hc & Hle & Hmax & Hoff & Hb & Hrep).
  destruct v as [[po c] s]. simpl in *. subst s c.
  unfold call, V1.PopBack. cbn.
  replace (size_sub (Z.of_nat 0) 1) with SIZE_MAX by reflexivity.
  unfold end_, bind, get_data, get_size, RawMemory_plus, assert, bind. cbn.
  destruct (Z.leb_spec SIZE_MAX (Z.of_nat cap)) as [Hfull|Hlt]; [|done].
  cbn. unfold in_mem, destroy_at. cbn.
  rewrite (cell_at_block w (ptr_add po SIZE_MAX) _ Hb) by (simpl; unfold SIZE_MAX; lia).
  simpl. rewrite lookup_ge_None_2; [done|].
  rewrite length_replicate. unfold SIZE_MAX in *. lia.
Qed.

(** Move construction and move assignment touch no element. *)
Lemma Vector_move_ok w v l cap :
  holds w v l cap ->
  holds w (fst (Vector_move v)) l cap /\
  holds w (snd (Vector_move v)) [] 0 /\
  size_ (snd (Vector_move v)) = 0.
Proof.
  intros (Hs & Hc & Hle & Hmax & Hoff & Hb & Hrep).
  destruct v as [[po c] s]. simpl in *.
  repeat split; done.
Qed.

Lemma move_assignment_ok v rhs w :
  call (move_assignment (Some rhs)) v w = Ret (Some v) {| this := rhs; mem := w |}.
Proof. destruct v as [[? ?] ?], rhs as [[? ?] ?]. reflexivity. Qed.

Lemma move_assignment_self v w :
  call (move_assignment None) v w = Ret None {| this := v; mem := w |}.
Proof. reflexivity. Qed.

End Removal.

Section Growth.
Context {T : Type} `{Element T}.
Implicit Types (w : world T) (p q : ptr) (cs : list (slot T)) (vs l : list T) (v : Vector).

Lemma capacity_after_ge n : (n <= @capacity_after n)%nat.
Proof.
  induction n as [|n IH]; [done|]. simpl.
  destruct (Nat.ltb_spec n (capacity_after n)); lia.
Qed.

Lemma capacity_after_changes n :
  capacity_after (S n) <> capacity_after n ->
  n = capacity_after n /\ capacity_after (S n) = Nat.max 1 (2 * n).
Proof.
  pose proof (capacity_after_ge n). simpl.
  destruct (Nat.ltb_spec n (capacity_after n)); [done|]. intros _. lia.
Qed.

Lemma capacity_after_pow2 n :
  (1 <= n)%nat -> capacity_after n = (2 ^ Nat.log2_up n)%nat.
Proof.
  induction n as [|n IH]; [lia|]. intros _.
  destruct n as [|n]; [done|].
  specialize (IH ltac:(lia)).
  change (capacity_after (S (S n))) with
    (if (S n <? capacity_after (S n))%nat then capacity_after (S n)
     else Nat.max 1 (2 * S n)).
  pose proof (capacity_after_ge (S n)) as Hge.
  destruct (Nat.ltb_spec (S n) (capacity_after (S n))) as [Hlt|Hfull].
  - rewrite IH in *. f_equal. apply Nat.le_antisymm.
    + apply Nat.log2_up_le_mono. lia.
    + apply Nat.log2_up_le_pow2; lia.
  - assert (Heq : S n = (2 ^ Nat.log2_up (S n))%nat) by lia.
    rewrite Heq at 2. rewrite Nat.log2_up_succ_pow2 by lia.
    rewrite Nat.pow_succ_r by lia. lia.
Qed.

Lemma quiet_calm w n : quiet w -> calm w n.
Proof. intros Hq k x Hk. apply Hq. lia. Qed.

Lemma quiet_mono w w' : quiet w -> (constructed w <= constructed w')%nat -> quiet w'.
Proof. intros Hq Hle k x Hk. apply Hq. lia. Qed.

Lemma V1_PushBack_spec : roomy -> push_spec V1.PushBack.
Proof.
  intros Hroomy v w l cap x Hv Hsmall Hq.
  pose proof (representable_double _ Hsmall) as Hlt63.
  pose proof (representable_grow _ Hsmall) as HN.
  destruct (Nat.ltb_spec (length l) cap) as [Hlt|Hfull].
  - destruct (V1_EmplaceBack_inplace v w l cap x Hv Hlt) as (f & E & _ & Hf & C & _).
    { by apply quiet_calm. }
    exists f. split; [|split; [done|eapply quiet_mono; [exact Hq|lia]]].
    unfold call, V1.PushBack in *. erewrite bind_ret by exact E. done.
  - destruct (V1_EmplaceBack_realloc v w l cap x Hv Hfull Hsmall Hroomy) as (f & E & Hf & C & _).
    { by apply quiet_calm. }
    exists f. split; [|split; [done|eapply quiet_mono; [exact Hq|lia]]].
    unfold call, V1.PushBack in *. erewrite bind_ret by exact E. done.
Qed.

Lemma V2_PushBack_spec : roomy -> push_spec V2.PushBack.
Proof.
  intros Hroomy v w l cap x Hv Hsmall Hq.
  pose proof (representable_double _ Hsmall) as Hlt63.
  pose proof (representable_grow _ Hsmall) as HN.
  destruct (V2_EmplaceBack_ok v w l cap x Hv Hsmall Hroomy) as (f & E & Hf & C & D).
  { by apply quiet_calm. }
  exists f. split; [|split; [done|eapply quiet_mono; [exact Hq|lia]]].
  unfold call, V2.PushBack in *. erewrite bind_ret by exact E. done.
Qed.

Lemma push_all_ok push :
  push_spec push ->
  forall l2 l1 v w,
    holds w v l1 (capacity_after (length l1)) ->
    representable (2 * Z.of_nat (length l1 + length l2)) -> quiet w ->
    exists f, call (push_all push l2) v w = Ret tt f /\
              holds (mem f) (this f) (l1 ++ l2) (capacity_after (length (l1 ++ l2))) /\
              quiet (mem f).
Proof.
  intros Hpush. induction l2 as [|x l2 IH]; intros l1 v w Hv Hsmall Hq.
  - exists {| this := v; mem := w |}. rewrite app_nil_r. done.
  - simpl in Hsmall.
    destruct (Hpush v w l1 _ x Hv) as (f1 & E1 & H1 & Q1); [|done|].
    { eapply representable_le; [|exact Hsmall]. lia. }
    destruct (IH (l1 ++ [x]) (this f1) (mem f1)) as (f2 & E2 & H2 & Q2).
    + rewrite length_app. simpl. rewrite Nat.add_1_r. exact H1.
    + rewrite length_app. simpl.
      eapply representable_le; [|exact Hsmall]. lia.
    + done.
    + exists f2. rewrite <- app_assoc in H2. split; [|done].
      unfold call in *. simpl. erewrite bind_ret by exact E1.
      destruct f1. exact E2.
Qed.

Lemma holds_default w : holds w Vector_default [] 0.
Proof. repeat split; try done. Qed.

End Growth.

(** * The properties of the vector *)

Section Properties.
Context {T : Type} `{Element T}.
Implicit Types (w : world T) (p q : ptr) (l : list T) (v : Vector).

Lemma holds_load w v l cap i x :
  holds w v l cap -> l !! i = Some x ->
  load (ptr_add (buffer_ (data_ v)) (Z.of_nat i)) w = Ret x w.
Proof.
  intros (Hs & Hc & Hle & Hmax & Hoff & Hb & Hrep) Hx.
  eapply load_ok; [exact Hb|simpl; lia|].
  simpl. rewrite Hoff.
  replace (Z.to_nat (0 + Z.of_nat i)) with i by lia.
  rewrite lookup_app_l by (rewrite length_fmap; eapply lookup_lt_Some; eauto).
  by rewrite list_lookup_fmap, Hx.
Qed.

Lemma inserted_lookup l (x : T) i :
  (i <= length l)%nat -> (take i l ++ x :: drop i l) !! i = Some x.
Proof. intros Hi. apply list_lookup_middle. rewrite length_take. lia. Qed.

Lemma V2_copy_assignment_eq rhs (f : frame T) :
  V2.copy_assignment rhs f = V1.copy_assignment rhs f.
Proof.
  destruct rhs as [rhs|]; [|done].
  unfold V2.copy_assignment, V1.copy_assignment, V2.CopyRhs. cbn.
  destruct (_ <? _); [done|]. reflexivity.
Qed.

Lemma grows_to_intro {A} (m : M (frame T) A) v w a f l cap' c :
  call m v w = Ret a f -> holds (mem f) (this f) l cap' -> Z.of_nat cap' = c ->
  grows_to m v w l c.
Proof.
  intros E Hf Hc. exists a, f. split; [done|].
  pose proof Hf as (_ & Hcf & _). subst c.
  split; [done|]. by rewrite Nat2Z.id.
Qed.

Lemma grows_to_PushBack_V1 x v w l c :
  grows_to (V1.EmplaceBack x) v w l c -> grows_to (V1.PushBack x) v w l c.
Proof.
  intros (a & f & E & Hc). exists tt, f. split; [|done].
  unfold call, V1.PushBack in *. by erewrite bind_ret by exact E.
Qed.

Lemma grows_to_PushBack_V2 x v w l c :
  grows_to (V2.EmplaceBack x) v w l c -> grows_to (V2.PushBack x) v w l c.
Proof.
  intros (a & f & E & Hc). exists tt, f. split; [|done].
  unfold call, V2.PushBack in *. by erewrite bind_ret by exact E.
Qed.

(** C6: an append or insert that finds the buffer full, and whose
    allocation succeeds, leaves the vector in a new buffer of
    [max(1, 2 * size)] slots, holding the old elements and the new one
    at its place; this is so in both revisions, whatever the position
    and the transfer strategy.  Pushing onto an empty vector therefore
    goes through the capacities 1, 2, 4, 8, ... (after [n >= 1] pushes
    the vector holds the [n] elements in a buffer whose capacity is the
    least power of two that is at least [n]), and the capacity changes
    only on a push that finds the buffer full.  The sizes in bytes of
    the buffers are taken to fit [size_t]. *)
Theorem growth_policy v w l cap x i :
  holds w v l cap -> (cap <= length l)%nat -> (i <= length l)%nat ->
  representable (Z.max 1 (2 * Z.of_nat (length l))) -> roomy ->
  calm w (S (S (length l))) ->
  let pos := ptr_add (buffer_ (data_ v)) (Z.of_nat i) in
  let c := Z.max 1 (2 * size_ v) in
  let appended := l ++ [x] in
  let inserted := take i l ++ x :: drop i l in
  (grows_to (V1.PushBack x) v w appended c /\
   grows_to (V1.EmplaceBack x) v w appended c /\
   grows_to (V1.Insert pos x) v w inserted c /\
   grows_to (V1.Emplace pos x) v w inserted c /\
   grows_to (V2.PushBack x) v w appended c /\
   grows_to (V2.EmplaceBack x) v w appended c /\
   grows_to (V2.Insert pos x) v w inserted c /\
   grows_to (V2.Emplace pos x) v w inserted c) /\
  (forall (xs : list T) (w0 : world T),
      representable (2 * Z.of_nat (length xs)) -> quiet w0 ->
      grows_to (push_all V1.PushBack xs) Vector_default w0 xs
               (Z.of_nat (capacity_after (length xs))) /\
      grows_to (push_all V2.PushBack xs) Vector_default w0 xs
               (Z.of_nat (capacity_after (length xs)))) /\
  (forall n, (1 <= n)%nat -> capacity_after n = (2 ^ Nat.log2_up n)%nat) /\
  (forall n, capacity_after (S n) <> capacity_after n ->
             n = capacity_after n /\ capacity_after (S n) = Nat.max 1 (2 * n)).
Proof.
  intros Hv Hfull Hi Hsmall Hroomy Hcalm pos c appended inserted.
  pose proof Hv as (Hs & _).
  assert (Hc : Z.of_nat (Nat.max 1 (2 * length l)) = c) by (unfold c; lia).
  assert (Hif : (if (length l <? cap)%nat then cap else Nat.max 1 (2 * length l))
                = Nat.max 1 (2 * length l)).
  { destruct (Nat.ltb_spec (length l) cap); [lia|done]. }
  assert (G1 : grows_to (V1.EmplaceBack x) v w appended c).
  { destruct (V1_EmplaceBack_realloc v w l cap x Hv Hfull Hsmall Hroomy) as (f & E & Hf & _).
    { eapply calm_le; [exact Hcalm|lia]. }
    eapply grows_to_intro; [exact E|exact Hf|exact Hc]. }
  assert (G2 : grows_to (V1.Emplace pos x) v w inserted c).
  { destruct (V1_Emplace_ok v w l cap x i Hv Hi Hsmall Hroomy Hcalm) as (f & E & Hf & _);
      [auto|].
    rewrite Hif in Hf. eapply grows_to_intro; [exact E|exact Hf|exact Hc]. }
  assert (G3 : grows_to (V2.EmplaceBack x) v w appended c).
  { destruct (V2_EmplaceBack_ok v w l cap x Hv Hsmall Hroomy Hcalm) as (f & E & Hf & _).
    rewrite Hif in Hf. eapply grows_to_intro; [exact E|exact Hf|exact Hc]. }
  assert (G4 : grows_to (V2.Emplace pos x) v w inserted c).
  { destruct (V2_Emplace_ok v w l cap x i Hv Hi Hsmall Hroomy Hcalm) as (f & E & Hf & _);
      [auto|].
    rewrite Hif in Hf. eapply grows_to_intro; [exact E|exact Hf|exact Hc]. }
  split; [|split; [|split]].
  - repeat split; try done.
    + by apply grows_to_PushBack_V1.
    + by apply grows_to_PushBack_V2.
  - intros xs w0 Hxs Hq. split.
    + destruct (push_all_ok V1.PushBack (V1_PushBack_spec Hroomy) xs [] Vector_default w0)
        as (f & E & Hf & _); [apply holds_default|exact Hxs|done|].
      eapply grows_to_intro; [exact E|exact Hf|done].
    + destruct (push_all_ok V2.PushBack (V2_PushBack_spec Hroomy) xs [] Vector_default w0)
        as (f & E & Hf & _); [apply holds_default|exact Hxs|done|].
      eapply grows_to_intro; [exact E|exact Hf|done].
  - apply capacity_after_pow2.
  - apply capacity_after_changes.
Qed.


(** C10: a call of [EmplaceBack], [Emplace] or [Insert] in which no
    constructor throws returns the address of the new element:
    [begin()] plus the index of the insertion point for [Emplace] and
    [Insert], the element of index [size - 1] for [EmplaceBack]; this is
    so when the element is appended in place, when the tail is shifted
    in place, and when the buffer is reallocated.  The call is taken
    to be one whose allocation, if any, succeeds, with buffers of sizes
    in bytes that fit [size_t]. *)
Theorem insertion_returns_new_element v w l cap x i :
  holds w v l cap -> (i <= length l)%nat ->
  representable (Z.max 1 (2 * Z.of_nat (length l))) -> roomy ->
  calm w (S (S (length l))) ->
  transfer_safe = true \/ (cap <= length l)%nat \/ i = length l ->
  let pos := ptr_add (buffer_ (data_ v)) (Z.of_nat i) in
  designates (V1.Emplace pos x) v w (Z.of_nat i) x /\
  designates (V1.Insert pos x) v w (Z.of_nat i) x /\
  designates (V2.Emplace pos x) v w (Z.of_nat i) x /\
  designates (V2.Insert pos x) v w (Z.of_nat i) x /\
  (exists p f, call (V1.EmplaceBack x) v w = Ret p f /\
               p = ptr_add (buffer_ (data_ (this f))) (size_ (this f) - 1) /\
               load p (mem f) = Ret x (mem f)) /\
  (exists p f, call (V2.EmplaceBack x) v w = Ret p f /\
               p = ptr_add (buffer_ (data_ (this f))) (size_ (this f) - 1) /\
               load p (mem f) = Ret x (mem f)).
Proof.
  intros Hv Hi Hsmall Hroomy Hcalm Hcase pos.
  assert (D1 : designates (V1.Emplace pos x) v w (Z.of_nat i) x).
  { destruct (V1_Emplace_ok v w l cap x i Hv Hi Hsmall Hroomy Hcalm Hcase)
      as (f & E & Hf & _).
    eexists _, f. split; [exact E|]. split; [done|]. split.
    - destruct Hf as (Hsf & _). rewrite Hsf, cells_insert by done. lia.
    - eapply holds_load; [exact Hf|]. by apply inserted_lookup. }
  assert (D2 : designates (V2.Emplace pos x) v w (Z.of_nat i) x).
  { destruct (V2_Emplace_ok v w l cap x i Hv Hi Hsmall Hroomy Hcalm Hcase)
      as (f & E & Hf & _).
    eexists _, f. split; [exact E|]. split; [done|]. split.
    - destruct Hf as (Hsf & _). rewrite Hsf, cells_insert by done. lia.
    - eapply holds_load; [exact Hf|]. by apply inserted_lookup. }
  split; [done|]. split; [done|]. split; [done|]. split; [done|]. split.
  - destruct (Nat.ltb_spec (length l) cap) as [Hlt|Hfull].
    + destruct (V1_EmplaceBack_inplace v w l cap x Hv Hlt) as (f & E & Hd & Hf & _).
      { eapply calm_le; [exact Hcalm|lia]. }
      eexists _, f. split; [exact E|]. pose proof Hf as (Hsf & _).
      rewrite length_app in Hsf. simpl in Hsf. split.
      * rewrite Hd. f_equal. lia.
      * rewrite <- Hd. eapply holds_load; [exact Hf|].
        apply list_lookup_middle. done.
    + destruct (V1_EmplaceBack_realloc v w l cap x Hv Hfull Hsmall Hroomy)
        as (f & E & Hf & _).
      { eapply calm_le; [exact Hcalm|lia]. }
      eexists _, f. split; [exact E|]. pose proof Hf as (Hsf & _).
      rewrite length_app in Hsf. simpl in Hsf. split.
      * f_equal. lia.
      * eapply holds_load; [exact Hf|]. apply list_lookup_middle. done.
  - destruct (V2_EmplaceBack_ok v w l cap x Hv Hsmall Hroomy Hcalm) as (f & E & Hf & _).
    eexists _, f. split; [exact E|]. pose proof Hf as (Hsf & _).
    rewrite length_app in Hsf. simpl in Hsf. split.
    + f_equal. lia.
    + eapply holds_load; [exact Hf|]. apply list_lookup_middle. done.
Qed.

Lemma assigned_V2 v w rhs lr capr cap' built ended :
  assigned V1.copy_assignment v w rhs lr capr cap' built ended ->
  assigned V2.copy_assignment v w rhs lr capr cap' built ended.
Proof.
  intros (f & E & Hf). exists f. split; [|done].
  unfold call in *. by rewrite V2_copy_assignment_eq.
Qed.

Lemma unmodified_V2 v w l cap rhs lr capr :
  unmodified V1.copy_assignment v w l cap rhs lr capr ->
  unmodified V2.copy_assignment v w l cap rhs lr capr.
Proof.
  intros (w' & E & Hf). exists w'. split; [|done].
  unfold call in *. by rewrite V2_copy_assignment_eq.
Qed.

(** C8: copy assignment from another vector, in both revisions.  When
    no constructor throws it returns, the destination holds the
    elements of the source, and the source is as before.  If the source
    is longer than the capacity (and the allocation succeeds), the
    destination gets a buffer of exactly the size of the source, every
    element of the source has been copy-constructed and every old
    element destroyed (a full copy, swapped in); otherwise the buffer
    stays, and the only constructions are those of the elements the
    source has in excess, the only destructions those of the elements
    the destination had in excess (the common prefix is assigned).  If
    the source is longer than the capacity and a copy throws, or the
    allocation does, the destination is as it was. *)
Theorem copy_assignment_spec v w l cap rhs lr capr :
  holds w v l cap -> holds w rhs lr capr -> apart v rhs ->
  (calm w (length lr) ->
   ((cap < length lr)%nat -> roomy ->
    assigned V1.copy_assignment v w rhs lr capr (length lr) (length lr) (length l) /\
    assigned V2.copy_assignment v w rhs lr capr (length lr) (length lr) (length l)) /\
   ((length lr <= cap)%nat ->
    assigned V1.copy_assignment v w rhs lr capr cap
             (length lr - length l) (length l - length lr) /\
    assigned V2.copy_assignment v w rhs lr capr cap
             (length lr - length l) (length l - length lr) /\
    (forall f, call (V1.copy_assignment (Some rhs)) v w = Ret tt f ->
               data_ (this f) = data_ v) /\
    (forall f, call (V2.copy_assignment (Some rhs)) v w = Ret tt f ->
               data_ (this f) = data_ v))) /\
  (forall k y,
      (cap < length lr)%nat -> lr !! k = Some y -> calm w k ->
      ctor_throws (constructed w + k) y = true ->
      unmodified V1.copy_assignment v w l cap rhs lr capr /\
      unmodified V2.copy_assignment v w l cap rhs lr capr) /\
  ((cap < length lr)%nat ->
   new_throws (length (heap w))
              (size_mul (Z.of_nat (length lr)) (Z.pos size_of)) = true ->
   unmodified V1.copy_assignment v w l cap rhs lr capr /\
   unmodified V2.copy_assignment v w l cap rhs lr capr).
Proof.
  intros Hv Hr Hap. split; [|split].
  - intros Hcalm. split.
    + intros Hlt Hroomy.
      assert (A : assigned V1.copy_assignment v w rhs lr capr
                           (length lr) (length lr) (length l)).
      { destruct (V1_copy_assignment_swap v w l cap rhs lr capr Hv Hr Hap Hlt Hroomy Hcalm)
          as (f & E & Hf & Hrf & C & D).
        by exists f. }
      split; [done|by apply assigned_V2].
    + intros Hfit.
      destruct (V1_copy_assignment_inplace v w l cap rhs lr capr Hv Hr Hap Hfit)
        as (f & E & Hd & Hf & Hrf & C & D).
      { eapply calm_le; [exact Hcalm|lia]. }
      assert (A : assigned V1.copy_assignment v w rhs lr capr cap
                           (length lr - length l) (length l - length lr)).
      { by exists f. }
      split; [done|]. split; [by apply assigned_V2|]. split.
      * intros f' E'. rewrite E in E'. by injection E' as <-.
      * intros f' E'. unfold call in *. rewrite V2_copy_assignment_eq, E in E'.
        by injection E' as <-.
  - intros k y Hlt Hy Hcalm Hthrow.
    assert (U : unmodified V1.copy_assignment v w l cap rhs lr capr).
    { destruct (V1_copy_assignment_throws v w l cap rhs lr capr k y Hv Hr Hlt Hy Hcalm Hthrow)
        as (w' & E & Hv' & Hr' & C).
      by exists w'. }
    split; [done|by apply unmodified_V2].
  - intros Hlt Hthrow.
    assert (U : unmodified V1.copy_assignment v w l cap rhs lr capr).
    { exists w. split; [|done].
      exact (V1_copy_assignment_new_throws v w l cap rhs lr capr Hv Hr Hlt Hthrow). }
    split; [done|by apply unmodified_V2].
Qed.

(** C9, as amended: move construction leaves the source empty and the
    new vector holding the elements of the source; move assignment from
    another vector exchanges the two vectors, so that the destination
    is what the source was and the source is what the destination was;
    move assignment of a vector to itself changes nothing.  All of them
    return, and none touches the store: no element is constructed or
    destroyed. *)
Theorem move_spec w src l cap :
  holds w src l cap ->
  (holds w (fst (Vector_move src)) l cap /\
   holds w (snd (Vector_move src)) [] 0 /\
   size_ (snd (Vector_move src)) = 0) /\
  (forall dst ld capd,
      holds w dst ld capd ->
      exists src' f,
        call (move_assignment (Some src)) dst w = Ret (Some src') f /\
        mem f = w /\
        holds w (this f) l cap /\ holds w src' ld capd) /\
  call (move_assignment None) src w = Ret None {| this := src; mem := w |}.
Proof.
  intros Hsrc. split; [by apply Vector_move_ok|]. split.
  - intros dst ld capd Hdst. exists dst, {| this := src; mem := w |}.
    split; [apply move_assignment_ok|]. done.
  - apply move_assignment_self.
Qed.

End Properties.

(** ** The defects, on concrete vectors *)

Section CountingElement.
#[local] Existing Instance throws_fifth.

(** C1: a copy that throws while [EmplaceBack] or [Insert] reallocates
    leaves the vector as it was, but not every object built during the
    call is destroyed.  With a counting element that throws on the
    fifth constructor call: after [PushBack(1)], [PushBack(2)] three
    objects have been built; [EmplaceBack(3)] builds the new element
    in the new buffer (fourth call) and throws when copying the first
    element (fifth call); the vector is [1, 2] with capacity 2 as
    before, four objects have been built and one destroyed, and the new
    buffer is gone together with the element 3, which was never
    destroyed: when the vector itself is destroyed the counts are four
    constructions and three destructions.  Likewise [Insert] in the
    middle of a full vector, when the copy of the suffix throws, leaves
    the new element and the copied prefix undestroyed (four
    constructions, no destruction, two elements in the vector). *)
Theorem failed_copy_leaks_elements :
  from_scratch (V1.PushBack 1;;; V1.PushBack 2;;; V1.EmplaceBack 3) =
    Exn {| this := {| data_ := {| buffer_ := {| blk := Some 1%nat; off := 0 |};
                                  capacity_ := 2 |};
                      size_ := 2 |};
           mem := {| heap := [None; Some [Live 1; Live 2]; None];
                     constructed := 4; destroyed := 1 |} |} /\
  Vector_destroy
    {| data_ := {| buffer_ := {| blk := Some 1%nat; off := 0 |}; capacity_ := 2 |};
       size_ := 2 |}
    {| heap := [None; Some [Live 1; Live 2]; None]; constructed := 4; destroyed := 1 |} =
    Ret tt {| heap := [None; None; None]; constructed := 4; destroyed := 3 |} /\
  from_scratch (V1.Reserve 2;;; V1.PushBack 1;;; V1.PushBack 2;;;
                do b <- begin_; V1.Insert (ptr_add b 1) 9) =
    Exn {| this := {| data_ := {| buffer_ := {| blk := Some 0%nat; off := 0 |};
                                  capacity_ := 2 |};
                      size_ := 2 |};
           mem := {| heap := [Some [Live 1; Live 2]; None];
                     constructed := 4; destroyed := 0 |} |}.
Proof. repeat split; vm_compute; reflexivity. Qed.

End CountingElement.

Section PlainElement.
#[local] Existing Instance plain.

(** C2: [Erase] does not shift the elements that follow the erased one.
    First revision: [Erase(begin() + 1)] on [10, 20, 30] runs its loop
    from [pos] to [end() - (pos - begin() + 1)], which is [pos] itself,
    moves nothing and destroys the last element: the vector is
    [10, 20], not [10, 30] (at [begin()] the bound happens to be
    [end() - 1] and the result is right).  Second revision:
    [Erase(begin())] on [10, 20, 30] transfers [pos - begin() + 1 = 1]
    element and destroys the last one: the vector is [20, 20], not
    [20, 30]; on a vector of one element it reads the slot at
    [end()]. *)
Theorem Erase_keeps_wrong_elements :
  elements_after
    (from_scratch (V1.PushBack 10;;; V1.PushBack 20;;; V1.PushBack 30;;;
                   do b <- begin_; V1.Erase (ptr_add b 1))) = Some [10; 20] /\
  elements_after
    (from_scratch (V1.PushBack 10;;; V1.PushBack 20;;; V1.PushBack 30;;;
                   do b <- begin_; V1.Erase b)) = Some [20; 30] /\
  elements_after
    (from_scratch (V2.PushBack 10;;; V2.PushBack 20;;; V2.PushBack 30;;;
                   do b <- begin_; V2.Erase b)) = Some [20; 20] /\
  from_scratch (V2.PushBack 10;;; do b <- begin_; V2.Erase b) = Undef.
Proof. repeat split; vm_compute; reflexivity. Qed.

(** C3: [PopBack] of the first revision on an empty vector is not a
    no-op: it decrements [size_] from 0, which wraps around to
    [SIZE_MAX], and then takes [end()], whose assertion
    [offset <= capacity_] fails.  The second revision guards the
    decrement and is a no-op. *)
Theorem PopBack_on_empty_wraps :
  from_scratch (T := Z) V1.PopBack = Undef /\
  size_sub 0 1 = SIZE_MAX /\
  from_scratch (T := Z) V2.PopBack = Ret tt {| this := Vector_default; mem := empty_world |}.
Proof. repeat split; vm_compute; reflexivity. Qed.


(** C9, counterexample: move assignment of a vector of one element to a
    vector of two gives the source the two elements of the destination;
    the source is not left empty. *)
Lemma move_assignment_source_not_empty :
  holds pair_world first_vector [1; 2] 2 /\
  holds pair_world second_vector [7] 1 /\
  call (move_assignment (Some second_vector)) first_vector pair_world =
    Ret (Some first_vector) {| this := second_vector; mem := pair_world |} /\
  size_ first_vector <> 0.
Proof. repeat split; try reflexivity; try (vm_compute; congruence). Qed.

End PlainElement.

Section CopiedElement.
#[local] Existing Instance copied.

(** C5: for an element type whose transfers copy, [Insert] before
    [end()] with spare capacity is undefined in both revisions: after
    [PushBack(1)], [PushBack(2)], [PushBack(3)] (capacity 4),
    [Insert(begin() + 1, 99)] builds the temporary and then assigns the
    last element to the slot at [end()], where no object lives. *)
Theorem Insert_in_place_assigns_to_raw_slot :
  from_scratch (V1.PushBack 1;;; V1.PushBack 2;;; V1.PushBack 3;;;
                do b <- begin_; V1.Insert (ptr_add b 1) 99) = Undef /\
  from_scratch (V2.PushBack 1;;; V2.PushBack 2;;; V2.PushBack 3;;;
                do b <- begin_; V2.Insert (ptr_add b 1) 99) = Undef.
Proof. split; vm_compute; reflexivity. Qed.

(** C4: public mutations of the first revision that do not end in a
    state at all, for an element type whose transfers copy.  [Erase] of
    the last of two elements walks from [pos] towards [end() - 2],
    which lies before [pos], and reads the slot after the last one of
    the buffer; [PopBack] on an empty vector lets [size_] wrap around
    to [SIZE_MAX], above the capacity, and takes [end()]; [Insert]
    before [end()] with spare capacity assigns to the raw slot at
    [end()].  (The first two are the same for every element type.) *)
Theorem mutations_without_result :
  from_scratch (V1.PushBack 10;;; V1.PushBack 20;;;
                do b <- begin_; V1.Erase (ptr_add b 1)) = Undef /\
  from_scratch (T := Z) V1.PopBack = Undef /\
  from_scratch (V1.Reserve 4;;; V1.PushBack 1;;; V1.PushBack 2;;;
                do b <- begin_; V1.Insert b 9) = Undef.
Proof. repeat split; vm_compute; reflexivity. Qed.

End CopiedElement.

(** ** The theorems at concrete vectors *)

Section Witnesses.
#[local] Existing Instance plain.

Lemma growth_policy_witness :
  holds pair_world first_vector [1; 2] 2 /\
  (2 <= length [1; 2])%nat /\ (1 <= length [1; 2])%nat /\
  representable (Z.max 1 (2 * Z.of_nat (length [1; 2]))) /\ roomy /\
  calm pair_world (S (S (length [1; 2]))) /\
  grows_to (V1.PushBack 9) first_vector pair_world [1; 2; 9] 4 /\
  grows_to (V2.Insert (ptr_add (buffer_ (data_ first_vector)) 1) 9)
           first_vector pair_world [1; 9; 2] 4 /\
  representable (2 * Z.of_nat (length [1; 2; 3; 4; 5])) /\
  quiet (T := Z) empty_world /\
  grows_to (push_all V1.PushBack [1; 2; 3; 4; 5]) Vector_default empty_world
           [1; 2; 3; 4; 5] 8.
Proof.
  assert (Hv : holds pair_world first_vector [1; 2] 2).
  { repeat split; try reflexivity; try (vm_compute; congruence); simpl; lia. }
  assert (Hr : representable (Z.max 1 (2 * Z.of_nat (length [1; 2]))))
    by (vm_compute; congruence).
  assert (Hroomy : roomy) by (intros b n; reflexivity).
  assert (Hc : calm pair_world (S (S (length [1; 2])))) by (intros k v _; reflexivity).
  assert (Hxs : representable (2 * Z.of_nat (length [1; 2; 3; 4; 5])))
    by (vm_compute; congruence).
  assert (Hq : quiet (T := Z) empty_world) by (intros k v _; reflexivity).
  split; [exact Hv|]. split; [simpl; lia|]. split; [simpl; lia|].
  split; [exact Hr|]. split; [exact Hroomy|]. split; [exact Hc|].
  destruct (growth_policy first_vector pair_world [1; 2] 2%nat 9 1%nat Hv)
    as ((G1 & _ & _ & _ & _ & _ & G7 & _) & Hseq & _);
    [simpl; lia|simpl; lia|exact Hr|exact Hroomy|exact Hc|].
  split; [exact G1|]. split; [exact G7|].
  split; [exact Hxs|]. split; [exact Hq|].
  destruct (Hseq [1; 2; 3; 4; 5] empty_world Hxs Hq) as (S1 & _).
  exact S1.
Defined.


Lemma copy_assignment_spec_witness :
  holds pair_world second_vector [7] 1 /\
  holds pair_world first_vector [1; 2] 2 /\
  apart second_vector first_vector /\
  calm pair_world (length [1; 2]) /\ roomy /\
  assigned V1.copy_assignment second_vector pair_world first_vector [1; 2] 2 2 2 1 /\
  assigned V2.copy_assignment first_vector pair_world second_vector [7] 1 2 0 1 /\
  unmodified (@V2.copy_assignment Z throws_fifth)
             second_vector pair_world [7] 1 first_vector [1; 2] 2 /\
  unmodified (@V1.copy_assignment Z starved)
             second_vector pair_world [7] 1 first_vector [1; 2] 2.
Proof.
  assert (H1 : holds pair_world second_vector [7] 1).
  { repeat split; try reflexivity; try (vm_compute; congruence); simpl; lia. }
  assert (H2 : holds pair_world first_vector [1; 2] 2).
  { repeat split; try reflexivity; try (vm_compute; congruence); simpl; lia. }
  assert (H1' : holds (H := throws_fifth) pair_world second_vector [7] 1).
  { repeat split; try reflexivity; try (vm_compute; congruence); simpl; lia. }
  assert (H2' : holds (H := throws_fifth) pair_world first_vector [1; 2] 2).
  { repeat split; try reflexivity; try (vm_compute; congruence); simpl; lia. }
  assert (H1s : holds (H := starved) pair_world second_vector [7] 1).
  { repeat split; try reflexivity; try (vm_compute; congruence); simpl; lia. }
  assert (H2s : holds (H := starved) pair_world first_vector [1; 2] 2).
  { repeat split; try reflexivity; try (vm_compute; congruence); simpl; lia. }
  assert (A12 : apart second_vector first_vector) by (intros E; vm_compute in E; congruence).
  assert (A21 : apart first_vector second_vector) by (intros E; vm_compute in E; congruence).
  assert (Hc : calm pair_world (length [1; 2])) by (intros k v _; reflexivity).
  assert (Hroomy : roomy) by (intros b n; reflexivity).
  split; [exact H1|]. split; [exact H2|]. split; [exact A12|].
  split; [exact Hc|]. split; [exact Hroomy|].
  split; [|split; [|split]].
  - destruct (copy_assignment_spec second_vector pair_world [7] 1%nat first_vector [1; 2] 2%nat
                H1 H2 A12) as (Hok & _).
    destruct (Hok Hc) as (Hswap & _).
    apply Hswap; [simpl; lia|exact Hroomy].
  - destruct (copy_assignment_spec
                first_vector pair_world [1; 2] 2%nat second_vector [7] 1%nat
                H2 H1 A21) as (Hok & _).
    destruct Hok as (_ & Hfit); [intros k v _; reflexivity|].
    apply Hfit. simpl. lia.
  - destruct (copy_assignment_spec (H := throws_fifth)
                second_vector pair_world [7] 1%nat first_vector [1; 2] 2%nat
                H1' H2' A12) as (_ & Hthrow & _).
    apply (Hthrow 0%nat 1); [simpl; lia|reflexivity|intros k v Hk; lia|reflexivity].
  - destruct (copy_assignment_spec (H := starved)
                second_vector pair_world [7] 1%nat first_vector [1; 2] 2%nat
                H1s H2s A12) as (_ & _ & Hfail).
    apply Hfail; [simpl; lia|reflexivity].
Defined.

Lemma move_spec_witness :
  holds pair_world first_vector [1; 2] 2 /\
  (holds pair_world (fst (Vector_move first_vector)) [1; 2] 2 /\
   holds pair_world (snd (Vector_move first_vector)) [] 0 /\
   size_ (snd (Vector_move first_vector)) = 0) /\
  (exists src' f,
      call (move_assignment (Some first_vector)) second_vector pair_world =
        Ret (Some src') f /\
      mem f = pair_world /\
      holds pair_world (this f) [1; 2] 2 /\ holds pair_world src' [7] 1).
Proof.
  assert (H1 : holds pair_world second_vector [7] 1).
  { repeat split; try reflexivity; try (vm_compute; congruence); simpl; lia. }
  assert (H2 : holds pair_world first_vector [1; 2] 2).
  { repeat split; try reflexivity; try (vm_compute; congruence); simpl; lia. }
  split; [exact H2|].
  destruct (move_spec pair_world first_vector [1; 2] 2%nat H2) as (Hctor & Hassign & _).
  split; [exact Hctor|]. exact (Hassign second_vector [7] 1%nat H1).
Defined.

Lemma insertion_returns_new_element_witness :
  holds sample_world sample_vector [5] 2 /\ (0 <= length [5])%nat /\
  representable (Z.max 1 (2 * Z.of_nat (length [5]))) /\ roomy /\
  calm sample_world (S (S (length [5]))) /\
  (transfer_safe = true \/ (2 <= length [5])%nat \/ 0%nat = length [5]) /\
  designates (V1.Insert (ptr_add (buffer_ (data_ sample_vector)) (Z.of_nat 0)) 9)
             sample_vector sample_world (Z.of_nat 0) 9 /\
  designates (V2.Emplace (ptr_add (buffer_ (data_ sample_vector)) (Z.of_nat 0)) 9)
             sample_vector sample_world (Z.of_nat 0) 9.
Proof.
  assert (Hv : holds sample_world sample_vector [5] 2).
  { repeat split; try reflexivity; try (vm_compute; congruence); simpl; lia. }
  assert (Hc : calm sample_world (S (S (length [5])))) by (intros k v _; reflexivity).
  assert (Hs : transfer_safe = true \/ (2 <= length [5])%nat \/ 0%nat = length [5])
    by (left; reflexivity).
  assert (Hr : representable (Z.max 1 (2 * Z.of_nat (length [5]))))
    by (vm_compute; congruence).
  assert (Hroomy : roomy) by (intros b n; reflexivity).
  split; [exact Hv|]. split; [simpl; lia|]. split; [exact Hr|]. split; [exact Hroomy|].
  split; [exact Hc|]. split; [exact Hs|].
  destruct (insertion_returns_new_element sample_vector sample_world [5] 2%nat 9 0%nat Hv)
    as (_ & D2 & D3 & _); [simpl; lia|exact Hr|exact Hroomy|exact Hc|exact Hs|].
  split; [exact D2|exact D3].
Defined.

End Witnesses.

(** * Further properties of the operations *)

(** ** Construction and destruction *)

Section Construction.
Context {T : Type} `{Element T}.
Implicit Types (w : world T) (p q : ptr) (cs : list (slot T)) (vs l : list T) (v : Vector).

Lemma live_replicate_shift (x : T) n (R : list (slot T)) :
  (Live <$> replicate n x) ++ Live x :: R = Live x :: (Live <$> replicate n x) ++ R.
Proof. induction n as [|n IH]; [done|]. cbn [replicate]. rewrite fmap_cons. simpl. by f_equal. Qed.

(** [std::uninitialized_value_construct_n] over [n] slots of a block. *)
Lemma uninitialized_value_construct_n_ok w p D mid E n :
  0 <= off p ->
  block_of w p = Some (D ++ mid ++ E) -> length D = Z.to_nat (off p) ->
  length mid = n -> calm w n ->
  exists w', uninitialized_value_construct_n p (Z.of_nat n) w = Ret tt w' /\
             writes w w' p (D ++ (Live <$> replicate n value_init) ++ E) n 0.
Proof.
  intros Hop Hb HD Hmid Hcalm.
  unfold uninitialized_value_construct_n. rewrite Nat2Z.id.
  destruct (uninitialized_loop_ok
    (fun i w' => (i <= n)%nat /\
       writes w w' p (D ++ (Live <$> replicate i value_init) ++ drop i mid ++ E) i 0)
    (fun i => construct_at (ptr_add p i) value_init) p n 0%nat w)
    as (w' & E' & _ & W').
  - split; [lia|]. rewrite drop_0. simpl. by apply writes_refl.
  - intros i w1 Hi (_ & W1).
    assert (is_Some (mid !! i)) as [y Hy] by (apply lookup_lt_is_Some_2; lia).
    destruct (construct_at_ok w1 (ptr_add p (Z.of_nat i)) _ value_init (proj1 W1))
      as (w2 & E2 & W2).
    + simpl. lia.
    + simpl. rewrite !length_app, length_fmap, length_replicate, length_drop. lia.
    + intros j z Hj. apply Hcalm. destruct W1 as (_ & _ & C1 & _). lia.
    + exists w2. split; [exact E2|]. split; [lia|].
      eapply writes_counts; [eapply writes_cells; [eapply writes_trans; [exact W1|exact W2]|]|lia|lia].
      simpl. rewrite (drop_S mid y i Hy).
      rewrite app_assoc. rewrite <- (app_comm_cons (drop (S i) mid) E y). rewrite insert_middle.
      * rewrite <- app_assoc. f_equal. apply live_replicate_shift.
      * rewrite length_app, length_fmap, length_replicate. lia.
  - exists w'. split; [exact E'|].
    simpl in W'. rewrite drop_ge in W' by lia. exact W'.
Qed.

(** The same when the construction of the object of index [k] throws:
    the objects built so far are destroyed again. *)
Lemma uninitialized_value_construct_n_throws w p D mid E n k :
  0 <= off p ->
  block_of w p = Some (D ++ mid ++ E) -> length D = Z.to_nat (off p) ->
  length mid = n -> (k < n)%nat ->
  calm w k -> ctor_throws (constructed w + k) value_init = true ->
  exists w', uninitialized_value_construct_n p (Z.of_nat n) w = Exn w' /\
             writes w w' p (D ++ replicate k Raw ++ drop k mid ++ E) k k.
Proof.
  intros Hop Hb HD Hmid Hk Hcalm Hthrow.
  unfold uninitialized_value_construct_n. rewrite Nat2Z.id.
  apply (uninitialized_loop_throws
    (fun i w' => (i <= n)%nat /\
       writes w w' p (D ++ (Live <$> replicate i value_init) ++ drop i mid ++ E) i 0)
    (fun w' => writes w w' p (D ++ replicate k Raw ++ drop k mid ++ E) k k)
    (fun i => construct_at (ptr_add p i) value_init) p k n 0%nat w).
  - done.
  - split; [lia|]. rewrite drop_0. simpl. by apply writes_refl.
  - intros i w1 Hi (_ & W1).
    assert (is_Some (mid !! i)) as [y Hy] by (apply lookup_lt_is_Some_2; lia).
    destruct (construct_at_ok w1 (ptr_add p (Z.of_nat i)) _ value_init (proj1 W1))
      as (w2 & E2 & W2).
    + simpl. lia.
    + simpl. rewrite !length_app, length_fmap, length_replicate, length_drop. lia.
    + intros j z Hj. apply Hcalm. destruct W1 as (_ & _ & C1 & _). lia.
    + exists w2. split; [exact E2|]. split; [lia|].
      eapply writes_counts; [eapply writes_cells; [eapply writes_trans; [exact W1|exact W2]|]|lia|lia].
      simpl. rewrite (drop_S mid y i Hy).
      rewrite app_assoc. rewrite <- (app_comm_cons (drop (S i) mid) E y). rewrite insert_middle.
      * rewrite <- app_assoc. f_equal. apply live_replicate_shift.
      * rewrite length_app, length_fmap, length_replicate. lia.
  - simpl. intros w1 (_ & W1). split.
    + apply construct_at_throws. destruct W1 as (_ & _ & C1 & _). by rewrite C1.
    + destruct (destroy_loop_ok (replicate k value_init) w1 p D (drop k mid ++ E))
        as (w2 & E2 & W2).
      * exact (proj1 W1).
      * done.
      * done.
      * rewrite length_replicate in E2, W2.
        exists w2. split; [exact E2|].
        eapply writes_counts; [eapply writes_trans; [exact W1|exact W2]|lia|lia].
Qed.

(** The destructor of [RawMemory] releases the block: no pointer into
    it finds storage afterwards. *)
Lemma RawMemory_destroy_released w m cs :
  block_of w (buffer_ m) = Some cs -> off (buffer_ m) = 0 ->
  exists w', RawMemory_destroy m w = Ret tt w' /\
    (forall q, blk q <> blk (buffer_ m) -> block_of w' q = block_of w q) /\
    (forall q, blk q = blk (buffer_ m) -> blk q <> None -> block_of w' q = None) /\
    constructed w' = constructed w /\ destroyed w' = destroyed w.
Proof.
  intros Hb Hoff. unfold RawMemory_destroy, Deallocate.
  unfold block_of in *. destruct (blk (buffer_ m)) as [b|] eqn:Hblk.
  - rewrite Hb, Hoff. simpl. eexists. split; [done|]. simpl.
    split; [|split; [|done]].
    + intros q Hq. destruct (blk q) as [b'|]; [|done].
      unfold block_at. simpl. rewrite list_lookup_insert_ne by congruence. done.
    + intros q Hq _. rewrite Hq. unfold block_at in *. simpl.
      destruct (heap w !! b) as [o|] eqn:Hh; [|done].
      rewrite list_lookup_insert_eq; [done|]. eapply lookup_lt_Some; eauto.
  - rewrite Hoff. simpl. eexists. split; [done|]. split; [done|]. split; [|done].
    intros q Hq1 Hq2. congruence.
Qed.

(** Storage that has just been allocated was not there before. *)
Lemma fresh_block_none w q p :
  (forall r, is_Some (block_of w r) -> blk r <> blk p) ->
  blk q = blk p -> block_of w q = None.
Proof.
  intros Fresh Hq. destruct (block_of w q) as [cs|] eqn:Hb; [|done].
  exfalso. apply (Fresh q); [by eexists|done].
Qed.

(** [Vector(size)] when every construction succeeds. *)
Lemma Vector_sized_ok w n :
  representable (Z.of_nat n) -> roomy -> calm w n ->
  exists v w',
    Vector_sized (Z.of_nat n) w = Ret v w' /\
    holds w' v (replicate n value_init) n /\
    (forall q, is_Some (block_of w q) -> block_of w' q = block_of w q) /\
    constructed w' = (constructed w + n)%nat /\
    destroyed w' = destroyed w.
Proof.
  intros Hrep Hroomy Hcalm.
  pose proof (representable_max _ Hrep) as Hmax.
  destruct (decide (n = 0%nat)) as [->|Hn].
  - exists Vector_default, w. split; [reflexivity|].
    split; [|by repeat split; try lia].
    repeat split; simpl; try done; lia.
  - destruct (RawMemory_new_ok w (Z.of_nat n))
      as (nd & w1 & E1 & Hcn & Hoffn & W1 & Fresh); [lia|done|done|].
    destruct nd as [pn cn]. simpl in *. subst cn.
    rewrite Nat2Z.id in W1.
    destruct (uninitialized_value_construct_n_ok w1 pn [] (replicate n Raw) [] n)
      as (w2 & E2 & W2); simpl; try done; try lia.
    { etransitivity; [exact (proj1 W1)|]. by rewrite app_nil_r. }
    { by rewrite length_replicate. }
    { eapply (writes_calm w w1); [exact W1|exact Hcalm]. }
    exists {| data_ := {| buffer_ := pn; capacity_ := Z.of_nat n |};
              size_ := Z.of_nat n |}, w2.
    destruct W1 as (_ & F1 & C1 & D1). destruct W2 as (B2 & F2 & C2 & D2).
    split.
    + unfold Vector_sized. cbn.
      erewrite bind_ret by exact E1. cbn.
      erewrite bind_ret by (apply unwind_ret; exact E2). reflexivity.
    + split; [|split; [|lia]].
      * apply holds_intro; try done; try lia.
        -- by rewrite length_replicate.
        -- rewrite length_replicate. lia.
        -- etransitivity; [exact B2|]. f_equal.
           rewrite length_replicate, Nat.sub_diag. simpl. by rewrite app_nil_r.
      * intros q Hq. rewrite F2, F1; try done; by apply Fresh.
Qed.

(** [Vector(size)] when the construction of the element of index [k]
    throws: the elements built so far are destroyed, the buffer is
    released, and the store is as before. *)
Lemma Vector_sized_throws w n k :
  representable (Z.of_nat n) -> roomy ->
  (k < n)%nat -> calm w k -> ctor_throws (constructed w + k) value_init = true ->
  exists w',
    Vector_sized (Z.of_nat n) w = Exn w' /\
    (forall q, block_of w' q = block_of w q) /\
    constructed w' = (constructed w + k)%nat /\
    destroyed w' = (destroyed w + k)%nat.
Proof.
  intros Hrep Hroomy Hk Hcalm Hthrow.
  destruct (RawMemory_new_ok w (Z.of_nat n))
    as (nd & w1 & E1 & Hcn & Hoffn & W1 & Fresh); [lia|done|done|].
  assert (Hnpos : 0 < Z.of_nat n) by lia.
  pose proof (RawMemory_new_block w _ _ _ Hnpos E1) as Hsome.
  destruct nd as [pn cn]. simpl in *. subst cn.
  rewrite Nat2Z.id in W1.
  destruct (uninitialized_value_construct_n_throws w1 pn [] (replicate n Raw) [] n k)
    as (w2 & E2 & W2); simpl; try done; try lia.
  { etransitivity; [exact (proj1 W1)|]. by rewrite app_nil_r. }
  { by rewrite length_replicate. }
  { eapply (writes_calm w w1); [exact W1|exact Hcalm]. }
  { destruct W1 as (_ & _ & C1 & _). rewrite C1. by rewrite Nat.add_0_r. }
  destruct W1 as (B1 & F1 & C1 & D1). destruct W2 as (B2 & F2 & C2 & D2).
  destruct (RawMemory_destroy_released w2 {| buffer_ := pn; capacity_ := Z.of_nat n |} _ B2)
    as (w3 & E3 & F3 & R3 & C3 & D3); [done|].
  simpl in *.
  exists w3. split.
  - unfold Vector_sized. cbn.
    erewrite bind_ret by exact E1. cbn.
    apply bind_exn. eapply unwind_exn; [exact E2|exact E3].
  - split; [|lia].
    intros q. destruct (decide (blk q = blk pn)) as [Heq|Hne].
    + rewrite (fresh_block_none w q pn Fresh Heq).
      apply R3; [done|]. by rewrite Heq.
    + rewrite F3, F2, F1; done.
Qed.

(** The copy constructor, for every source: the copy has a buffer of its
    own of exactly [size] slots, and the source is untouched. *)
Lemma Vector_copy_all w other l cap :
  holds w other l cap -> roomy -> calm w (length l) ->
  exists c w',
    Vector_copy other w = Ret c w' /\
    holds w' c l (length l) /\
    holds w' other l cap /\
    apart c other /\
    (forall q, is_Some (block_of w q) -> block_of w' q = block_of w q) /\
    constructed w' = (constructed w + length l)%nat /\
    destroyed w' = destroyed w.
Proof.
  intros Hv Hroomy Hcalm. destruct (decide (l = [])) as [->|Hne].
  - destruct Hv as (Hs & Hc & Hle & Hmax & Hoff & Hb & Hrep).
    exists Vector_default, w. split.
    + unfold Vector_copy. rewrite Hs. reflexivity.
    + split; [repeat split; simpl; try done; lia|].
      split; [by repeat split|].
      split; [by intros _|]. split; [done|]. simpl. lia.
  - destruct (Vector_copy_ok w other l cap Hv Hne Hroomy Hcalm)
      as (c & w' & E & Hc & Fresh & F & C & D).
    exists c, w'. split; [done|]. split; [done|].
    assert (Hsrc : is_Some (block_of w (buffer_ (data_ other)))).
    { destruct Hv as (_ & _ & _ & _ & _ & Hb & _). by eexists. }
    split; [|split; [|split; [|done]]].
    + destruct Hv as (Hs & Hcp & Hle & Hmax & Hoff & Hb & Hrep).
      repeat split; try done. rewrite F; [done|]. by apply Fresh.
    + intros Heq. exfalso. by apply (Fresh _ Hsrc).
    + intros q Hq. apply F. by apply Fresh.
Qed.

(** The copy constructor when the copy of the element of index [k]
    throws: the copies made so far are destroyed, the buffer is
    released, and the store is as before. *)
Lemma Vector_copy_fails w other l cap k y :
  holds w other l cap -> roomy ->
  l !! k = Some y -> calm w k -> ctor_throws (constructed w + k) y = true ->
  exists w',
    Vector_copy other w = Exn w' /\
    (forall q, block_of w' q = block_of w q) /\
    constructed w' = (constructed w + k)%nat /\
    destroyed w' = (destroyed w + k)%nat.
Proof.
  intros (Hs & Hc & Hle & Hmax & Hoff & Hb & Hrep) Hroomy Hy Hcalm Hthrow.
  destruct other as [[po c] s]. simpl in *. subst s c.
  assert (Hk : (k < length l)%nat) by (eapply lookup_lt_Some; eauto).
  assert (Hrl : representable (Z.of_nat (length l)))
    by (eapply representable_le; [|exact Hrep]; lia).
  destruct (RawMemory_new_ok w (Z.of_nat (length l)))
    as (nd & w1 & E1 & Hcn & Hoffn & W1 & Fresh); [lia|done|done|].
  assert (Hnpos : 0 < Z.of_nat (length l)) by lia.
  pose proof (RawMemory_new_block w _ _ _ Hnpos E1) as Hsome.
  destruct nd as [pn cn]. simpl in *. subst cn.
  assert (Hnb : blk po <> blk pn) by (apply Fresh; by eexists).
  rewrite Nat2Z.id in W1.
  pose proof W1 as (B1 & F1 & C1 & D1).
  destruct (uninitialized_copy_n_throws l w1 po pn [] (replicate (cap - length l) Raw)
              [] (replicate (length l) Raw) [] (Z.of_nat (length l)) k y)
    as (w2 & E2 & W2); simpl; try done; try lia.
  { rewrite F1 by done. exact Hb. }
  { etransitivity; [exact B1|]. by rewrite app_nil_r. }
  { by rewrite length_replicate. }
  { intros j z Hj. apply Hcalm. lia. }
  { rewrite <- Hthrow. f_equal. lia. }
  destruct W2 as (B2 & F2 & C2 & D2).
  destruct (RawMemory_destroy_released w2
              {| buffer_ := pn; capacity_ := Z.of_nat (length l) |} _ B2)
    as (w3 & E3 & F3 & R3 & C3 & D3); [done|].
  simpl in F3, R3.
  exists w3. split.
  - unfold Vector_copy. cbn. erewrite bind_ret by exact E1. cbn.
    apply bind_exn. eapply unwind_exn; eauto.
  - split; [|lia]. intros q.
    destruct (decide (blk q = blk pn)) as [Heq|Hneq].
    + rewrite (fresh_block_none w q pn Fresh Heq).
      apply R3; [done|]. by rewrite Heq.
    + rewrite F3, F2, F1; done.
Qed.

(** The constructors when [operator new] throws. *)
Lemma Vector_sized_new_throws w n :
  0 < n -> new_throws (length (heap w)) (size_mul n (Z.pos size_of)) = true ->
  Vector_sized n w = Exn w.
Proof.
  intros Hn Hthrow. unfold Vector_sized. apply bind_exn.
  by apply RawMemory_new_throws.
Qed.

Lemma Vector_copy_new_throws w other :
  0 < size_ other ->
  new_throws (length (heap w)) (size_mul (size_ other) (Z.pos size_of)) = true ->
  Vector_copy other w = Exn w.
Proof.
  intros Hn Hthrow. unfold Vector_copy. apply bind_exn.
  by apply RawMemory_new_throws.
Qed.

(** The destructor: every element is destroyed and the buffer is
    released. *)
Lemma Vector_destroy_released w v l cap :
  holds w v l cap ->
  exists w',
    Vector_destroy v w = Ret tt w' /\
    (forall q, blk q <> blk (buffer_ (data_ v)) -> block_of w' q = block_of w q) /\
    (forall q, blk q = blk (buffer_ (data_ v)) -> blk q <> None -> block_of w' q = None) /\
    constructed w' = constructed w /\
    destroyed w' = (destroyed w + length l)%nat.
Proof.
  intros (Hs & Hc & Hle & Hmax & Hoff & Hb & Hrep).
  destruct v as [[po c] s]. simpl in *. subst s c.
  destruct (destroy_n_ok l w po [] (replicate (cap - length l) Raw) (Z.of_nat (length l)))
    as (w1 & E1 & W1); simpl; try done; try lia.
  destruct W1 as (B1 & F1 & C1 & D1).
  destruct (RawMemory_destroy_released w1 {| buffer_ := po; capacity_ := Z.of_nat cap |} _ B1)
    as (w2 & E2 & F2 & R2 & C2 & D2); [done|].
  exists w2. split.
  - unfold Vector_destroy. cbn. erewrite bind_ret by exact E1. exact E2.
  - split; [|split; [|lia]].
    + intros q Hq. simpl in F2. rewrite F2, F1; done.
    + exact R2.
Qed.

End Construction.

(** ** [Resize] *)

Section Resizing.
Context {T : Type} `{Element T}.
Implicit Types (w : world T) (p q : ptr) (cs : list (slot T)) (vs l : list T) (v : Vector).

(** A counted loop whose rounds all succeed does what the algorithm with
    the same rounds does. *)
Lemma index_for_loop_as_uninitialized step body result n :
  forall built w w',
    (forall i w1, (built <= i < built + n)%nat -> body (Z.of_nat i) w1 = step (Z.of_nat i) w1) ->
    uninitialized_loop step result built n w = Ret tt w' ->
    index_for_loop body (Z.of_nat built) n w = Ret tt w'.
Proof.
  induction n as [|n IH]; intros built w w' Hbody E; [exact E|].
  simpl in *. unfold bind, unwind in E.
  destruct (step (Z.of_nat built) w) as [[] w1| w1|] eqn:E1.
  - erewrite bind_ret by (rewrite Hbody by lia; exact E1).
    replace (Z.of_nat built + 1) with (Z.of_nat (S built)) by lia.
    apply IH; [|exact E]. intros i w2 Hi. apply Hbody. lia.
  - by destruct (destroy_loop result built w1).
  - done.
Qed.

(** [Resize] to a smaller size destroys the elements in excess and
    keeps the buffer. *)
Lemma V1_Resize_shrink v w l cap n :
  holds w v l cap -> (n < length l)%nat ->
  exists f,
    call (V1.Resize (Z.of_nat n)) v w = Ret tt f /\
    data_ (this f) = data_ v /\
    holds (mem f) (this f) (take n l) cap /\
    constructed (mem f) = constructed w /\
    destroyed (mem f) = (destroyed w + (length l - n))%nat.
Proof.
  intros (Hs & Hc & Hle & Hmax & Hoff & Hb & Hrep) Hn.
  destruct v as [[po c] s]. simpl in *. subst s c.
  assert (Hl : l = take n l ++ drop n l) by (by rewrite take_drop).
  destruct (destroy_n_ok (drop n l) w (ptr_add po (Z.of_nat n)) (Live <$> take n l)
              (replicate (cap - length l) Raw) (Z.of_nat (length l - n)))
    as (w1 & E1 & W1); simpl; try lia.
  { etransitivity; [exact Hb|]. f_equal. rewrite app_assoc, <- fmap_app, <- Hl. done. }
  { rewrite length_fmap, length_take. lia. }
  { rewrite length_drop. lia. }
  rewrite length_drop in W1.
  exists {| this := {| data_ := {| buffer_ := po; capacity_ := Z.of_nat cap |};
                       size_ := Z.of_nat n |};
            mem := w1 |}.
  split.
  - unfold call, V1.Resize. cbn. zb. cbn.
    rewrite size_sub_small by (unfold SIZE_MAX in *; lia).
    replace (Z.of_nat (length l) - Z.of_nat n) with (Z.of_nat (length l - n)) by lia.
    erewrite bind_ret by (apply in_mem_ret; exact E1). reflexivity.
  - cbn. destruct W1 as (B1 & F1 & C1 & D1).
    split; [done|]. split; [|lia].
    apply holds_intro; try done; try lia.
    + rewrite length_take. lia.
    + rewrite length_take. lia.
    + etransitivity; [exact B1|]. f_equal. f_equal.
      rewrite <- replicate_add. f_equal. rewrite length_take. lia.
Qed.

(** [Resize] to a size the capacity allows value-constructs the new
    elements in place. *)
Lemma V1_Resize_extend v w l cap n :
  holds w v l cap -> (length l <= n <= cap)%nat -> calm w (n - length l) ->
  exists f,
    call (V1.Resize (Z.of_nat n)) v w = Ret tt f /\
    data_ (this f) = data_ v /\
    holds (mem f) (this f) (l ++ replicate (n - length l) value_init) cap /\
    constructed (mem f) = (constructed w + (n - length l))%nat /\
    destroyed (mem f) = destroyed w.
Proof.
  intros (Hs & Hc & Hle & Hmax & Hoff & Hb & Hrep) Hn Hcalm.
  destruct v as [[po c] s]. simpl in *. subst s c.
  destruct (uninitialized_value_construct_n_ok w (ptr_add po (Z.of_nat (length l)))
              (Live <$> l) (replicate (n - length l) Raw) (replicate (cap - n) Raw)
              (n - length l))
    as (w1 & E1 & W1); simpl; try done; try lia.
  { etransitivity; [exact Hb|]. f_equal. f_equal. rewrite <- replicate_add. f_equal. lia. }
  { rewrite length_fmap. lia. }
  { by rewrite length_replicate. }
  exists {| this := {| data_ := {| buffer_ := po; capacity_ := Z.of_nat cap |};
                       size_ := Z.of_nat n |};
            mem := w1 |}.
  split.
  - unfold call, V1.Resize. cbn. zb. cbn. unfold RawMemory_Capacity. cbn. zb.
    rewrite size_sub_small by (unfold SIZE_MAX in *; lia).
    replace (Z.of_nat n - Z.of_nat (length l)) with (Z.of_nat (n - length l)) by lia.
    erewrite bind_ret by (apply in_mem_ret; exact E1). reflexivity.
  - cbn. destruct W1 as (B1 & F1 & C1 & D1).
    split; [done|]. split; [|lia].
    apply holds_intro; try done; try lia.
    + rewrite length_app, length_replicate. lia.
    + rewrite length_app, length_replicate. lia.
    + etransitivity; [exact B1|]. f_equal.
      rewrite fmap_app, <- app_assoc. f_equal. f_equal. f_equal.
      rewrite length_app, length_replicate. lia.
Qed.

(** The transfer loops of [Resize], which read the old elements through
    [data_[i]]. *)
Lemma Resize_transfer_ok l w po pn cap m :
  blk po <> blk pn -> off po = 0 -> off pn = 0 ->
  block_of w po = Some ((Live <$> l) ++ replicate (cap - length l) Raw) ->
  (length l <= cap)%nat ->
  block_of w pn = Some (replicate m Raw) -> (length l <= m)%nat ->
  calm w (length l) ->
  exists w' l',
    (if transfer_safe then
       index_for (Z.of_nat (length l)) (fun i =>
         do src <- RawMemory_index {| buffer_ := po; capacity_ := Z.of_nat cap |} i;
         move_construct src (ptr_add pn i))
     else
       index_for (Z.of_nat (length l)) (fun i =>
         do src <- RawMemory_index {| buffer_ := po; capacity_ := Z.of_nat cap |} i;
         copy_construct src (ptr_add pn i))) w = Ret tt w' /\
    length l' = length l /\
    writes2 w w' po ((Live <$> l') ++ replicate (cap - length l) Raw)
                 pn ((Live <$> l) ++ replicate (m - length l) Raw) (length l) 0.
Proof.
  intros Hne Hpo Hpn Hbo Hle Hbn Hm Hcalm.
  destruct (transfer_ok l w po pn [] (replicate (cap - length l) Raw)
              [] (replicate (length l) Raw) (replicate (m - length l) Raw)
              (Z.of_nat (length l)))
    as (w' & l' & E & Hl' & W); simpl; try done; try lia.
  { etransitivity; [exact Hbn|]. f_equal. rewrite <- replicate_add. f_equal. lia. }
  { by rewrite length_replicate. }
  exists w', l'. split; [|split; [done|exact W]].
  unfold index_for. rewrite Nat2Z.id.
  destruct transfer_safe.
  - unfold uninitialized_move_n in E. rewrite Nat2Z.id in E.
    eapply (index_for_loop_as_uninitialized _ _ _ _ 0%nat); [|exact E].
    intros i w1 Hi. simpl.
    erewrite bind_ret by (apply RawMemory_index_ok; simpl; lia). done.
  - unfold uninitialized_copy_n in E. rewrite Nat2Z.id in E.
    eapply (index_for_loop_as_uninitialized _ _ _ _ 0%nat); [|exact E].
    intros i w1 Hi. simpl.
    erewrite bind_ret by (apply RawMemory_index_ok; simpl; lia). done.
Qed.

(** The same, telling what the transfer leaves in the old buffer. *)
Lemma Resize_transfer_exact l w po pn cap m :
  blk po <> blk pn -> off po = 0 -> off pn = 0 ->
  block_of w po = Some ((Live <$> l) ++ replicate (cap - length l) Raw) ->
  (length l <= cap)%nat ->
  block_of w pn = Some (replicate m Raw) -> (length l <= m)%nat ->
  calm w (length l) ->
  exists w',
    (if transfer_safe then
       index_for (Z.of_nat (length l)) (fun i =>
         do src <- RawMemory_index {| buffer_ := po; capacity_ := Z.of_nat cap |} i;
         move_construct src (ptr_add pn i))
     else
       index_for (Z.of_nat (length l)) (fun i =>
         do src <- RawMemory_index {| buffer_ := po; capacity_ := Z.of_nat cap |} i;
         copy_construct src (ptr_add pn i))) w = Ret tt w' /\
    writes2 w w' po ((Live <$> (if transfer_safe then moved_from <$> l else l)) ++
                     replicate (cap - length l) Raw)
                 pn ((Live <$> l) ++ replicate (m - length l) Raw) (length l) 0.
Proof.
  intros Hne Hpo Hpn Hbo Hle Hbn Hm Hcalm.
  destruct (transfer_exact l w po pn [] (replicate (cap - length l) Raw)
              [] (replicate (length l) Raw) (replicate (m - length l) Raw)
              (Z.of_nat (length l)))
    as (w' & E & W); simpl; try done; try lia.
  { etransitivity; [exact Hbn|]. f_equal. rewrite <- replicate_add. f_equal. lia. }
  { by rewrite length_replicate. }
  exists w'. split; [|exact W].
  unfold index_for. rewrite Nat2Z.id.
  revert E. destruct transfer_safe; intros E.
  - unfold uninitialized_move_n in E. rewrite Nat2Z.id in E.
    eapply (index_for_loop_as_uninitialized _ _ _ _ 0%nat); [|exact E].
    intros i w1 Hi. simpl.
    erewrite bind_ret by (apply RawMemory_index_ok; simpl; lia). done.
  - unfold uninitialized_copy_n in E. rewrite Nat2Z.id in E.
    eapply (index_for_loop_as_uninitialized _ _ _ _ 0%nat); [|exact E].
    intros i w1 Hi. simpl.
    erewrite bind_ret by (apply RawMemory_index_ok; simpl; lia). done.
Qed.

(** [Resize] beyond the capacity moves the elements to a buffer of
    exactly the new size and value-constructs the rest. *)
Lemma V1_Resize_grow v w l cap n :
  holds w v l cap -> (cap < n)%nat -> representable (Z.of_nat n) -> roomy ->
  calm w n ->
  exists f,
    call (V1.Resize (Z.of_nat n)) v w = Ret tt f /\
    holds (mem f) (this f) (l ++ replicate (n - length l) value_init) n /\
    constructed (mem f) = (constructed w + n)%nat /\
    destroyed (mem f) = (destroyed w + length l)%nat.
Proof.
  intros (Hs & Hc & Hle & Hmax & Hoff & Hb & Hrep) Hn Hrepn Hroomy Hcalm.
  pose proof (representable_max _ Hrepn) as Hnmax.
  destruct v as [[po c] s]. simpl in *. subst s c.
  destruct (RawMemory_new_ok w (Z.of_nat n))
    as (nd & w1 & E1 & Hcn & Hoffn & W1 & Fresh); [lia|done|done|].
  destruct nd as [pn cn]. simpl in *. subst cn.
  assert (Hne : blk po <> blk pn) by (apply Fresh; by eexists).
  rewrite Nat2Z.id in W1.
  destruct (Resize_transfer_ok l w1 po pn cap n)
    as (w2 & l' & E2 & Hl' & W2); try done; try lia.
  { rewrite (writes_other w w1 _ _ _ _ po W1) by done. exact Hb. }
  { exact (proj1 W1). }
  { eapply calm_le; [eapply (writes_calm w w1); [exact W1|exact Hcalm]|]. lia. }
  pose proof W2 as (Bo2 & Bn2 & F2 & C2 & D2).
  destruct (uninitialized_value_construct_n_ok w2 (ptr_add pn (Z.of_nat (length l)))
              (Live <$> l) (replicate (n - length l) Raw) [] (n - length l))
    as (w3 & E3 & W3); simpl; try done; try lia.
  { etransitivity; [exact Bn2|]. by rewrite app_nil_r. }
  { rewrite length_fmap. lia. }
  { by rewrite length_replicate. }
  { intros k x Hk. apply Hcalm. destruct W1 as (_ & _ & C1 & _). lia. }
  pose proof W3 as (Bn3 & F3 & C3 & D3).
  destruct (destroy_n_ok l' w3 po [] (replicate (cap - length l) Raw) (Z.of_nat (length l)))
    as (w4 & E4 & W4); simpl; try done; try lia.
  { rewrite F3 by done. exact Bo2. }
  destruct W4 as (Bo4 & F4 & C4 & D4).
  destruct (RawMemory_destroy_ok w4 {| buffer_ := po; capacity_ := Z.of_nat cap |} _ Bo4)
    as (w5 & E5 & F5 & C5 & D5); [done|].
  simpl in F5.
  exists {| this := {| data_ := {| buffer_ := pn; capacity_ := Z.of_nat n |};
                       size_ := Z.of_nat n |};
            mem := w5 |}.
  split.
  - unfold call, V1.Resize. cbn. zb. cbn. unfold RawMemory_Capacity. cbn. zb.
    step_mem E1.
    rewrite size_sub_small by (unfold SIZE_MAX in *; lia).
    replace (Z.of_nat n - Z.of_nat (length l)) with (Z.of_nat (n - length l)) by lia.
    erewrite bind_ret; cycle 1.
    { apply unwind_ret. cbn. step_if E2. step_mem E3. reflexivity. }
    cbn. step_mem E4. erewrite in_mem_ret by exact E5. reflexivity.
  - cbn. destruct W1 as (_ & _ & C1 & D1).
    split; [|lia].
    apply holds_intro; try done; try lia.
    + rewrite length_app, length_replicate. lia.
    + rewrite length_app, length_replicate. lia.
    + rewrite F5, F4 by done. etransitivity; [exact Bn3|]. f_equal.
      rewrite fmap_app, <- app_assoc. f_equal.
      rewrite length_app, length_replicate.
      replace (n - (length l + (n - length l)))%nat with 0%nat by lia. done.
Qed.

(** While the new size does not exceed the capacity, [Resize] of the
    second revision is that of the first. *)
Lemma V2_Resize_within n (f : frame T) :
  n <= capacity_ (data_ (this f)) -> V2.Resize n f = V1.Resize n f.
Proof.
  intros Hn. unfold V2.Resize, V1.Resize, bind, get_size, get_data, Capacity, ret,
    RawMemory_Capacity.
  destruct (n <? size_ (this f)); [done|]. cbn. unfold bind. cbn.
  unfold RawMemory_Capacity. zb. done.
Qed.

End Resizing.

(** ** [Reserve] and [Resize] of the second revision *)

Section DanglingReference.
Context {T : Type} `{Element T}.
Implicit Types (w : world T) (p q : ptr) (cs : list (slot T)) (vs l : list T) (v : Vector).

(** Whatever [SwapNewData] returns refers to an object that is gone. *)
Lemma SwapNewData_ended n (f f' : frame T) r :
  V2.SwapNewData n f = Ret r f' -> V2.ended r = true.
Proof.
  unfold V2.SwapNewData, bind, ret.
  destruct (in_mem (RawMemory_new n) f) as [nd f1| |]; [|done|done].
  destruct (unwind _ _ f1) as [[] f2| |]; [|done|done].
  destruct (in_mem (RawMemory_destroy nd) f2) as [[] f3| |]; [|done|done].
  by intros [= <- _].
Qed.

(** [SwapNewData] on a vector in good state, when the allocation
    succeeds: the elements are transferred to a new buffer, which is
    released before the caller sees it; if the request wrapped around
    and the new buffer is too small for the elements, the transfer
    runs out of it. *)
Lemma SwapNewData_ok v w l cap n :
  holds w v l cap -> 0 < n -> roomy -> calm w (length l) ->
  call (V2.SwapNewData n) v w = Undef \/
  exists r w', call (V2.SwapNewData n) v w = Ret r {| this := v; mem := w' |} /\
               V2.ended r = true /\
               block_of w' (buffer_ (V2.referent r)) = None.
Proof.
  intros (Hs & Hc & Hle & Hmax & Hoff & Hb & Hrep) Hpos Hroomy Hcalm.
  destruct v as [[po c] s]. simpl in *. subst s c.
  destruct (RawMemory_new_cases w n Hpos)
    as [[Ht _]|(_ & nd & w1 & E1 & Hcn & Hoffn & W1 & Fresh)];
    [by rewrite Hroomy in Ht|].
  pose proof (RawMemory_new_block w _ _ _ Hpos E1) as Hsome.
  destruct nd as [pn cn]. simpl in *. subst cn.
  assert (Hne : blk po <> blk pn) by (apply Fresh; by eexists).
  set (m := Z.to_nat (room n)) in *.
  assert (Hbo : block_of w1 po = Some ((Live <$> l) ++ replicate (cap - length l) Raw)).
  { rewrite (writes_other w w1 _ _ _ _ po W1) by done. exact Hb. }
  assert (Hcalm1 : calm w1 (length l)).
  { eapply calm_le; [eapply (writes_calm w w1); [exact W1|exact Hcalm]|]. lia. }
  destruct (le_lt_dec (length l) m) as [Hfit|Hshort].
  - right.
    destruct (transfer_ok l w1 po pn [] (replicate (cap - length l) Raw)
                [] (replicate (length l) Raw) (replicate (m - length l) Raw)
                (Z.of_nat (length l)))
      as (w2 & l' & E2 & Hl' & W2); simpl; try done; try lia.
    { etransitivity; [exact (proj1 W1)|]. f_equal. rewrite <- replicate_add. f_equal. lia. }
    { by rewrite length_replicate. }
    simpl in W2. destruct W2 as (Bo2 & Bn2 & F2 & C2 & D2).
    destruct (RawMemory_destroy_released w2 {| buffer_ := pn; capacity_ := n |} _ Bn2)
      as (w3 & E3 & F3 & R3 & C3 & D3); [done|].
    simpl in *.
    exists {| V2.referent := {| buffer_ := pn; capacity_ := n |}; V2.ended := true |}, w3.
    split; [|split; [done|]].
    + unfold call, V2.SwapNewData. cbn. step_mem E1.
      erewrite bind_ret; cycle 1.
      { apply unwind_ret. cbn. rewrite if_in_mem. apply in_mem_ret. exact E2. }
      cbn. step_mem E3. reflexivity.
    + simpl. by apply R3.
  - left.
    pose proof (transfer_overflow l w1 po pn _ m Hne Hoff Hoffn Hbo (proj1 W1) Hshort Hcalm1)
      as E2.
    unfold call, V2.SwapNewData. cbn. step_mem E1.
    apply bind_undef. apply unwind_undef. cbn.
    rewrite if_in_mem. apply in_mem_undef. exact E2.
Qed.

Lemma V2_Reserve_enough v w k :
  k <= capacity_ (data_ v) ->
  call (V2.Reserve k) v w = Ret tt {| this := v; mem := w |}.
Proof.
  intros Hk. unfold call, V2.Reserve. cbn. unfold RawMemory_Capacity. zb. reflexivity.
Qed.

Lemma V2_Reserve_no_return v w k f :
  capacity_ (data_ v) < k -> call (V2.Reserve k) v w <> Ret tt f.
Proof.
  intros Hk. unfold call, V2.Reserve. cbn. unfold RawMemory_Capacity. zb.
  unfold bind at 1.
  destruct (V2.SwapNewData k _) as [r f1| |] eqn:E; [|done|done].
  apply SwapNewData_ended in E.
  unfold bind at 1. unfold V2.RawMemory_move_from. rewrite E. done.
Qed.

Lemma V2_Resize_no_return v w n f :
  size_ v <= n -> capacity_ (data_ v) < n -> call (V2.Resize n) v w <> Ret tt f.
Proof.
  intros Hs Hk. unfold call, V2.Resize. cbn. zb. cbn. unfold RawMemory_Capacity. cbn. zb.
  unfold bind at 1.
  destruct (V2.SwapNewData n _) as [r f1| |] eqn:E; [|done|done].
  apply SwapNewData_ended in E.
  unfold bind at 1. unfold V2.RawMemory_move_from. rewrite E. done.
Qed.

Lemma V2_Reserve_undefined v w l cap k :
  holds w v l cap -> Z.of_nat cap < k <= SIZE_MAX -> roomy -> calm w (length l) ->
  call (V2.Reserve k) v w = Undef.
Proof.
  intros Hv Hk Hroomy Hcalm.
  destruct (SwapNewData_ok v w l cap k Hv) as [E|(r & w' & E & Hr & _)];
    [lia|done|done| |].
  - destruct Hv as (Hs & Hc & _).
    unfold call in *. unfold V2.Reserve. cbn. unfold RawMemory_Capacity. zb.
    by apply bind_undef.
  - destruct Hv as (Hs & Hc & _).
    unfold call in *. unfold V2.Reserve. cbn. unfold RawMemory_Capacity. zb.
    erewrite bind_ret by exact E.
    unfold bind, V2.RawMemory_move_from. by rewrite Hr.
Qed.

Lemma V2_Resize_undefined v w l cap n :
  holds w v l cap -> Z.of_nat cap < n <= SIZE_MAX -> roomy -> calm w (length l) ->
  call (V2.Resize n) v w = Undef.
Proof.
  intros Hv Hk Hroomy Hcalm.
  destruct (SwapNewData_ok v w l cap n Hv) as [E|(r & w' & E & Hr & _)];
    [lia|done|done| |].
  - destruct Hv as (Hs & Hc & Hle & _).
    unfold call in *. unfold V2.Resize. cbn. zb. cbn. unfold RawMemory_Capacity. cbn. zb.
    by apply bind_undef.
  - destruct Hv as (Hs & Hc & Hle & _).
    unfold call in *. unfold V2.Resize. cbn. zb. cbn. unfold RawMemory_Capacity. cbn. zb.
    erewrite bind_ret by exact E.
    unfold bind, V2.RawMemory_move_from. by rewrite Hr.
Qed.

End DanglingReference.

(** ** Sequences of appends *)

Section Appending.
Context {T : Type} `{Element T}.
Implicit Types (w : world T) (p q : ptr) (cs : list (slot T)) (vs l : list T) (v : Vector).

(** [EmplaceBack] of the second revision with spare capacity. *)
Lemma V2_EmplaceBack_inplace v w l cap x :
  holds w v l cap -> (length l < cap)%nat -> calm w 1 ->
  exists f,
    call (V2.EmplaceBack x) v w =
      Ret (ptr_add (buffer_ (data_ v)) (Z.of_nat (length l))) f /\
    data_ (this f) = data_ v /\
    holds (mem f) (this f) (l ++ [x]) cap /\
    constructed (mem f) = S (constructed w) /\ destroyed (mem f) = destroyed w.
Proof.
  intros (Hs & Hc & Hle & Hmax & Hoff & Hb & Hrep) Hlt Hcalm.
  destruct v as [[po c] s]. simpl in *. subst s c.
  destruct (append_trace w po l cap x Hb Hoff Hlt Hcalm) as (w1 & E1 & B1 & C1 & D1).
  exists {| this := {| data_ := {| buffer_ := po; capacity_ := Z.of_nat cap |};
                       size_ := Z.of_nat (length l) + 1 |};
            mem := w1 |}.
  split.
  - unfold call, V2.EmplaceBack.
    erewrite bind_ret by (apply end_ok; cbn; lia). cbn.
    unfold V2.Emplace. cbn. step_plus.
    rewrite ptr_leb_add_r, ptr_leb_add. zb. cbn. zb.
    step_plus. rewrite ptr_eqb_add. zb. step_plus. step_mem E1.
    rewrite size_add_small by lia. reflexivity.
  - cbn. split; [done|]. split; [|done].
    apply holds_intro; try done; rewrite ?length_app; simpl; try lia.
    etransitivity; [exact B1|]. do 3 f_equal. lia.
Qed.

(** [EmplaceBack] of the second revision on a full buffer. *)
Lemma V2_EmplaceBack_realloc v w l cap x :
  holds w v l cap -> (cap <= length l)%nat ->
  representable (Z.max 1 (2 * Z.of_nat (length l))) -> roomy ->
  calm w (S (length l)) ->
  exists f,
    call (V2.EmplaceBack x) v w =
      Ret (ptr_add (buffer_ (data_ (this f))) (Z.of_nat (length l))) f /\
    holds (mem f) (this f) (l ++ [x]) (Nat.max 1 (2 * length l)) /\
    constructed (mem f) = (constructed w + S (length l))%nat /\
    destroyed (mem f) = (destroyed w + length l)%nat.
Proof.
  intros Hv Hfull Hsmall Hroomy Hcalm.
  pose proof (representable_double _ Hsmall) as Hlt63.
  destruct (V2_OffsetRightNewCapacity_ok v w l cap x (length l) Hv) as (f & E & Hf & C & D);
    [done|done|done|done|].
  rewrite insert_at_end in Hf.
  exists f. split; [|done].
  destruct Hv as (Hs & Hc & Hle & Hmax & Hoff & Hb & Hrep).
  destruct v as [[po c] s]. simpl in *. subst s c.
  unfold call in *. unfold V2.EmplaceBack.
  erewrite bind_ret by (apply end_ok; cbn; lia). cbn.
  unfold V2.Emplace. cbn. step_plus.
  rewrite ptr_leb_add_r, ptr_leb_add. zb. cbn. zb.
  erewrite bind_ret by exact E. cbn.
  destruct Hf as (_ & Hcf & _ & Hmf & _).
  apply RawMemory_plus_ok. rewrite Hcf. lia.
Qed.

(** What the two branches of an append do, for either revision. *)
Section Pushes.
Variable push : T -> M (frame T) unit.

Hypothesis push_inplace : forall v w l cap x,
  holds w v l cap -> (length l < cap)%nat -> calm w 1 ->
  exists f,
    call (push x) v w = Ret tt f /\
    data_ (this f) = data_ v /\
    holds (mem f) (this f) (l ++ [x]) cap /\
    constructed (mem f) = S (constructed w) /\ destroyed (mem f) = destroyed w.

Hypothesis push_realloc : forall v w l cap x,
  holds w v l cap -> (cap <= length l)%nat ->
  representable (Z.max 1 (2 * Z.of_nat (length l))) ->
  calm w (S (length l)) ->
  exists f,
    call (push x) v w = Ret tt f /\
    holds (mem f) (this f) (l ++ [x]) (Nat.max 1 (2 * length l)) /\
    constructed (mem f) = (constructed w + S (length l))%nat /\
    destroyed (mem f) = (destroyed w + length l)%nat.

(** Appends that fit the capacity keep the buffer. *)
Lemma push_all_within : forall xs l v w cap,
  holds w v l cap -> (length l + length xs <= cap)%nat -> calm w (length xs) ->
  exists f,
    call (push_all push xs) v w = Ret tt f /\
    data_ (this f) = data_ v /\
    holds (mem f) (this f) (l ++ xs) cap /\
    constructed (mem f) = (constructed w + length xs)%nat /\
    destroyed (mem f) = destroyed w.
Proof.
  induction xs as [|x xs IH]; intros l v w cap Hv Hfit Hcalm.
  - exists {| this := v; mem := w |}. rewrite app_nil_r. simpl.
    split; [done|]. split; [done|]. split; [done|]. lia.
  - simpl in Hfit.
    destruct (push_inplace v w l cap x Hv) as (f1 & E1 & Hd1 & H1 & C1 & D1); [lia| |].
    { eapply calm_le; [exact Hcalm|simpl; lia]. }
    destruct (IH (l ++ [x]) (this f1) (mem f1) cap H1) as (f2 & E2 & Hd2 & H2 & C2 & D2).
    + rewrite length_app. simpl. lia.
    + intros k y Hk. apply Hcalm. simpl. lia.
    + exists f2. rewrite <- app_assoc in H2. simpl in *.
      split; [|split; [congruence|split; [done|lia]]].
      unfold call in *. simpl. erewrite bind_ret by exact E1.
      destruct f1. exact E2.
Qed.

(** The objects built and destroyed by a sequence of appends that
    starts at the capacity the growth policy gives. *)
Lemma push_all_counts : forall xs l v w,
  holds w v l (capacity_after (length l)) ->
  representable (2 * Z.of_nat (length l + length xs)) -> quiet w ->
  exists f,
    call (push_all push xs) v w = Ret tt f /\
    holds (mem f) (this f) (l ++ xs) (capacity_after (length (l ++ xs))) /\
    (constructed (mem f) + pred (capacity_after (length l)) =
     constructed w + length xs + pred (capacity_after (length (l ++ xs))))%nat /\
    (destroyed (mem f) + pred (capacity_after (length l)) =
     destroyed w + pred (capacity_after (length (l ++ xs))))%nat.
Proof.
  induction xs as [|x xs IH]; intros l v w Hv Hsmall Hq.
  - exists {| this := v; mem := w |}. rewrite app_nil_r. simpl.
    split; [done|]. split; [done|]. lia.
  - simpl in Hsmall.
    assert (Hstep : exists f1,
      call (push x) v w = Ret tt f1 /\
      holds (mem f1) (this f1) (l ++ [x]) (capacity_after (length (l ++ [x]))) /\
      (constructed (mem f1) + pred (capacity_after (length l)) =
       constructed w + 1 + pred (capacity_after (length (l ++ [x]))))%nat /\
      (destroyed (mem f1) + pred (capacity_after (length l)) =
       destroyed w + pred (capacity_after (length (l ++ [x]))))%nat /\
      (constructed w <= constructed (mem f1))%nat).
    { rewrite length_app. simpl. rewrite Nat.add_1_r. simpl.
      pose proof (capacity_after_ge (length l)) as Hge.
      destruct (Nat.ltb_spec (length l) (capacity_after (length l))) as [Hlt|Hfull].
      - destruct (push_inplace v w l _ x Hv Hlt) as (f1 & E1 & _ & H1 & C1 & D1).
        { by apply quiet_calm. }
        exists f1. split; [done|]. split; [done|]. lia.
      - destruct (push_realloc v w l _ x Hv Hfull) as (f1 & E1 & H1 & C1 & D1).
        { eapply representable_le; [|exact Hsmall]. lia. }
        { by apply quiet_calm. }
        exists f1. split; [done|]. split; [done|]. lia. }
    destruct Hstep as (f1 & E1 & H1 & C1 & D1 & Hmono).
    destruct (IH (l ++ [x]) (this f1) (mem f1) H1) as (f2 & E2 & H2 & C2 & D2).
    + rewrite length_app. simpl.
      eapply representable_le; [|exact Hsmall]. lia.
    + eapply quiet_mono; [exact Hq|]. lia.
    + exists f2. rewrite <- app_assoc in H2, C2, D2. simpl in *.
      split; [|split; [done|lia]].
      unfold call in *. simpl. erewrite bind_ret by exact E1.
      destruct f1. exact E2.
Qed.

End Pushes.

Lemma V1_PushBack_inplace v w l cap x :
  holds w v l cap -> (length l < cap)%nat -> calm w 1 ->
  exists f,
    call (V1.PushBack x) v w = Ret tt f /\
    data_ (this f) = data_ v /\
    holds (mem f) (this f) (l ++ [x]) cap /\
    constructed (mem f) = S (constructed w) /\ destroyed (mem f) = destroyed w.
Proof.
  intros Hv Hlt Hcalm.
  destruct (V1_EmplaceBack_inplace v w l cap x Hv Hlt Hcalm) as (f & E & Hf).
  exists f. split; [|done].
  unfold call, V1.PushBack in *. erewrite bind_ret by exact E. done.
Qed.

Lemma V1_PushBack_realloc :
  roomy ->
  forall v w l cap x,
  holds w v l cap -> (cap <= length l)%nat ->
  representable (Z.max 1 (2 * Z.of_nat (length l))) ->
  calm w (S (length l)) ->
  exists f,
    call (V1.PushBack x) v w = Ret tt f /\
    holds (mem f) (this f) (l ++ [x]) (Nat.max 1 (2 * length l)) /\
    constructed (mem f) = (constructed w + S (length l))%nat /\
    destroyed (mem f) = (destroyed w + length l)%nat.
Proof.
  intros Hroomy v w l cap x Hv Hfull Hsmall Hcalm.
  destruct (V1_EmplaceBack_realloc v w l cap x Hv Hfull Hsmall Hroomy Hcalm) as (f & E & Hf).
  exists f. split; [|done].
  unfold call, V1.PushBack in *. erewrite bind_ret by exact E. done.
Qed.

Lemma V2_PushBack_inplace v w l cap x :
  holds w v l cap -> (length l < cap)%nat -> calm w 1 ->
  exists f,
    call (V2.PushBack x) v w = Ret tt f /\
    data_ (this f) = data_ v /\
    holds (mem f) (this f) (l ++ [x]) cap /\
    constructed (mem f) = S (constructed w) /\ destroyed (mem f) = destroyed w.
Proof.
  intros Hv Hlt Hcalm.
  destruct (V2_EmplaceBack_inplace v w l cap x Hv Hlt Hcalm) as (f & E & Hf).
  exists f. split; [|done].
  unfold call, V2.PushBack in *. erewrite bind_ret by exact E. done.
Qed.

Lemma V2_PushBack_realloc :
  roomy ->
  forall v w l cap x,
  holds w v l cap -> (cap <= length l)%nat ->
  representable (Z.max 1 (2 * Z.of_nat (length l))) ->
  calm w (S (length l)) ->
  exists f,
    call (V2.PushBack x) v w = Ret tt f /\
    holds (mem f) (this f) (l ++ [x]) (Nat.max 1 (2 * length l)) /\
    constructed (mem f) = (constructed w + S (length l))%nat /\
    destroyed (mem f) = (destroyed w + length l)%nat.
Proof.
  intros Hroomy v w l cap x Hv Hfull Hsmall Hcalm.
  destruct (V2_EmplaceBack_realloc v w l cap x Hv Hfull Hsmall Hroomy Hcalm) as (f & E & Hf).
  exists f. split; [|done].
  unfold call, V2.PushBack in *. erewrite bind_ret by exact E. done.
Qed.

(** The least power of two that is at least [n] is below [2 * n]. *)
Lemma capacity_after_lt n : (1 <= n)%nat -> (capacity_after n < 2 * n)%nat.
Proof.
  intros Hn. rewrite capacity_after_pow2 by done.
  destruct (decide (n = 1%nat)) as [->|Hne]; [simpl; lia|].
  pose proof (Nat.log2_up_spec n ltac:(lia)) as [Hlo _].
  assert (Hpos : (0 < Nat.log2_up n)%nat) by (apply Nat.log2_up_pos; lia).
  replace (Nat.log2_up n) with (S (pred (Nat.log2_up n))) by lia.
  rewrite Nat.pow_succ_r'. lia.
Qed.

End Appending.

(** ** Removing elements *)

Section Removing.
Context {T : Type} `{Element T}.
Implicit Types (w : world T) (p q : ptr) (cs : list (slot T)) (vs l : list T) (v : Vector).

Lemma copy_assign_ok w src dst cs x y :
  block_of w src = Some cs -> blk dst = blk src ->
  0 <= off src -> 0 <= off dst ->
  cs !! Z.to_nat (off src) = Some (Live x) ->
  cs !! Z.to_nat (off dst) = Some (Live y) ->
  exists w', copy_assign src dst w = Ret tt w' /\
    writes w w' src (<[Z.to_nat (off dst) := Live x]> cs) 0 0.
Proof.
  intros Hb Hblk Hos Hod Hx Hy.
  assert (Hbd : block_of w dst = Some cs) by (unfold block_of in *; by rewrite Hblk).
  destruct (store_ok w dst cs y x Hbd Hod Hy) as (w' & E & (B & F & C & D)).
  exists w'. split.
  - unfold copy_assign. erewrite bind_ret by (eapply load_ok; eauto). exact E.
  - split; [|split; [|split; [exact C|exact D]]].
    + unfold block_of in *. by rewrite <- Hblk.
    + intros q Hq. apply F. congruence.
Qed.

Lemma ptr_eqb_add_r p k : ptr_eqb p (ptr_add p k) = (0 =? k).
Proof.
  unfold ptr_eqb. cbn [blk off ptr_add]. destruct (blk p); rewrite ?Nat.eqb_refl; cbn [andb];
    destruct (Z.eqb_spec (off p) (off p + k)), (Z.eqb_spec 0 k); done || lia.
Qed.

(** The loop [for (i = first; i != first + n; i++) *i = *(i + 1)], where
    the assignment leaves [g b] behind in the slot it took [b] from. *)
Lemma shift_left_loop (g : T -> T) (body : ptr -> M (world T) unit) :
  (forall w i cs a b,
      block_of w i = Some cs -> 0 <= off i ->
      cs !! Z.to_nat (off i) = Some (Live a) ->
      cs !! Z.to_nat (off i + 1) = Some (Live b) ->
      exists w', body i w = Ret tt w' /\
        writes w w' i (<[Z.to_nat (off i + 1) := Live (g b)]>
                         (<[Z.to_nat (off i) := Live b]> cs)) 0 0) ->
  forall vs w i x P Q rounds,
    block_of w i = Some (P ++ Live x :: (Live <$> vs) ++ Q) ->
    0 <= off i -> length P = Z.to_nat (off i) -> (length vs <= rounds)%nat ->
    exists w' z,
      ptr_for_loop (ptr_add i (Z.of_nat (length vs))) body i rounds w = Ret tt w' /\
      writes w w' i (P ++ (Live <$> vs) ++ Live z :: Q) 0 0.
Proof.
  intros Hbody. induction vs as [|y vs IH]; intros w i x P Q rounds Hb Hoff HP Hr.
  - exists w, x. split; [|by apply writes_refl].
    destruct rounds; simpl; rewrite ptr_eqb_add_r; done.
  - simpl in Hr. destruct rounds as [|rounds]; [lia|].
    cbn [ptr_for_loop]. rewrite ptr_eqb_add_r.
    replace (0 =? Z.of_nat (length (y :: vs))) with false
      by (symmetry; apply Z.eqb_neq; simpl; lia).
    rewrite fmap_cons, <- app_comm_cons in Hb.
    destruct (Hbody w i _ x y Hb Hoff) as (w1 & E1 & W1).
    { apply list_lookup_middle. lia. }
    { replace (Z.to_nat (off i + 1)) with (S (length P)) by lia.
      rewrite lookup_app_r by lia.
      replace (S (length P) - length P)%nat with 1%nat by lia. done. }
    assert (Hcells :
      <[Z.to_nat (off i + 1) := Live (g y)]>
        (<[Z.to_nat (off i) := Live y]> (P ++ Live x :: Live y :: (Live <$> vs) ++ Q))
      = (P ++ [Live y]) ++ Live (g y) :: (Live <$> vs) ++ Q).
    { rewrite insert_middle by lia.
      replace (Z.to_nat (off i + 1)) with (length (P ++ [Live y])).
      - rewrite <- (snoc_app P (Live y :: (Live <$> vs) ++ Q) (Live y)).
        by rewrite insert_middle.
      - rewrite length_app. simpl. lia. }
    rewrite Hcells in W1.
    destruct (IH w1 (ptr_add i 1) (g y) (P ++ [Live y]) Q rounds) as (w2 & z & E2 & W2).
    + exact (proj1 W1).
    + simpl. lia.
    + rewrite length_app. simpl. lia.
    + lia.
    + exists w2, z. split.
      * erewrite bind_ret by exact E1.
        replace (ptr_add i (Z.of_nat (length (y :: vs))))
          with (ptr_add (ptr_add i 1) (Z.of_nat (length vs))); [exact E2|].
        unfold ptr_add. simpl. f_equal. lia.
      * eapply writes_counts; [eapply writes_cells; [eapply (writes_trans w w1 w2);
          [exact W1|exact W2]|]|done|done].
        rewrite <- app_assoc. simpl. done.
Qed.

(** [Erase(begin())] of the first revision removes the first element:
    at this position the bound of the loop is [end() - 1]. *)
Lemma V1_Erase_front v w x l cap :
  holds w v (x :: l) cap ->
  exists f,
    call (V1.Erase (buffer_ (data_ v))) v w = Ret (buffer_ (data_ v)) f /\
    data_ (this f) = data_ v /\
    holds (mem f) (this f) l cap /\
    constructed (mem f) = constructed w /\ destroyed (mem f) = S (destroyed w).
Proof.
  intros (Hs & Hc & Hle & Hmax & Hoff & Hb & Hrep).
  destruct v as [[po c] s]. simpl in *. subst s c.
  assert (Hloop : exists w1 z,
    (if nothrow_move_assignable
     then ptr_for po (ptr_add po (Z.of_nat (length l)))
                  (fun i => move_assign (ptr_add i 1) i)
     else ptr_for po (ptr_add po (Z.of_nat (length l)))
                  (fun i => copy_assign (ptr_add i 1) i)) w = Ret tt w1 /\
    writes w w1 po ((Live <$> l) ++ Live z :: replicate (cap - S (length l)) Raw) 0 0).
  { assert (Hsteps : (length l <= steps_left w po)%nat).
    { unfold steps_left. unfold block_of in Hb.
      destruct (blk po) as [b|]; [|simplify_eq].
      rewrite Hb, Hoff. simpl. rewrite length_app, length_fmap. lia. }
    assert (Hcells : block_of w po =
              Some ([] ++ Live x :: (Live <$> l) ++ replicate (cap - S (length l)) Raw))
      by exact Hb.
    destruct nothrow_move_assignable.
    - assert (Hbody : forall w0 i cs a b,
          block_of w0 i = Some cs -> 0 <= off i ->
          cs !! Z.to_nat (off i) = Some (Live a) ->
          cs !! Z.to_nat (off i + 1) = Some (Live b) ->
          exists w', move_assign (ptr_add i 1) i w0 = Ret tt w' /\
            writes w0 w' i (<[Z.to_nat (off i + 1) := Live (moved_from b)]>
                              (<[Z.to_nat (off i) := Live b]> cs)) 0 0).
      { intros w0 i cs a b Hcs Hi Ha Hb'.
        destruct (move_assign_ok w0 (ptr_add i 1) i cs b a) as (w' & E & W);
          simpl; try done; try lia.
        exists w'. split; [done|]. exact W. }
      destruct (shift_left_loop moved_from _ Hbody l w po x []
                  (replicate (cap - S (length l)) Raw) (steps_left w po) Hcells)
        as (w1 & z & E1 & W1); simpl; try done; try lia.
      exists w1, z. split; [exact E1|exact W1].
    - assert (Hbody : forall w0 i cs a b,
          block_of w0 i = Some cs -> 0 <= off i ->
          cs !! Z.to_nat (off i) = Some (Live a) ->
          cs !! Z.to_nat (off i + 1) = Some (Live b) ->
          exists w', copy_assign (ptr_add i 1) i w0 = Ret tt w' /\
            writes w0 w' i (<[Z.to_nat (off i + 1) := Live b]>
                              (<[Z.to_nat (off i) := Live b]> cs)) 0 0).
      { intros w0 i cs a b Hcs Hi Ha Hb'.
        destruct (copy_assign_ok w0 (ptr_add i 1) i cs b a) as (w' & E & W);
          simpl; try done; try lia.
        exists w'. split; [done|].
        eapply writes_cells; [exact W|].
        symmetry. apply list_insert_id.
        rewrite list_lookup_insert_ne by lia. done. }
      destruct (shift_left_loop (fun b => b) _ Hbody l w po x []
                  (replicate (cap - S (length l)) Raw) (steps_left w po) Hcells)
        as (w1 & z & E1 & W1); simpl; try done; try lia.
      exists w1, z. split; [exact E1|exact W1]. }
  destruct Hloop as (w1 & z & E1 & W1).
  destruct (destroy_at_ok w1 (ptr_add po (Z.of_nat (length l))) _ z (proj1 W1))
    as (w2 & E2 & W2).
  { simpl. lia. }
  { simpl. apply list_lookup_middle. rewrite length_fmap. lia. }
  exists {| this := {| data_ := {| buffer_ := po; capacity_ := Z.of_nat cap |};
                       size_ := Z.of_nat (length l) |}; mem := w2 |}.
  split.
  - unfold call, V1.Erase. cbn. step_plus.
    replace (ptr_add (ptr_add po (Z.of_nat (S (length l)))) (- (ptr_diff po po + 1)))
      with (ptr_add po (Z.of_nat (length l)))
      by (unfold ptr_add, ptr_diff; simpl; f_equal; lia).
    step_if E1.
    rewrite size_sub_small by lia.
    replace (Z.of_nat (S (length l)) - 1) with (Z.of_nat (length l)) by lia.
    step_end. step_mem E2. reflexivity.
  - cbn. destruct W1 as (_ & _ & C1 & D1). destruct W2 as (B2 & _ & C2 & D2).
    split; [done|]. split; [|lia].
    apply holds_intro; try done; try lia.
    etransitivity; [exact B2|]. f_equal. simpl.
    rewrite insert_middle by (rewrite length_fmap; lia).
    replace (cap - length l)%nat with (S (cap - S (length l))) by lia. done.
Qed.

End Removing.

(** ** When a constructor throws *)

Section ExceptionSafety.
Context {T : Type} `{Element T}.
Implicit Types (w : world T) (p q : ptr) (cs : list (slot T)) (vs l : list T) (v : Vector).

(** A block that is allocated, written to and released leaves the
    store as it was. *)
Lemma allocated_and_released w w2 w3 pn :
  (forall r, is_Some (block_of w r) -> blk r <> blk pn) -> blk pn <> None ->
  (forall q, blk q <> blk pn -> block_of w2 q = block_of w q) ->
  (forall q, blk q <> blk pn -> block_of w3 q = block_of w2 q) ->
  (forall q, blk q = blk pn -> blk q <> None -> block_of w3 q = None) ->
  forall q, block_of w3 q = block_of w q.
Proof.
  intros Fresh Hsome F2 F3 R3 q.
  destruct (decide (blk q = blk pn)) as [Heq|Hne].
  - rewrite (fresh_block_none w q pn Fresh Heq). apply R3; congruence.
  - rewrite F3, F2; done.
Qed.




(** [Reserve] of the first revision when the transfer copies and the
    copy of the element of index [k] throws: the copies made so far are
    destroyed, the new buffer is released, vector and store are as
    before. *)
Lemma V1_Reserve_throws v w l cap n k y :
  holds w v l cap -> Z.of_nat cap < n -> representable n -> roomy ->
  transfer_safe = false ->
  l !! k = Some y -> calm w k -> ctor_throws (constructed w + k) y = true ->
  exists w',
    call (V1.Reserve n) v w = Exn {| this := v; mem := w' |} /\
    (forall q, block_of w' q = block_of w q) /\
    constructed w' = (constructed w + k)%nat /\
    destroyed w' = (destroyed w + k)%nat.
Proof.
  intros Hv Hlt Hrepn Hroomy Hunsafe Hy Hcalm Hthrow.
  assert (Hn : Z.of_nat cap < n <= SIZE_MAX) by (split; [done|by apply representable_max]).
  pose proof Hv as (Hs & Hc & Hle & Hmax & Hoff & Hb & Hrep).
  destruct v as [[po c] s]. simpl in *. subst s c.
  assert (Hk : (k < length l)%nat) by (eapply lookup_lt_Some; eauto).
  destruct (RawMemory_new_ok w n) as (nd & w1 & E1 & Hcn & Hoffn & W1 & Fresh);
    [lia|done|done|].
  assert (Hnpos : 0 < n) by lia.
  pose proof (RawMemory_new_block w _ _ _ Hnpos E1) as Hsome.
  destruct nd as [pn cn]. simpl in *. subst cn.
  assert (Hne : blk po <> blk pn) by (apply Fresh; by eexists).
  pose proof W1 as (B1 & F1 & C1 & D1).
  destruct (uninitialized_copy_n_throws l w1 po pn [] (replicate (cap - length l) Raw)
              [] (replicate (length l) Raw) (replicate (Z.to_nat n - length l) Raw)
              (Z.of_nat (length l)) k y)
    as (w2 & E2 & W2); simpl; try done; try lia.
  { rewrite F1 by done. exact Hb. }
  { etransitivity; [exact B1|]. f_equal. rewrite <- replicate_add. f_equal. lia. }
  { by rewrite length_replicate. }
  { intros j z Hj. apply Hcalm. lia. }
  { rewrite <- Hthrow. f_equal. lia. }
  destruct W2 as (B2 & F2 & C2 & D2).
  destruct (RawMemory_destroy_released w2 {| buffer_ := pn; capacity_ := n |} _ B2)
    as (w3 & E3 & F3 & R3 & C3 & D3); [done|].
  simpl in *.
  exists w3. split; [|split; [|lia]].
  - unfold call, V1.Reserve. cbn. zb. cbn. step_mem E1.
    apply bind_exn. eapply unwind_exn.
    + cbn. rewrite Hunsafe. apply bind_exn. apply in_mem_exn. exact E2.
    + cbn. erewrite in_mem_ret by exact E3. reflexivity.
  - eapply (allocated_and_released w w2 w3 pn); eauto.
    intros q Hq. rewrite F2, F1; done.
Qed.

End ExceptionSafety.

(** ** The properties *)

Section FurtherProperties.
Context {T : Type} `{Element T}.
Implicit Types (w : world T) (p q : ptr) (cs : list (slot T)) (vs l : list T) (v : Vector).

(** X1: [Vector(size)], for a [size] such that [size * sizeof(T)] fits
    [size_t].  When the allocation succeeds, it builds [size]
    value-initialised elements in a buffer of exactly [size] slots and
    leaves the storage there is alone; [Vector(0)] allocates nothing
    and is the empty vector.  When the construction of the element of
    index [k] throws, the [k] elements built so far are destroyed
    again, the buffer is released, and the store is as before.  When
    [operator new] throws, so does the constructor, and nothing has
    changed. *)
Theorem sized_constructor_spec w n :
  representable (Z.of_nat n) ->
  (roomy -> calm w n ->
   exists v w',
     Vector_sized (Z.of_nat n) w = Ret v w' /\
     holds w' v (replicate n value_init) n /\
     (n = 0%nat -> v = Vector_default /\ w' = w) /\
     (forall q, is_Some (block_of w q) -> block_of w' q = block_of w q) /\
     constructed w' = (constructed w + n)%nat /\
     destroyed w' = destroyed w) /\
  (forall k,
      roomy ->
      (k < n)%nat -> calm w k -> ctor_throws (constructed w + k) value_init = true ->
      exists w',
        Vector_sized (Z.of_nat n) w = Exn w' /\
        (forall q, block_of w' q = block_of w q) /\
        constructed w' = (constructed w + k)%nat /\
        destroyed w' = (destroyed w + k)%nat) /\
  ((0 < n)%nat ->
   new_throws (length (heap w)) (size_mul (Z.of_nat n) (Z.pos size_of)) = true ->
   Vector_sized (Z.of_nat n) w = Exn w).
Proof.
  intros Hrep. split; [|split].
  - intros Hroomy Hcalm.
    destruct (Vector_sized_ok w n Hrep Hroomy Hcalm) as (v & w' & E & Hv & F & C & D).
    exists v, w'. split; [done|]. split; [done|]. split; [|done].
    intros ->. change (Vector_sized 0 w = Ret v w') in E.
    assert (E0 : Vector_sized 0 w = Ret Vector_default w) by reflexivity.
    rewrite E0 in E. by injection E as <- <-.
  - intros k Hroomy Hk Hcalm Hthrow. by apply Vector_sized_throws.
  - intros Hn Hthrow. apply Vector_sized_new_throws; [lia|done].
Qed.

(** X2: the copy constructor, when the allocation succeeds, gives the
    copy a buffer of its own with exactly as many slots as the source
    has elements, whatever the capacity of the source, copies the
    elements in order, and leaves the source as it is.  When the copy
    of the element of index [k] throws, the [k] copies made so far are
    destroyed again, the buffer is released, and the store is as
    before.  When [operator new] throws, so does the constructor, and
    nothing has changed. *)
Theorem copy_constructor_spec w other l cap :
  holds w other l cap ->
  (roomy -> calm w (length l) ->
   exists c w',
     Vector_copy other w = Ret c w' /\
     holds w' c l (length l) /\
     holds w' other l cap /\
     apart c other /\
     (forall q, is_Some (block_of w q) -> block_of w' q = block_of w q) /\
     constructed w' = (constructed w + length l)%nat /\
     destroyed w' = destroyed w) /\
  (forall k y,
      roomy ->
      l !! k = Some y -> calm w k -> ctor_throws (constructed w + k) y = true ->
      exists w',
        Vector_copy other w = Exn w' /\
        (forall q, block_of w' q = block_of w q) /\
        constructed w' = (constructed w + k)%nat /\
        destroyed w' = (destroyed w + k)%nat) /\
  (l <> [] ->
   new_throws (length (heap w))
              (size_mul (Z.of_nat (length l)) (Z.pos size_of)) = true ->
   Vector_copy other w = Exn w).
Proof.
  intros Hv. split; [|split].
  - intros Hroomy Hcalm. by apply Vector_copy_all.
  - intros k y Hroomy Hy Hcalm Hthrow. by eapply Vector_copy_fails.
  - intros Hne Hthrow. destruct Hv as (Hs & _).
    apply Vector_copy_new_throws; rewrite Hs; [|done].
    destruct l; [done|simpl; lia].
Qed.

(** X3: the destructor destroys every element, releases the buffer, and
    leaves every vector that does not share the buffer as it is. *)
Theorem destructor_spec w v l cap :
  holds w v l cap ->
  exists w',
    Vector_destroy v w = Ret tt w' /\
    (cap <> 0%nat -> block_of w' (buffer_ (data_ v)) = None) /\
    (forall other lo co, holds w other lo co -> apart other v -> holds w' other lo co) /\
    constructed w' = constructed w /\
    destroyed w' = (destroyed w + length l)%nat.
Proof.
  intros Hv.
  destruct (Vector_destroy_released w v l cap Hv) as (w' & E & F & R & C & D).
  exists w'. split; [done|]. split; [|split; [|done]].
  - intros Hcap. apply R; [done|].
    destruct Hv as (_ & _ & _ & _ & _ & Hb & _). intros Hnone.
    apply (block_of_null w _ _ Hb) in Hnone.
    apply (f_equal length) in Hnone.
    rewrite length_app, length_fmap, length_replicate in Hnone. simpl in Hnone. lia.
  - intros other lo co (Hs & Hc & Hle & Hmax & Hoff & Hb & Hrep) Hap.
    repeat split; try done.
    destruct (decide (blk (buffer_ (data_ other)) = blk (buffer_ (data_ v)))) as [Heq|Hne].
    + specialize (Hap Heq). unfold block_of in *. by rewrite Hap in *.
    + by rewrite F.
Qed.

(** X4: [operator[]] checks the index against the size only by an
    assertion: with [index < size] it refers to the element of that
    index; with [index >= size] the behaviour is undefined, also when
    the index is below the capacity. *)
Theorem subscript_spec v w l cap i :
  holds w v l cap -> 0 <= i ->
  (forall x, l !! Z.to_nat i = Some x ->
     call (subscript i) v w =
       Ret (ptr_add (buffer_ (data_ v)) i) {| this := v; mem := w |} /\
     load (ptr_add (buffer_ (data_ v)) i) w = Ret x w) /\
  (Z.of_nat (length l) <= i -> call (subscript i) v w = Undef).
Proof.
  intros Hv Hi. pose proof Hv as (Hs & Hc & Hle & Hmax & Hoff & Hb & Hrep). split.
  - intros x Hx.
    assert (Hlt : (Z.to_nat i < length l)%nat) by (eapply lookup_lt_Some; eauto).
    split.
    + unfold call, subscript. cbn. rewrite Hs. zb. cbn.
      apply RawMemory_index_ok. lia.
    + pose proof (holds_load w v l cap (Z.to_nat i) x Hv Hx) as E.
      by rewrite Z2Nat.id in E.
  - intros Hge. unfold call, subscript. cbn. rewrite Hs. zb. done.
Qed.

(** X5: [Resize(n)] of the first revision, for [n] such that
    [n * sizeof(T)] fits [size_t], when no allocation and no
    constructor throws, leaves the first [n] elements followed, when
    [n] exceeds the size, by value-initialised ones; the capacity stays
    unless [n] exceeds it, in which case it becomes exactly [n];
    afterwards [n] objects are alive where [size] were.  While [n] does
    not exceed the capacity the buffer is kept and the second revision
    does the same. *)
Theorem Resize_spec v w l cap n :
  holds w v l cap -> representable (Z.of_nat n) -> roomy -> calm w n ->
  exists f,
    call (V1.Resize (Z.of_nat n)) v w = Ret tt f /\
    holds (mem f) (this f) (take n l ++ replicate (n - length l) value_init) (Nat.max cap n) /\
    ((n <= cap)%nat ->
       data_ (this f) = data_ v /\
       call (V2.Resize (Z.of_nat n)) v w = Ret tt f) /\
    (constructed (mem f) + destroyed w + length l =
     constructed w + destroyed (mem f) + n)%nat.
Proof.
  intros Hv Hrep Hroomy Hcalm.
  assert (HV2 : (n <= cap)%nat ->
                call (V2.Resize (Z.of_nat n)) v w = call (V1.Resize (Z.of_nat n)) v w).
  { intros Hn. apply V2_Resize_within. simpl.
    destruct Hv as (_ & Hc & _). rewrite Hc. lia. }
  destruct (Nat.ltb_spec n (length l)) as [Hlt|Hge].
  - destruct (V1_Resize_shrink v w l cap n Hv Hlt) as (f & E & Hd & Hf & C & D).
    exists f. split; [done|]. split; [|split; [|lia]].
    + replace (n - length l)%nat with 0%nat by lia. simpl. rewrite app_nil_r.
      destruct Hv as (_ & _ & Hle & _).
      replace (Nat.max cap n) with cap by lia. done.
    + intros Hn. split; [done|]. by rewrite HV2.
  - destruct (Nat.leb_spec n cap) as [Hfit|Hgrow].
    + destruct (V1_Resize_extend v w l cap n Hv) as (f & E & Hd & Hf & C & D); [lia| |].
      { eapply calm_le; [exact Hcalm|lia]. }
      exists f. split; [done|]. split; [|split; [|lia]].
      * rewrite take_ge by lia. replace (Nat.max cap n) with cap by lia. done.
      * intros Hn. split; [done|]. by rewrite HV2.
    + destruct (V1_Resize_grow v w l cap n Hv Hgrow Hrep Hroomy Hcalm)
        as (f & E & Hf & C & D).
      exists f. split; [done|]. split; [|split; [lia|lia]].
      rewrite take_ge by lia. replace (Nat.max cap n) with n by lia. done.
Qed.

(** X6: in the second revision [Reserve] does nothing when the capacity
    suffices; otherwise it, and likewise [Resize] beyond the capacity,
    never returns normally: [SwapNewData] hands back a reference to its
    local [RawMemory], which is destroyed on return, and the caller
    move-constructs from it.  On a vector in good state, when the
    allocation succeeds, the call is undefined. *)
Theorem second_revision_regrowth v w k :
  (k <= capacity_ (data_ v) ->
     call (V2.Reserve k) v w = Ret tt {| this := v; mem := w |}) /\
  (capacity_ (data_ v) < k ->
     (forall f, call (V2.Reserve k) v w <> Ret tt f) /\
     (size_ v <= k -> forall f, call (V2.Resize k) v w <> Ret tt f)) /\
  (forall l cap,
      holds w v l cap -> Z.of_nat cap < k <= SIZE_MAX -> roomy -> calm w (length l) ->
      call (V2.Reserve k) v w = Undef /\ call (V2.Resize k) v w = Undef).
Proof.
  split; [by apply V2_Reserve_enough|]. split.
  - intros Hk. split.
    + intros f. by apply V2_Reserve_no_return.
    + intros Hs f. by apply V2_Resize_no_return.
  - intros l cap Hv Hk Hroomy Hcalm. split.
    + by eapply V2_Reserve_undefined.
    + by eapply V2_Resize_undefined.
Qed.

(** X7: appends that fit into the capacity keep the buffer (pointers to
    the elements stay valid), construct one object each and destroy
    none, in both revisions. *)
Theorem appends_within_capacity v w l cap xs :
  holds w v l cap -> (length l + length xs <= cap)%nat -> calm w (length xs) ->
  (exists f,
     call (push_all V1.PushBack xs) v w = Ret tt f /\
     data_ (this f) = data_ v /\
     holds (mem f) (this f) (l ++ xs) cap /\
     constructed (mem f) = (constructed w + length xs)%nat /\
     destroyed (mem f) = destroyed w) /\
  (exists f,
     call (push_all V2.PushBack xs) v w = Ret tt f /\
     data_ (this f) = data_ v /\
     holds (mem f) (this f) (l ++ xs) cap /\
     constructed (mem f) = (constructed w + length xs)%nat /\
     destroyed (mem f) = destroyed w).
Proof.
  intros Hv Hfit Hcalm. split.
  - apply (push_all_within V1.PushBack V1_PushBack_inplace xs l v w cap Hv Hfit Hcalm).
  - apply (push_all_within V2.PushBack V2_PushBack_inplace xs l v w cap Hv Hfit Hcalm).
Qed.

(** X8: after [Reserve(k)] of the first revision, for [k] above the
    capacity such that [k * sizeof(T)] fits [size_t] and when the
    allocation succeeds, appends up to the size [k] happen in the
    buffer that [Reserve] allocated. *)
Theorem Reserve_then_append v w l cap k xs :
  holds w v l cap -> Z.of_nat cap < k -> representable k -> roomy ->
  (length l + length xs <= Z.to_nat k)%nat -> calm w (length l + length xs) ->
  exists f1 f2,
    call (V1.Reserve k) v w = Ret tt f1 /\
    call (push_all V1.PushBack xs) (this f1) (mem f1) = Ret tt f2 /\
    data_ (this f2) = data_ (this f1) /\
    capacity_ (data_ (this f2)) = k /\
    holds (mem f2) (this f2) (l ++ xs) (Z.to_nat k).
Proof.
  intros Hv Hk Hrep Hroomy Hfit Hcalm.
  destruct (V1_Reserve_grow v w l cap k Hv Hk Hrep Hroomy) as (f1 & E1 & H1 & Hc1 & C1 & D1).
  { eapply calm_le; [exact Hcalm|lia]. }
  destruct (push_all_within V1.PushBack V1_PushBack_inplace xs l (this f1) (mem f1) _ H1 Hfit)
    as (f2 & E2 & Hd2 & H2 & C2 & D2).
  { intros j y Hj. apply Hcalm. lia. }
  exists f1, f2. split; [done|]. split; [done|]. split; [done|].
  split; [by rewrite Hd2|done].
Qed.

(** X9: [n] appends to an empty vector, when no allocation fails,
    construct [n] elements plus one object for every element
    transferred at a reallocation, that is [n + capacity - 1] objects
    for [n >= 1], fewer than [3 n]; the objects destroyed are the
    transferred ones.  Both revisions.  ([2 n] elements are taken to
    fit [size_t] in bytes.) *)
Theorem appends_cost (xs : list T) w0 :
  representable (2 * Z.of_nat (length xs)) -> roomy -> quiet w0 ->
  (exists f,
     call (push_all V1.PushBack xs) Vector_default w0 = Ret tt f /\
     constructed (mem f) =
       (constructed w0 + length xs + pred (capacity_after (length xs)))%nat /\
     destroyed (mem f) = (destroyed w0 + pred (capacity_after (length xs)))%nat /\
     (constructed (mem f) <= constructed w0 + 3 * length xs)%nat) /\
  (exists f,
     call (push_all V2.PushBack xs) Vector_default w0 = Ret tt f /\
     constructed (mem f) =
       (constructed w0 + length xs + pred (capacity_after (length xs)))%nat /\
     destroyed (mem f) = (destroyed w0 + pred (capacity_after (length xs)))%nat /\
     (constructed (mem f) <= constructed w0 + 3 * length xs)%nat).
Proof.
  intros Hsmall Hroomy Hq.
  assert (Hbound : (pred (capacity_after (length xs)) <= 2 * length xs)%nat).
  { destruct (decide (length xs = 0%nat)) as [->|Hne]; [simpl; lia|].
    pose proof (capacity_after_lt (length xs)). lia. }
  split.
  - destruct (push_all_counts V1.PushBack V1_PushBack_inplace (V1_PushBack_realloc Hroomy)
                xs [] Vector_default w0 (holds_default w0) Hsmall Hq)
      as (f & E & _ & C & D).
    simpl in C, D. exists f. split; [done|]. lia.
  - destruct (push_all_counts V2.PushBack V2_PushBack_inplace (V2_PushBack_realloc Hroomy)
                xs [] Vector_default w0 (holds_default w0) Hsmall Hq)
      as (f & E & _ & C & D).
    simpl in C, D. exists f. split; [done|]. lia.
Qed.

(** X10: a vector built by appends, none of whose allocations fails,
    and then destroyed leaves no object behind: as many objects have
    been destroyed as were constructed, and the buffer is released.
    Both revisions.  ([2 n] elements are taken to fit [size_t] in
    bytes.) *)
Theorem appends_then_destructor (xs : list T) w0 :
  representable (2 * Z.of_nat (length xs)) -> roomy -> quiet w0 ->
  (exists f w',
     call (push_all V1.PushBack xs) Vector_default w0 = Ret tt f /\
     Vector_destroy (this f) (mem f) = Ret tt w' /\
     (constructed w' + destroyed w0 = constructed w0 + destroyed w')%nat /\
     (xs <> [] -> block_of w' (buffer_ (data_ (this f))) = None)) /\
  (exists f w',
     call (push_all V2.PushBack xs) Vector_default w0 = Ret tt f /\
     Vector_destroy (this f) (mem f) = Ret tt w' /\
     (constructed w' + destroyed w0 = constructed w0 + destroyed w')%nat /\
     (xs <> [] -> block_of w' (buffer_ (data_ (this f))) = None)).
Proof.
  intros Hsmall Hroomy Hq.
  assert (Hend : forall f,
    holds (mem f) (this f) xs (capacity_after (length xs)) ->
    (constructed (mem f) + pred (capacity_after 0) =
     constructed w0 + length xs + pred (capacity_after (length xs)))%nat ->
    (destroyed (mem f) + pred (capacity_after 0) =
     destroyed w0 + pred (capacity_after (length xs)))%nat ->
    exists w',
      Vector_destroy (this f) (mem f) = Ret tt w' /\
      (constructed w' + destroyed w0 = constructed w0 + destroyed w')%nat /\
      (xs <> [] -> block_of w' (buffer_ (data_ (this f))) = None)).
  { intros f Hf C D. simpl in C, D.
    destruct (Vector_destroy_released (mem f) (this f) xs _ Hf) as (w' & E & F & R & C' & D').
    exists w'. split; [done|]. split; [lia|].
    intros Hne. apply R; [done|].
    destruct Hf as (_ & _ & _ & _ & _ & Hb & _). intros Hnone.
    apply (block_of_null _ _ _ Hb) in Hnone.
    apply (f_equal length) in Hnone.
    rewrite length_app, length_fmap in Hnone.
    destruct xs; [done|]. simpl in Hnone. lia. }
  split.
  - destruct (push_all_counts V1.PushBack V1_PushBack_inplace (V1_PushBack_realloc Hroomy)
                xs [] Vector_default w0 (holds_default w0) Hsmall Hq)
      as (f & E & Hf & C & D).
    destruct (Hend f Hf C D) as (w' & E' & Hw').
    exists f, w'. done.
  - destruct (push_all_counts V2.PushBack V2_PushBack_inplace (V2_PushBack_realloc Hroomy)
                xs [] Vector_default w0 (holds_default w0) Hsmall Hq)
      as (f & E & Hf & C & D).
    destruct (Hend f Hf C D) as (w' & E' & Hw').
    exists f, w'. done.
Qed.

(** X11: [PushBack], when its allocation, if any, succeeds, followed by
    [PopBack] gives back the elements the vector had; the capacity is
    what the append made it.  Both revisions. *)
Theorem PushBack_then_PopBack v w l cap x :
  holds w v l cap -> representable (Z.max 1 (2 * Z.of_nat (length l))) -> roomy ->
  calm w (S (length l)) ->
  let cap' := if (length l <? cap)%nat then cap else Nat.max 1 (2 * length l) in
  (exists f,
     call (V1.PushBack x;;; V1.PopBack) v w = Ret tt f /\
     holds (mem f) (this f) l cap' /\
     (constructed (mem f) + destroyed w = constructed w + destroyed (mem f))%nat) /\
  (exists f,
     call (V2.PushBack x;;; V2.PopBack) v w = Ret tt f /\
     holds (mem f) (this f) l cap' /\
     (constructed (mem f) + destroyed w = constructed w + destroyed (mem f))%nat).
Proof.
  intros Hv Hsmall Hroomy Hcalm cap'. subst cap'.
  destruct (Nat.ltb_spec (length l) cap) as [Hlt|Hfull].
  - split.
    + destruct (V1_PushBack_inplace v w l cap x Hv Hlt) as (f1 & E1 & _ & H1 & C1 & D1).
      { eapply calm_le; [exact Hcalm|lia]. }
      destruct (V1_PopBack_nonempty (this f1) (mem f1) l x cap H1)
        as (f2 & E2 & _ & H2 & C2 & D2).
      exists f2. split; [|split; [done|lia]].
      unfold call in *. erewrite bind_ret by exact E1. destruct f1. exact E2.
    + destruct (V2_PushBack_inplace v w l cap x Hv Hlt) as (f1 & E1 & _ & H1 & C1 & D1).
      { eapply calm_le; [exact Hcalm|lia]. }
      destruct (V2_PopBack_nonempty (this f1) (mem f1) l x cap H1)
        as (f2 & E2 & _ & H2 & C2 & D2).
      exists f2. split; [|split; [done|lia]].
      unfold call in *. erewrite bind_ret by exact E1. destruct f1. exact E2.
  - split.
    + destruct (V1_PushBack_realloc Hroomy v w l cap x Hv Hfull Hsmall Hcalm)
        as (f1 & E1 & H1 & C1 & D1).
      destruct (V1_PopBack_nonempty (this f1) (mem f1) l x _ H1)
        as (f2 & E2 & _ & H2 & C2 & D2).
      exists f2. split; [|split; [done|lia]].
      unfold call in *. erewrite bind_ret by exact E1. destruct f1. exact E2.
    + destruct (V2_PushBack_realloc Hroomy v w l cap x Hv Hfull Hsmall Hcalm)
        as (f1 & E1 & H1 & C1 & D1).
      destruct (V2_PopBack_nonempty (this f1) (mem f1) l x _ H1)
        as (f2 & E2 & _ & H2 & C2 & D2).
      exists f2. split; [|split; [done|lia]].
      unfold call in *. erewrite bind_ret by exact E1. destruct f1. exact E2.
Qed.


(** X13: [Reserve(n)] of the first revision, for [n] above the capacity
    such that [n * sizeof(T)] fits [size_t], has the strong guarantee
    and leaks nothing: when the allocation succeeds, the element type
    is transferred by copy and the copy of the element of index [k]
    throws, the [k] copies made so far are destroyed again, the new
    buffer is released, and vector and store are as before. *)
Theorem Reserve_strong_guarantee v w l cap n k y :
  holds w v l cap -> Z.of_nat cap < n -> representable n -> roomy ->
  transfer_safe = false ->
  l !! k = Some y -> calm w k -> ctor_throws (constructed w + k) y = true ->
  exists w',
    call (V1.Reserve n) v w = Exn {| this := v; mem := w' |} /\
    holds w' v l cap /\
    (forall q, block_of w' q = block_of w q) /\
    constructed w' = (constructed w + k)%nat /\
    destroyed w' = (destroyed w + k)%nat.
Proof.
  intros Hv Hn Hrepn Hroomy Hunsafe Hy Hcalm Hthrow.
  destruct (V1_Reserve_throws v w l cap n k y Hv Hn Hrepn Hroomy Hunsafe Hy Hcalm Hthrow)
    as (w' & E & F & C & D).
  exists w'. split; [done|]. split; [|done].
  destruct Hv as (Hs & Hc & Hle & Hmax & Hoff & Hb & Hrep).
  repeat split; try done. by rewrite F.
Qed.

(** X14: [Insert] and [Emplace] at index [i] give the elements before
    [i], the new element, and the elements from [i] on, with one more
    object alive than before; the capacity is kept when there is room
    and becomes [max(1, 2 * size)] otherwise.  This holds in both
    revisions for element types that are transferred by move, and for
    every element type when the buffer is full or the position is
    [end()], in a call whose allocation, if any, succeeds. *)
Theorem Insert_spec v w l cap x i :
  holds w v l cap -> (i <= length l)%nat ->
  representable (Z.max 1 (2 * Z.of_nat (length l))) -> roomy ->
  calm w (S (S (length l))) ->
  transfer_safe = true \/ (cap <= length l)%nat \/ i = length l ->
  let pos := ptr_add (buffer_ (data_ v)) (Z.of_nat i) in
  let cap' := if (length l <? cap)%nat then cap else Nat.max 1 (2 * length l) in
  (exists p f,
     call (V1.Insert pos x) v w = Ret p f /\
     holds (mem f) (this f) (take i l ++ x :: drop i l) cap' /\
     (constructed (mem f) + destroyed w = constructed w + destroyed (mem f) + 1)%nat) /\
  (exists p f,
     call (V2.Insert pos x) v w = Ret p f /\
     holds (mem f) (this f) (take i l ++ x :: drop i l) cap' /\
     (constructed (mem f) + destroyed w = constructed w + destroyed (mem f) + 1)%nat).
Proof.
  intros Hv Hi Hsmall Hroomy Hcalm Hcase pos cap'. subst pos cap'. split.
  - destruct (V1_Emplace_ok v w l cap x i Hv Hi Hsmall Hroomy Hcalm Hcase)
      as (f & E & Hf & C & _).
    eexists _, f. split; [exact E|]. done.
  - destruct (V2_Emplace_ok v w l cap x i Hv Hi Hsmall Hroomy Hcalm Hcase)
      as (f & E & Hf & C & _).
    eexists _, f. split; [exact E|]. done.
Qed.

(** X15: [Erase(begin())] of the first revision removes the first
    element of a non-empty vector: the others move down by one, the
    buffer and the capacity stay, one object is destroyed, and the
    result is [begin()]. *)
Theorem Erase_front v w x l cap :
  holds w v (x :: l) cap ->
  exists f,
    call (do b <- begin_; V1.Erase b) v w = Ret (buffer_ (data_ v)) f /\
    data_ (this f) = data_ v /\
    holds (mem f) (this f) l cap /\
    constructed (mem f) = constructed w /\ destroyed (mem f) = S (destroyed w).
Proof.
  intros Hv.
  destruct (V1_Erase_front v w x l cap Hv) as (f & E & Hf).
  exists f. split; [|done]. exact E.
Qed.

(** X16: the second revision asserts the position it is given:
    [Emplace] and [Insert] at a position after [end()], and [Erase] at
    [end()] or after it, are undefined. *)
Theorem position_checks v w l cap i x :
  holds w v l cap ->
  let pos := ptr_add (buffer_ (data_ v)) i in
  (Z.of_nat (length l) < i ->
     call (V2.Emplace pos x) v w = Undef /\ call (V2.Insert pos x) v w = Undef) /\
  (Z.of_nat (length l) <= i -> call (V2.Erase pos) v w = Undef).
Proof.
  intros (Hs & Hc & Hle & Hmax & Hoff & Hb & Hrep) pos. subst pos.
  destruct v as [[po c] s]. simpl in *. subst s c.
  split.
  - intros Hi.
    assert (E : call (V2.Emplace (ptr_add po i) x)
                  {| data_ := {| buffer_ := po; capacity_ := Z.of_nat cap |};
                     size_ := Z.of_nat (length l) |} w = Undef).
    { unfold call, V2.Emplace. cbn. step_plus.
      rewrite ptr_leb_add. zb. by rewrite andb_false_r. }
    split; exact E.
  - intros Hi. unfold call, V2.Erase. cbn. step_plus.
    rewrite ptr_ltb_add. zb. by rewrite andb_false_r.
Qed.

(** X17: in the first revision [Insert] at [begin()] followed by
    [Erase] at [begin()] gives back the elements the vector had, when
    the element type is transferred by move, or the buffer is full, or
    the vector is empty (and the allocation, if any, succeeds).  For an
    element type that is transferred by copy, on a vector that is not
    empty and has spare capacity, the insert is undefined, and so is
    the sequence. *)
Theorem Insert_front_then_Erase_front v w l cap x :
  holds w v l cap ->
  (representable (Z.max 1 (2 * Z.of_nat (length l))) -> roomy ->
   calm w (S (S (length l))) ->
   transfer_safe = true \/ (cap <= length l)%nat \/ 0%nat = length l ->
   exists p f,
     call (do _ <- (do b <- begin_; V1.Insert b x); do b <- begin_; V1.Erase b) v w =
       Ret p f /\
     p = buffer_ (data_ (this f)) /\
     holds (mem f) (this f) l
           (if (length l <? cap)%nat then cap else Nat.max 1 (2 * length l))) /\
  (transfer_safe = false -> (0 < length l < cap)%nat -> calm w 1 ->
   call (do _ <- (do b <- begin_; V1.Insert b x); do b <- begin_; V1.Erase b) v w =
     Undef).
Proof.
  intros Hv.
  assert (Hpos : GetAddress (data_ v) = ptr_add (buffer_ (data_ v)) (Z.of_nat 0)).
  { unfold GetAddress, ptr_add. destruct (buffer_ (data_ v)). simpl. f_equal. lia. }
  split.
  - intros Hsmall Hroomy Hcalm Hcase.
    destruct (V1_Emplace_ok v w l cap x 0%nat Hv) as (f1 & E1 & H1 & _);
      [lia|done|done|done|done|].
    rewrite take_0, drop_0 in H1. simpl in H1.
    destruct (V1_Erase_front (this f1) (mem f1) x l _ H1) as (f2 & E2 & Hd & H2 & _).
    exists (buffer_ (data_ (this f1))), f2.
    split; [|split; [by rewrite Hd|done]].
    unfold call in *.
    erewrite bind_ret; cycle 1.
    { unfold begin_, V1.Insert. cbn. rewrite Hpos. exact E1. }
    destruct f1. exact E2.
  - intros Hunsafe Hl Hcalm.
    assert (E1 : (do b <- begin_; V1.Insert b x) {| this := v; mem := w |} = Undef).
    { change ((do b <- begin_; V1.Insert b x) {| this := v; mem := w |})
        with (call (V1.Emplace (GetAddress (data_ v)) x) v w).
      rewrite Hpos. apply (V1_Emplace_unsafe_undefined v w l cap x 0%nat Hv); [lia|lia|done|done]. }
    unfold call. unfold bind at 1. by rewrite E1.
Qed.

(** X18: [RawMemory(n)] allocates nothing when [n = 0].  Otherwise it
    asks [operator new] for [n * sizeof(T)] bytes, computed in
    [size_t]: when that throws, so does the constructor, and nothing
    has changed; when it succeeds, the object records the capacity [n]
    and owns a fresh block with room for [n] objects if
    [n * sizeof(T)] fits [size_t], and for only
    [(n * sizeof(T) mod 2^64) / sizeof(T)] objects in general.  The
    destructor releases the block, after which the store is as it was
    before the allocation.  [operator+] accepts offsets up to and
    including the capacity, [operator[]] only below it; anything else
    fails the assertion. *)
Theorem RawMemory_spec w n :
  0 <= n <= SIZE_MAX ->
  (0 < n -> new_throws (length (heap w)) (size_mul n (Z.pos size_of)) = true ->
   RawMemory_new n w = Exn w) /\
  (n = 0 \/ new_throws (length (heap w)) (size_mul n (Z.pos size_of)) = false ->
   exists m w1 w2,
     RawMemory_new n w = Ret m w1 /\
     capacity_ m = n /\
     block_of w1 (buffer_ m) = Some (replicate (Z.to_nat (room n)) Raw) /\
     (representable n -> room n = n) /\
     (n = 0 -> buffer_ m = nullptr /\ w1 = w) /\
     (forall q, is_Some (block_of w q) -> block_of w1 q = block_of w q) /\
     RawMemory_destroy m w1 = Ret tt w2 /\
     (forall q, block_of w2 q = block_of w q) /\
     (forall k (s : frame T),
         0 <= k <= SIZE_MAX ->
         (k <= n -> RawMemory_plus m k s = Ret (ptr_add (buffer_ m) k) s) /\
         (n < k -> RawMemory_plus m k s = Undef) /\
         (k < n -> RawMemory_index m k s = Ret (ptr_add (buffer_ m) k) s) /\
         (n <= k -> RawMemory_index m k s = Undef))).
Proof.
  intros Hn. split.
  - intros Hpos Hthrow. by apply RawMemory_new_throws.
  - intros Hok.
    assert (Hbounds : forall m, capacity_ m = n -> forall k (s : frame T),
      0 <= k <= SIZE_MAX ->
      (k <= n -> RawMemory_plus m k s = Ret (ptr_add (buffer_ m) k) s) /\
      (n < k -> RawMemory_plus m k s = Undef) /\
      (k < n -> RawMemory_index m k s = Ret (ptr_add (buffer_ m) k) s) /\
      (n <= k -> RawMemory_index m k s = Undef)).
    { intros m Hm k s _. repeat split; intros Hk.
      - apply RawMemory_plus_ok. lia.
      - unfold RawMemory_plus, assert, bind. rewrite Hm. zb. done.
      - apply RawMemory_index_ok. lia.
      - unfold RawMemory_index, assert, bind. rewrite Hm. zb. done. }
    assert (Hroom : representable n -> room n = n).
    { intros Hrep. apply room_small; [lia|done]. }
    destruct (decide (n = 0)) as [->|Hne].
    + exists RawMemory_default, w, w.
      split; [reflexivity|]. split; [reflexivity|]. split; [reflexivity|].
      split; [done|]. split; [done|]. split; [done|]. split; [reflexivity|].
      split; [done|]. by apply Hbounds.
    + assert (Hpos : 0 < n) by lia.
      destruct Hok as [?|Hok]; [lia|].
      destruct (RawMemory_new_cases w n Hpos)
        as [[Ht _]|(_ & m & w1 & E1 & Hc & Hoff & W1 & Fresh)]; [congruence|].
      pose proof (RawMemory_new_block w n m w1 Hpos E1) as Hsome.
      destruct W1 as (B1 & F1 & _).
      destruct (RawMemory_destroy_released w1 m _ B1 Hoff) as (w2 & E2 & F2 & R2 & _).
      exists m, w1, w2.
      split; [done|]. split; [done|]. split; [done|]. split; [done|]. split; [lia|].
      split; [|split; [done|split; [|by apply Hbounds]]].
      * intros q Hq. apply F1. by apply Fresh.
      * eapply (allocated_and_released w w1 w2 (buffer_ m)); eauto.
Qed.

End FurtherProperties.

(** ** The further properties at concrete vectors *)

Section FurtherWitnesses.
#[local] Existing Instance plain.

Lemma sized_constructor_spec_witness :
  representable (Z.of_nat 3) /\ roomy /\ calm (T := Z) empty_world 3 /\
  (exists v w',
     Vector_sized (Z.of_nat 3) empty_world = Ret v w' /\ holds w' v [0; 0; 0] 3) /\
  (exists w',
     @Vector_sized Z throws_fifth (Z.of_nat 3) pair_world = Exn w' /\
     forall q, block_of w' q = block_of pair_world q) /\
  @Vector_sized Z starved (Z.of_nat 3) pair_world = Exn pair_world.
Proof.
  assert (Hrep : representable (Z.of_nat 3)) by (vm_compute; congruence).
  assert (Hrep' : representable (H := throws_fifth) (Z.of_nat 3)) by (vm_compute; congruence).
  assert (Hrep'' : representable (H := starved) (Z.of_nat 3)) by (vm_compute; congruence).
  assert (Hroomy : roomy) by (intros b n; reflexivity).
  assert (Hroomy' : roomy (H := throws_fifth)) by (intros b n; reflexivity).
  assert (Hc : calm (T := Z) empty_world 3) by (intros k v _; reflexivity).
  split; [exact Hrep|]. split; [exact Hroomy|]. split; [exact Hc|]. split; [|split].
  - destruct (sized_constructor_spec empty_world 3 Hrep) as (Hok & _).
    destruct (Hok Hroomy Hc) as (v & w' & E & Hv & _).
    exists v, w'. split; [exact E|exact Hv].
  - destruct (sized_constructor_spec (H := throws_fifth) pair_world 3 Hrep')
      as (_ & Hthrow & _).
    destruct (Hthrow 0%nat Hroomy') as (w' & E & F & _);
      [lia|intros k v Hk; lia|reflexivity|].
    exists w'. split; [exact E|exact F].
  - destruct (sized_constructor_spec (H := starved) pair_world 3 Hrep'') as (_ & _ & Hfail).
    apply Hfail; [lia|reflexivity].
Defined.

Lemma copy_constructor_spec_witness :
  holds pair_world first_vector [1; 2] 2 /\ roomy /\ calm pair_world (length [1; 2]) /\
  (exists c w',
     Vector_copy first_vector pair_world = Ret c w' /\
     holds w' c [1; 2] 2 /\ holds w' first_vector [1; 2] 2 /\ apart c first_vector) /\
  (exists w',
     @Vector_copy Z throws_fifth first_vector pair_world = Exn w' /\
     forall q, block_of w' q = block_of pair_world q) /\
  @Vector_copy Z starved first_vector pair_world = Exn pair_world.
Proof.
  assert (H2 : holds pair_world first_vector [1; 2] 2).
  { repeat split; try reflexivity; try (vm_compute; congruence); simpl; lia. }
  assert (H2' : holds (H := throws_fifth) pair_world first_vector [1; 2] 2).
  { repeat split; try reflexivity; try (vm_compute; congruence); simpl; lia. }
  assert (H2'' : holds (H := starved) pair_world first_vector [1; 2] 2).
  { repeat split; try reflexivity; try (vm_compute; congruence); simpl; lia. }
  assert (Hroomy : roomy) by (intros b n; reflexivity).
  assert (Hroomy' : roomy (H := throws_fifth)) by (intros b n; reflexivity).
  assert (Hc : calm pair_world (length [1; 2])) by (intros k v _; reflexivity).
  split; [exact H2|]. split; [exact Hroomy|]. split; [exact Hc|]. split; [|split].
  - destruct (copy_constructor_spec pair_world first_vector [1; 2] 2%nat H2) as (Hok & _).
    destruct (Hok Hroomy Hc) as (c & w' & E & Hcp & Hsrc & Hap & _).
    exists c, w'. split; [exact E|]. split; [exact Hcp|]. split; [exact Hsrc|exact Hap].
  - destruct (copy_constructor_spec (H := throws_fifth) pair_world first_vector [1; 2] 2%nat H2')
      as (_ & Hthrow & _).
    destruct (Hthrow 0%nat 1 Hroomy') as (w' & E & F & _);
      [reflexivity|intros k v Hk; lia|reflexivity|].
    exists w'. split; [exact E|exact F].
  - destruct (copy_constructor_spec (H := starved) pair_world first_vector [1; 2] 2%nat H2'')
      as (_ & _ & Hfail).
    apply Hfail; [done|reflexivity].
Defined.

Lemma destructor_spec_witness :
  holds pair_world first_vector [1; 2] 2 /\
  holds pair_world second_vector [7] 1 /\
  apart second_vector first_vector /\
  exists w',
    Vector_destroy first_vector pair_world = Ret tt w' /\
    block_of w' (buffer_ (data_ first_vector)) = None /\
    holds w' second_vector [7] 1 /\
    destroyed w' = (destroyed pair_world + 2)%nat.
Proof.
  assert (H1 : holds pair_world second_vector [7] 1).
  { repeat split; try reflexivity; try (vm_compute; congruence); simpl; lia. }
  assert (H2 : holds pair_world first_vector [1; 2] 2).
  { repeat split; try reflexivity; try (vm_compute; congruence); simpl; lia. }
  assert (A12 : apart second_vector first_vector) by (intros E; vm_compute in E; congruence).
  split; [exact H2|]. split; [exact H1|]. split; [exact A12|].
  destruct (destructor_spec pair_world first_vector [1; 2] 2%nat H2)
    as (w' & E & R & Hothers & _ & D).
  exists w'. split; [exact E|]. split; [apply R; lia|].
  split; [exact (Hothers second_vector [7] 1%nat H1 A12)|exact D].
Defined.

Lemma subscript_spec_witness :
  holds pair_world first_vector [1; 2] 2 /\ 0 <= 1 /\ 0 <= 2 /\
  load (ptr_add (buffer_ (data_ first_vector)) 1) pair_world = Ret 2 pair_world /\
  call (subscript 2) first_vector pair_world = Undef.
Proof.
  assert (H2 : holds pair_world first_vector [1; 2] 2).
  { repeat split; try reflexivity; try (vm_compute; congruence); simpl; lia. }
  split; [exact H2|]. split; [lia|]. split; [lia|]. split.
  - destruct (subscript_spec first_vector pair_world [1; 2] 2%nat 1 H2) as (Hin & _); [lia|].
    destruct (Hin 2) as (_ & E); [reflexivity|exact E].
  - destruct (subscript_spec first_vector pair_world [1; 2] 2%nat 2 H2) as (_ & Hout); [lia|].
    apply Hout. simpl. lia.
Defined.

Lemma Resize_spec_witness :
  holds pair_world first_vector [1; 2] 2 /\
  representable (Z.of_nat 4) /\ representable (Z.of_nat 1) /\ roomy /\
  calm pair_world 4 /\ calm pair_world 1 /\
  (exists f,
     call (V1.Resize (Z.of_nat 4)) first_vector pair_world = Ret tt f /\
     holds (mem f) (this f) [1; 2; 0; 0] 4) /\
  (exists f,
     call (V2.Resize (Z.of_nat 1)) first_vector pair_world = Ret tt f /\
     holds (mem f) (this f) [1] 2).
Proof.
  assert (H2 : holds pair_world first_vector [1; 2] 2).
  { repeat split; try reflexivity; try (vm_compute; congruence); simpl; lia. }
  assert (Hr4 : representable (Z.of_nat 4)) by (vm_compute; congruence).
  assert (Hr1 : representable (Z.of_nat 1)) by (vm_compute; congruence).
  assert (Hroomy : roomy) by (intros b n; reflexivity).
  assert (Hc : forall n, calm pair_world n) by (intros n k v _; reflexivity).
  split; [exact H2|]. split; [exact Hr4|]. split; [exact Hr1|]. split; [exact Hroomy|].
  split; [apply Hc|]. split; [apply Hc|]. split.
  - destruct (Resize_spec first_vector pair_world [1; 2] 2%nat 4%nat H2 Hr4 Hroomy (Hc 4%nat))
      as (f & E & Hf & _).
    exists f. split; [exact E|exact Hf].
  - destruct (Resize_spec first_vector pair_world [1; 2] 2%nat 1%nat H2 Hr1 Hroomy (Hc 1%nat))
      as (f & _ & Hf & Hfit & _).
    destruct Hfit as (_ & E); [lia|].
    exists f. split; [exact E|exact Hf].
Defined.

Lemma second_revision_regrowth_witness :
  holds sample_world sample_vector [5] 2 /\
  1 <= capacity_ (data_ sample_vector) /\ Z.of_nat 2 < 5 <= SIZE_MAX /\
  Z.of_nat 2 < 2 ^ 62 <= SIZE_MAX /\
  roomy /\ calm sample_world (length [5]) /\
  call (V2.Reserve 1) sample_vector sample_world =
    Ret tt {| this := sample_vector; mem := sample_world |} /\
  call (V2.Reserve 5) sample_vector sample_world = Undef /\
  call (V2.Resize 5) sample_vector sample_world = Undef /\
  call (V2.Reserve (2 ^ 62)) sample_vector sample_world = Undef.
Proof.
  assert (Hv : holds sample_world sample_vector [5] 2).
  { repeat split; try reflexivity; try (vm_compute; congruence); simpl; lia. }
  assert (Hk : Z.of_nat 2 < 5 <= SIZE_MAX) by (vm_compute; split; congruence).
  assert (Hk' : Z.of_nat 2 < 2 ^ 62 <= SIZE_MAX) by (vm_compute; split; congruence).
  assert (Hroomy : roomy) by (intros b n; reflexivity).
  assert (Hc : calm sample_world (length [5])) by (intros k v _; reflexivity).
  assert (H1 : 1 <= capacity_ (data_ sample_vector)) by (simpl; lia).
  split; [exact Hv|]. split; [exact H1|]. split; [exact Hk|]. split; [exact Hk'|].
  split; [exact Hroomy|]. split; [exact Hc|].
  split.
  - destruct (second_revision_regrowth sample_vector sample_world 1) as (Hnoop & _).
    exact (Hnoop H1).
  - destruct (second_revision_regrowth sample_vector sample_world 5) as (_ & _ & Hundef).
    destruct (Hundef [5] 2%nat Hv Hk Hroomy Hc) as (E1 & E2).
    split; [exact E1|]. split; [exact E2|].
    destruct (second_revision_regrowth sample_vector sample_world (2 ^ 62))
      as (_ & _ & Hwrap).
    exact (proj1 (Hwrap [5] 2%nat Hv Hk' Hroomy Hc)).
Defined.

Lemma appends_within_capacity_witness :
  holds sample_world sample_vector [5] 2 /\
  (length [5] + length [6] <= 2)%nat /\ calm sample_world (length [6]) /\
  (exists f,
     call (push_all V1.PushBack [6]) sample_vector sample_world = Ret tt f /\
     data_ (this f) = data_ sample_vector /\
     holds (mem f) (this f) [5; 6] 2) /\
  (exists f,
     call (push_all V2.PushBack [6]) sample_vector sample_world = Ret tt f /\
     data_ (this f) = data_ sample_vector /\
     holds (mem f) (this f) [5; 6] 2).
Proof.
  assert (Hv : holds sample_world sample_vector [5] 2).
  { repeat split; try reflexivity; try (vm_compute; congruence); simpl; lia. }
  assert (Hfit : (length [5] + length [6] <= 2)%nat) by (simpl; lia).
  assert (Hc : calm sample_world (length [6])) by (intros k v _; reflexivity).
  split; [exact Hv|]. split; [exact Hfit|]. split; [exact Hc|].
  destruct (appends_within_capacity sample_vector sample_world [5] 2%nat [6] Hv Hfit Hc)
    as ((f1 & E1 & D1 & H1 & _) & (f2 & E2 & D2 & H2 & _)).
  split.
  - exists f1. split; [exact E1|]. split; [exact D1|exact H1].
  - exists f2. split; [exact E2|]. split; [exact D2|exact H2].
Defined.

Lemma Reserve_then_append_witness :
  holds sample_world sample_vector [5] 2 /\ Z.of_nat 2 < 4 /\
  representable 4 /\ roomy /\
  (length [5] + length [6; 7; 8] <= Z.to_nat 4)%nat /\
  calm sample_world (length [5] + length [6; 7; 8]) /\
  exists f1 f2,
    call (V1.Reserve 4) sample_vector sample_world = Ret tt f1 /\
    call (push_all V1.PushBack [6; 7; 8]) (this f1) (mem f1) = Ret tt f2 /\
    data_ (this f2) = data_ (this f1) /\
    holds (mem f2) (this f2) [5; 6; 7; 8] 4.
Proof.
  assert (Hv : holds sample_world sample_vector [5] 2).
  { repeat split; try reflexivity; try (vm_compute; congruence); simpl; lia. }
  assert (Hk : Z.of_nat 2 < 4) by (simpl; lia).
  assert (Hr : representable 4) by (vm_compute; congruence).
  assert (Hroomy : roomy) by (intros b n; reflexivity).
  assert (Hfit : (length [5] + length [6; 7; 8] <= Z.to_nat 4)%nat) by (simpl; lia).
  assert (Hc : calm sample_world (length [5] + length [6; 7; 8]))
    by (intros k v _; reflexivity).
  split; [exact Hv|]. split; [exact Hk|]. split; [exact Hr|]. split; [exact Hroomy|].
  split; [exact Hfit|]. split; [exact Hc|].
  destruct (Reserve_then_append sample_vector sample_world [5] 2%nat 4 [6; 7; 8]
              Hv Hk Hr Hroomy Hfit Hc) as (f1 & f2 & E1 & E2 & Hd & _ & H2).
  exists f1, f2. split; [exact E1|]. split; [exact E2|]. split; [exact Hd|exact H2].
Defined.

Lemma appends_cost_witness :
  representable (2 * Z.of_nat (length [1; 2; 3; 4; 5])) /\ roomy /\
  quiet (T := Z) empty_world /\
  (exists f,
     call (push_all V1.PushBack [1; 2; 3; 4; 5]) Vector_default empty_world = Ret tt f /\
     constructed (mem f) = 12%nat /\ destroyed (mem f) = 7%nat) /\
  (exists f,
     call (push_all V2.PushBack [1; 2; 3; 4; 5]) Vector_default empty_world = Ret tt f /\
     constructed (mem f) = 12%nat /\ destroyed (mem f) = 7%nat).
Proof.
  assert (Hxs : representable (2 * Z.of_nat (length [1; 2; 3; 4; 5])))
    by (vm_compute; congruence).
  assert (Hroomy : roomy) by (intros b n; reflexivity).
  assert (Hq : quiet (T := Z) empty_world) by (intros k v _; reflexivity).
  split; [exact Hxs|]. split; [exact Hroomy|]. split; [exact Hq|].
  destruct (appends_cost [1; 2; 3; 4; 5] empty_world Hxs Hroomy Hq)
    as ((f1 & E1 & C1 & D1 & _) & (f2 & E2 & C2 & D2 & _)).
  split.
  - exists f1. split; [exact E1|]. split; [exact C1|exact D1].
  - exists f2. split; [exact E2|]. split; [exact C2|exact D2].
Defined.

Lemma appends_then_destructor_witness :
  representable (2 * Z.of_nat (length [1; 2; 3])) /\ roomy /\
  quiet (T := Z) empty_world /\
  (exists f w',
     call (push_all V1.PushBack [1; 2; 3]) Vector_default empty_world = Ret tt f /\
     Vector_destroy (this f) (mem f) = Ret tt w' /\
     constructed w' = destroyed w' /\
     block_of w' (buffer_ (data_ (this f))) = None) /\
  (exists f w',
     call (push_all V2.PushBack [1; 2; 3]) Vector_default empty_world = Ret tt f /\
     Vector_destroy (this f) (mem f) = Ret tt w' /\
     constructed w' = destroyed w' /\
     block_of w' (buffer_ (data_ (this f))) = None).
Proof.
  assert (Hxs : representable (2 * Z.of_nat (length [1; 2; 3])))
    by (vm_compute; congruence).
  assert (Hroomy : roomy) by (intros b n; reflexivity).
  assert (Hq : quiet (T := Z) empty_world) by (intros k v _; reflexivity).
  split; [exact Hxs|]. split; [exact Hroomy|]. split; [exact Hq|].
  destruct (appends_then_destructor [1; 2; 3] empty_world Hxs Hroomy Hq)
    as ((f1 & w1 & E1 & X1 & C1 & R1) & (f2 & w2 & E2 & X2 & C2 & R2)).
  split.
  - exists f1, w1. split; [exact E1|]. split; [exact X1|].
    split; [simpl in C1; lia|by apply R1].
  - exists f2, w2. split; [exact E2|]. split; [exact X2|].
    split; [simpl in C2; lia|by apply R2].
Defined.

Lemma PushBack_then_PopBack_witness :
  holds pair_world first_vector [1; 2] 2 /\
  representable (Z.max 1 (2 * Z.of_nat (length [1; 2]))) /\ roomy /\
  calm pair_world (S (length [1; 2])) /\
  (exists f,
     call (V1.PushBack 9;;; V1.PopBack) first_vector pair_world = Ret tt f /\
     holds (mem f) (this f) [1; 2] 4) /\
  (exists f,
     call (V2.PushBack 9;;; V2.PopBack) first_vector pair_world = Ret tt f /\
     holds (mem f) (this f) [1; 2] 4).
Proof.
  assert (H2 : holds pair_world first_vector [1; 2] 2).
  { repeat split; try reflexivity; try (vm_compute; congruence); simpl; lia. }
  assert (Hs : representable (Z.max 1 (2 * Z.of_nat (length [1; 2]))))
    by (vm_compute; congruence).
  assert (Hroomy : roomy) by (intros b n; reflexivity).
  assert (Hc : calm pair_world (S (length [1; 2]))) by (intros k v _; reflexivity).
  split; [exact H2|]. split; [exact Hs|]. split; [exact Hroomy|]. split; [exact Hc|].
  destruct (PushBack_then_PopBack first_vector pair_world [1; 2] 2%nat 9 H2 Hs Hroomy Hc)
    as ((f1 & E1 & H1 & _) & (f2 & E2 & H2' & _)).
  split.
  - exists f1. split; [exact E1|exact H1].
  - exists f2. split; [exact E2|exact H2'].
Defined.


Lemma Reserve_strong_guarantee_witness :
  @holds Z throws_fifth pair_world first_vector [1; 2] 2 /\ Z.of_nat 2 < 5 /\
  @representable Z throws_fifth 5 /\ @roomy Z throws_fifth /\
  @transfer_safe Z throws_fifth = false /\
  @calm Z throws_fifth pair_world 0 /\
  @ctor_throws Z throws_fifth (constructed pair_world + 0) 1 = true /\
  exists w',
    call (@V1.Reserve Z throws_fifth 5) first_vector pair_world =
      Exn {| this := first_vector; mem := w' |} /\
    @holds Z throws_fifth w' first_vector [1; 2] 2 /\
    constructed w' = constructed pair_world /\ destroyed w' = destroyed pair_world.
Proof.
  assert (H2 : holds (H := throws_fifth) pair_world first_vector [1; 2] 2).
  { repeat split; try reflexivity; try (vm_compute; congruence); simpl; lia. }
  assert (Hk : Z.of_nat 2 < 5) by (simpl; lia).
  assert (Hr : @representable Z throws_fifth 5) by (vm_compute; congruence).
  assert (Hroomy : @roomy Z throws_fifth) by (intros b n; reflexivity).
  assert (Hc : @calm Z throws_fifth pair_world 0) by (intros k v Hk'; lia).
  split; [exact H2|]. split; [exact Hk|]. split; [exact Hr|]. split; [exact Hroomy|].
  split; [reflexivity|]. split; [exact Hc|]. split; [reflexivity|].
  destruct (Reserve_strong_guarantee (H := throws_fifth)
              first_vector pair_world [1; 2] 2%nat 5 0%nat 1 H2 Hk Hr Hroomy)
    as (w' & E & Hw' & _ & C & D); [reflexivity|reflexivity|exact Hc|reflexivity|].
  exists w'. split; [exact E|]. split; [exact Hw'|]. split; [lia|lia].
Defined.

Lemma Insert_spec_witness :
  holds sample_world sample_vector [5] 2 /\ (0 <= length [5])%nat /\
  representable (Z.max 1 (2 * Z.of_nat (length [5]))) /\ roomy /\
  calm sample_world (S (S (length [5]))) /\
  (transfer_safe = true \/ (2 <= length [5])%nat \/ 0%nat = length [5]) /\
  (exists p f,
     call (V1.Insert (ptr_add (buffer_ (data_ sample_vector)) (Z.of_nat 0)) 9)
          sample_vector sample_world = Ret p f /\
     holds (mem f) (this f) [9; 5] 2) /\
  (exists p f,
     call (V2.Insert (ptr_add (buffer_ (data_ sample_vector)) (Z.of_nat 0)) 9)
          sample_vector sample_world = Ret p f /\
     holds (mem f) (this f) [9; 5] 2).
Proof.
  assert (Hv : holds sample_world sample_vector [5] 2).
  { repeat split; try reflexivity; try (vm_compute; congruence); simpl; lia. }
  assert (Hr : representable (Z.max 1 (2 * Z.of_nat (length [5]))))
    by (vm_compute; congruence).
  assert (Hroomy : roomy) by (intros b n; reflexivity).
  assert (Hc : calm sample_world (S (S (length [5])))) by (intros k v _; reflexivity).
  assert (Hs : transfer_safe = true \/ (2 <= length [5])%nat \/ 0%nat = length [5])
    by (left; reflexivity).
  split; [exact Hv|]. split; [simpl; lia|]. split; [exact Hr|]. split; [exact Hroomy|].
  split; [exact Hc|]. split; [exact Hs|].
  destruct (Insert_spec sample_vector sample_world [5] 2%nat 9 0%nat Hv)
    as ((p1 & f1 & E1 & H1 & _) & (p2 & f2 & E2 & H2 & _));
    [simpl; lia|exact Hr|exact Hroomy|exact Hc|exact Hs|].
  split.
  - exists p1, f1. split; [exact E1|exact H1].
  - exists p2, f2. split; [exact E2|exact H2].
Defined.

Lemma Erase_front_witness :
  holds pair_world first_vector [1; 2] 2 /\
  exists f,
    call (do b <- begin_; V1.Erase b) first_vector pair_world =
      Ret (buffer_ (data_ first_vector)) f /\
    holds (mem f) (this f) [2] 2.
Proof.
  assert (H2 : holds pair_world first_vector [1; 2] 2).
  { repeat split; try reflexivity; try (vm_compute; congruence); simpl; lia. }
  split; [exact H2|].
  destruct (Erase_front first_vector pair_world 1 [2] 2%nat H2) as (f & E & _ & Hf & _).
  exists f. split; [exact E|exact Hf].
Defined.

Lemma position_checks_witness :
  holds pair_world first_vector [1; 2] 2 /\
  Z.of_nat (length [1; 2]) < 3 /\ Z.of_nat (length [1; 2]) <= 2 /\
  call (V2.Insert (ptr_add (buffer_ (data_ first_vector)) 3) 9) first_vector pair_world
    = Undef /\
  call (V2.Erase (ptr_add (buffer_ (data_ first_vector)) 2)) first_vector pair_world
    = Undef.
Proof.
  assert (H2 : holds pair_world first_vector [1; 2] 2).
  { repeat split; try reflexivity; try (vm_compute; congruence); simpl; lia. }
  split; [exact H2|]. split; [simpl; lia|]. split; [simpl; lia|]. split.
  - destruct (position_checks first_vector pair_world [1; 2] 2%nat 3 9 H2) as (Hins & _).
    destruct Hins as (_ & E); [simpl; lia|exact E].
  - destruct (position_checks first_vector pair_world [1; 2] 2%nat 2 9 H2) as (_ & Hers).
    apply Hers. simpl. lia.
Defined.

Lemma Insert_front_then_Erase_front_witness :
  holds pair_world first_vector [1; 2] 2 /\
  representable (Z.max 1 (2 * Z.of_nat (length [1; 2]))) /\ roomy /\
  calm pair_world (S (S (length [1; 2]))) /\
  (transfer_safe = true \/ (2 <= length [1; 2])%nat \/ 0%nat = length [1; 2]) /\
  (exists p f,
     call (do _ <- (do b <- begin_; V1.Insert b 9); do b <- begin_; V1.Erase b)
          first_vector pair_world = Ret p f /\
     holds (mem f) (this f) [1; 2] 4) /\
  @transfer_safe Z copied = false /\ (0 < length [5] < 2)%nat /\
  @calm Z copied sample_world 1 /\
  call (do _ <- (do b <- begin_; @V1.Insert Z copied b 9);
        do b <- begin_; @V1.Erase Z copied b)
       sample_vector sample_world = Undef.
Proof.
  assert (H2 : holds pair_world first_vector [1; 2] 2).
  { repeat split; try reflexivity; try (vm_compute; congruence); simpl; lia. }
  assert (Hv : holds (H := copied) sample_world sample_vector [5] 2).
  { repeat split; try reflexivity; try (vm_compute; congruence); simpl; lia. }
  assert (Hs : representable (Z.max 1 (2 * Z.of_nat (length [1; 2]))))
    by (vm_compute; congruence).
  assert (Hroomy : roomy) by (intros b n; reflexivity).
  assert (Hc : calm pair_world (S (S (length [1; 2])))) by (intros k v _; reflexivity).
  assert (Hcase : transfer_safe = true \/ (2 <= length [1; 2])%nat \/ 0%nat = length [1; 2])
    by (left; reflexivity).
  assert (Hl : (0 < length [5] < 2)%nat) by (simpl; lia).
  assert (Hc' : @calm Z copied sample_world 1).
  { intros k v Hk. simpl in Hk. assert (k = 1%nat) as -> by lia. reflexivity. }
  split; [exact H2|]. split; [exact Hs|]. split; [exact Hroomy|]. split; [exact Hc|].
  split; [exact Hcase|]. split; [|split; [reflexivity|split; [exact Hl|split; [exact Hc'|]]]].
  - destruct (Insert_front_then_Erase_front first_vector pair_world [1; 2] 2%nat 9 H2)
      as (Hok & _).
    destruct (Hok Hs Hroomy Hc Hcase) as (p & f & E & _ & Hf).
    exists p, f. split; [exact E|exact Hf].
  - destruct (Insert_front_then_Erase_front (H := copied)
                sample_vector sample_world [5] 2%nat 9 Hv) as (_ & Hundef).
    apply Hundef; [reflexivity|exact Hl|exact Hc'].
Defined.

Lemma RawMemory_spec_witness :
  0 <= 3 <= SIZE_MAX /\ 0 <= 2 ^ 62 + 1 <= SIZE_MAX /\
  (exists m w1 w2,
     RawMemory_new (T := Z) 3 empty_world = Ret m w1 /\
     block_of w1 (buffer_ m) = Some [Raw; Raw; Raw] /\
     RawMemory_destroy m w1 = Ret tt w2 /\
     (forall q, block_of w2 q = block_of (T := Z) empty_world q) /\
     RawMemory_plus m 3 {| this := Vector_default; mem := w1 |} =
       Ret (ptr_add (buffer_ m) 3) {| this := Vector_default; mem := w1 |} /\
     RawMemory_index m 3 {| this := Vector_default; mem := w1 |} = Undef) /\
  (exists m w1,
     RawMemory_new (T := Z) (2 ^ 62 + 1) empty_world = Ret m w1 /\
     capacity_ m = 2 ^ 62 + 1 /\
     block_of w1 (buffer_ m) = Some [Raw]) /\
  @RawMemory_new Z starved 3 empty_world = Exn empty_world.
Proof.
  assert (H3 : 0 <= 3 <= SIZE_MAX) by (vm_compute; split; congruence).
  assert (Hw : 0 <= 2 ^ 62 + 1 <= SIZE_MAX) by (vm_compute; split; congruence).
  split; [exact H3|]. split; [exact Hw|]. split; [|split].
  - destruct (RawMemory_spec (T := Z) empty_world 3 H3) as (_ & Hok).
    destruct Hok as (m & w1 & w2 & E1 & _ & B1 & _ & _ & _ & E2 & F2 & Hb);
      [right; reflexivity|].
    exists m, w1, w2.
    split; [exact E1|]. split; [exact B1|]. split; [exact E2|]. split; [exact F2|].
    destruct (Hb 3 {| this := Vector_default; mem := w1 |} H3) as (Hplus & _ & _ & Hidx).
    split; [apply Hplus; lia|apply Hidx; lia].
  - destruct (RawMemory_spec (T := Z) empty_world (2 ^ 62 + 1) Hw) as (_ & Hok).
    destruct Hok as (m & w1 & w2 & E1 & Hc & B1 & _); [right; reflexivity|].
    exists m, w1. split; [exact E1|]. split; [exact Hc|exact B1].
  - destruct (RawMemory_spec (H := starved) empty_world 3 H3) as (Hfail & _).
    apply Hfail; [lia|reflexivity].
Defined.

End FurtherWitnesses.

(** ** [Resize] when a constructor throws *)

Section ResizeFailure.
Context {T : Type} `{Element T}.
Implicit Types (w : world T) (p q : ptr) (cs : list (slot T)) (vs l : list T) (v : Vector).

(** A counted loop whose round of index [k] throws: nothing is undone. *)
Lemma index_for_loop_throws (I : nat -> world T -> Prop) body k :
  forall n i w,
    (k < n)%nat -> I i w ->
    (forall j w1, (i <= j < i + k)%nat -> I j w1 ->
                  exists w2, body (Z.of_nat j) w1 = Ret tt w2 /\ I (S j) w2) ->
    (forall w1, I (i + k)%nat w1 -> body (Z.of_nat (i + k)) w1 = Exn w1) ->
    exists w', index_for_loop body (Z.of_nat i) n w = Exn w' /\ I (i + k)%nat w'.
Proof.
  induction k as [|k IH]; intros n i w Hk HI Hstep Hthrow.
  - destruct n as [|n]; [lia|]. rewrite Nat.add_0_r in *.
    exists w. split; [|done]. simpl. apply bind_exn. by apply Hthrow.
  - destruct n as [|n]; [lia|].
    destruct (Hstep i w) as (w1 & E1 & I1); [lia|done|].
    destruct (IH n (S i) w1) as (w' & E' & HI'); [lia|done| | |].
    + intros j w2 Hj. apply Hstep. lia.
    + intros w2 HI2. replace (S i + k)%nat with (i + S k)%nat in * by lia.
      by apply Hthrow.
    + exists w'. replace (i + S k)%nat with (S i + k)%nat by lia.
      split; [|done]. simpl. erewrite bind_ret by exact E1.
      replace (Z.of_nat i + 1) with (Z.of_nat (S i)) by lia. exact E'.
Qed.

(** The copying loop of [Resize] when the copy of the element of index
    [k] throws: the [k] copies made so far stay in the new buffer. *)
Lemma Resize_copy_throws l w po pn cap m k y :
  blk po <> blk pn -> off po = 0 -> off pn = 0 ->
  block_of w po = Some ((Live <$> l) ++ replicate (cap - length l) Raw) ->
  (length l <= cap)%nat ->
  block_of w pn = Some (replicate m Raw) -> (length l <= m)%nat ->
  l !! k = Some y -> calm w k -> ctor_throws (constructed w + k) y = true ->
  exists w',
    index_for (Z.of_nat (length l)) (fun i =>
      do src <- RawMemory_index {| buffer_ := po; capacity_ := Z.of_nat cap |} i;
      copy_construct src (ptr_add pn i)) w = Exn w' /\
    writes w w' pn ((Live <$> take k l) ++ replicate (m - k) Raw) k 0.
Proof.
  intros Hne Hpo Hpn Hbo Hle Hbn Hm Hy Hcalm Hthrow.
  assert (Hk : (k < length l)%nat) by (eapply lookup_lt_Some; eauto).
  unfold index_for. rewrite Nat2Z.id.
  destruct (index_for_loop_throws
    (fun j w' => (j <= length l)%nat /\
       writes w w' pn ((Live <$> take j l) ++ replicate (m - j) Raw) j 0)
    (fun i => do src <- RawMemory_index {| buffer_ := po; capacity_ := Z.of_nat cap |} i;
              copy_construct src (ptr_add pn i))
    k (length l) 0%nat w) as (w' & E & _ & W); try done.
  - split; [lia|]. rewrite take_0, Nat.sub_0_r. simpl. by apply writes_refl.
  - intros j w1 Hj (_ & W1). simpl in Hj.
    assert (is_Some (l !! j)) as [x Hx] by (apply lookup_lt_is_Some_2; lia).
    assert (Hsrc1 : block_of w1 po = Some ((Live <$> l) ++ replicate (cap - length l) Raw)).
    { rewrite <- Hbo. eapply writes_other; eauto. }
    erewrite bind_ret by (apply RawMemory_index_ok; simpl; lia).
    unfold copy_construct.
    erewrite bind_ret; cycle 1.
    { eapply (load_ok w1 (ptr_add po (Z.of_nat j))); [exact Hsrc1|simpl; lia|].
      simpl. rewrite lookup_app_l by (rewrite length_fmap; lia).
      rewrite list_lookup_fmap.
      replace (Z.to_nat (off po + Z.of_nat j)) with j by lia. by rewrite Hx. }
    destruct (construct_at_ok w1 (ptr_add pn (Z.of_nat j)) _ x (proj1 W1))
      as (w2 & E2 & W2).
    + simpl. lia.
    + simpl. rewrite length_app, length_fmap, length_take, length_replicate. lia.
    + intros i z Hi. apply Hcalm. destruct W1 as (_ & _ & C1 & _). lia.
    + exists w2. split; [exact E2|]. split; [lia|].
      eapply writes_counts; [eapply writes_cells; [eapply writes_trans; [exact W1|exact W2]|]|lia|lia].
      simpl. rewrite (take_S_r l j x Hx).
      replace (m - j)%nat with (S (m - S j)) by lia. simpl.
      rewrite insert_middle by (rewrite length_fmap, length_take; lia).
      rewrite fmap_app. simpl. by rewrite <- app_assoc.
  - simpl. intros w1 (_ & W1).
    assert (Hsrc1 : block_of w1 po = Some ((Live <$> l) ++ replicate (cap - length l) Raw)).
    { rewrite <- Hbo. eapply writes_other; eauto. }
    erewrite bind_ret by (apply RawMemory_index_ok; simpl; lia).
    unfold copy_construct.
    erewrite bind_ret; cycle 1.
    { eapply (load_ok w1 (ptr_add po (Z.of_nat k))); [exact Hsrc1|simpl; lia|].
      simpl. rewrite lookup_app_l by (rewrite length_fmap; lia).
      rewrite list_lookup_fmap.
      replace (Z.to_nat (off po + Z.of_nat k)) with k by lia. by rewrite Hy. }
    apply construct_at_throws. destruct W1 as (_ & _ & C1 & _).
    rewrite C1. exact Hthrow.
  - exists w'. split; [exact E|exact W].
Qed.

(** [Resize] within the capacity when the construction of the new
    element of index [k] throws. *)
Lemma V1_Resize_extend_throws v w l cap n k :
  holds w v l cap -> (length l <= n <= cap)%nat -> (k < n - length l)%nat ->
  calm w k -> ctor_throws (constructed w + k) value_init = true ->
  exists w',
    call (V1.Resize (Z.of_nat n)) v w = Exn {| this := v; mem := w' |} /\
    (forall q, block_of w' q = block_of w q) /\
    constructed w' = (constructed w + k)%nat /\
    destroyed w' = (destroyed w + k)%nat.
Proof.
  intros (Hs & Hc & Hle & Hmax & Hoff & Hb & Hrep) Hn Hk Hcalm Hthrow.
  destruct v as [[po c] s]. simpl in *. subst s c.
  destruct (uninitialized_value_construct_n_throws w (ptr_add po (Z.of_nat (length l)))
              (Live <$> l) (replicate (n - length l) Raw) (replicate (cap - n) Raw)
              (n - length l) k)
    as (w1 & E1 & W1); simpl; try done; try lia.
  { etransitivity; [exact Hb|]. f_equal. f_equal. rewrite <- replicate_add. f_equal. lia. }
  { rewrite length_fmap. lia. }
  { by rewrite length_replicate. }
  exists w1. split; [|split].
  - unfold call, V1.Resize. cbn. zb. cbn. unfold RawMemory_Capacity. cbn. zb.
    rewrite size_sub_small by (unfold SIZE_MAX in *; lia).
    replace (Z.of_nat n - Z.of_nat (length l)) with (Z.of_nat (n - length l)) by lia.
    apply bind_exn. apply in_mem_exn. exact E1.
  - destruct W1 as (B1 & F1 & _). intros q.
    destruct (decide (blk q = blk po)) as [Heq|Hne]; [|by apply F1].
    transitivity (block_of w1 (ptr_add po (Z.of_nat (length l)))).
    { unfold block_of. simpl. by rewrite Heq. }
    rewrite B1. transitivity (block_of w po); [|unfold block_of; by rewrite Heq].
    rewrite Hb. f_equal. f_equal.
    rewrite drop_replicate, <- !replicate_add. f_equal. lia.
  - destruct W1 as (_ & _ & C1 & D1). lia.
Qed.

(** [Resize] beyond the capacity when the transfer copies and the copy
    of the element of index [k] throws. *)
Lemma V1_Resize_grow_throws v w l cap n k y :
  holds w v l cap -> (cap < n)%nat -> representable (Z.of_nat n) -> roomy ->
  transfer_safe = false ->
  l !! k = Some y -> calm w k -> ctor_throws (constructed w + k) y = true ->
  exists w',
    call (V1.Resize (Z.of_nat n)) v w = Exn {| this := v; mem := w' |} /\
    (forall q, block_of w' q = block_of w q) /\
    constructed w' = (constructed w + k)%nat /\
    destroyed w' = destroyed w.
Proof.
  intros (Hs & Hc & Hle & Hmax & Hoff & Hb & Hrep) Hn Hrepn Hroomy Hunsafe Hy Hcalm Hthrow.
  destruct v as [[po c] s]. simpl in *. subst s c.
  assert (Hk : (k < length l)%nat) by (eapply lookup_lt_Some; eauto).
  assert (Hnpos : 0 < Z.of_nat n) by lia.
  destruct (RawMemory_new_ok w (Z.of_nat n) Hnpos Hrepn Hroomy)
    as (nd & w1 & E1 & Hcn & Hoffn & W1 & Fresh).
  pose proof (RawMemory_new_block w _ _ _ Hnpos E1) as Hsome.
  destruct nd as [pn cn]. simpl in *. subst cn.
  assert (Hne : blk po <> blk pn) by (apply Fresh; by eexists).
  rewrite Nat2Z.id in W1.
  pose proof W1 as (B1 & F1 & C1 & D1).
  destruct (Resize_copy_throws l w1 po pn cap n k y)
    as (w2 & E2 & W2); try done; try lia.
  { rewrite F1 by done. exact Hb. }
  { intros j z Hj. apply Hcalm. lia. }
  { rewrite C1, Nat.add_0_r. exact Hthrow. }
  destruct W2 as (B2 & F2 & C2 & D2).
  destruct (RawMemory_destroy_released w2 {| buffer_ := pn; capacity_ := Z.of_nat n |} _ B2)
    as (w3 & E3 & F3 & R3 & C3 & D3); [done|].
  simpl in *.
  exists w3. split; [|split; [|lia]].
  - unfold call, V1.Resize. cbn. zb. cbn. unfold RawMemory_Capacity. cbn. zb.
    step_mem E1.
    apply bind_exn. eapply unwind_exn.
    + cbn. rewrite Hunsafe. apply bind_exn. apply in_mem_exn. exact E2.
    + cbn. erewrite in_mem_ret by exact E3. reflexivity.
  - eapply (allocated_and_released w w2 w3 pn); eauto.
    intros q Hq. rewrite F2, F1; done.
Qed.

(** [Resize] beyond the capacity when the elements have been
    transferred and the construction of the new element of index [j]
    throws: the new buffer is released with the transferred elements
    in it, and the old buffer holds what the transfer left there. *)
Lemma V1_Resize_value_throws v w l cap n j :
  holds w v l cap -> (cap < n)%nat -> representable (Z.of_nat n) -> roomy ->
  (j < n - length l)%nat -> calm w (length l + j) ->
  ctor_throws (constructed w + length l + j) value_init = true ->
  exists w',
    call (V1.Resize (Z.of_nat n)) v w = Exn {| this := v; mem := w' |} /\
    holds w' v (if transfer_safe then moved_from <$> l else l) cap /\
    (forall q, blk q <> blk (buffer_ (data_ v)) -> block_of w' q = block_of w q) /\
    constructed w' = (constructed w + length l + j)%nat /\
    destroyed w' = (destroyed w + j)%nat.
Proof.
  intros (Hs & Hc & Hle & Hmax & Hoff & Hb & Hrep) Hn Hrepn Hroomy Hj Hcalm Hthrow.
  pose proof (representable_max _ Hrepn) as Hnmax.
  destruct v as [[po c] s]. simpl in *. subst s c.
  assert (Hnpos : 0 < Z.of_nat n) by lia.
  destruct (RawMemory_new_ok w (Z.of_nat n) Hnpos Hrepn Hroomy)
    as (nd & w1 & E1 & Hcn & Hoffn & W1 & Fresh).
  pose proof (RawMemory_new_block w _ _ _ Hnpos E1) as Hsome.
  destruct nd as [pn cn]. simpl in *. subst cn.
  assert (Hne : blk po <> blk pn) by (apply Fresh; by eexists).
  rewrite Nat2Z.id in W1.
  pose proof W1 as (B1 & F1 & C1 & D1).
  destruct (Resize_transfer_exact l w1 po pn cap n)
    as (w2 & E2 & W2); try done; try lia.
  { rewrite F1 by done. exact Hb. }
  { intros i z Hi. apply Hcalm. lia. }
  pose proof W2 as (Bo2 & Bn2 & F2 & C2 & D2).
  destruct (uninitialized_value_construct_n_throws w2 (ptr_add pn (Z.of_nat (length l)))
              (Live <$> l) (replicate (n - length l) Raw) [] (n - length l) j)
    as (w3 & E3 & W3); simpl; try done; try lia.
  { etransitivity; [exact Bn2|]. by rewrite app_nil_r. }
  { rewrite length_fmap. lia. }
  { by rewrite length_replicate. }
  { intros i z Hi. apply Hcalm. lia. }
  { rewrite <- Hthrow. f_equal. lia. }
  destruct W3 as (B3 & F3 & C3 & D3).
  assert (B3' : block_of w3 pn =
                Some ((Live <$> l) ++ replicate j Raw ++ drop j (replicate (n - length l) Raw) ++ [])).
  { exact B3. }
  destruct (RawMemory_destroy_released w3 {| buffer_ := pn; capacity_ := Z.of_nat n |} _ B3')
    as (w4 & E4 & F4 & R4 & C4 & D4); [done|].
  simpl in *.
  exists w4. split; [|split; [|split; [|lia]]].
  - unfold call, V1.Resize. cbn. zb. cbn. unfold RawMemory_Capacity. cbn. zb.
    step_mem E1.
    rewrite size_sub_small by (unfold SIZE_MAX in *; lia).
    replace (Z.of_nat n - Z.of_nat (length l)) with (Z.of_nat (n - length l)) by lia.
    apply bind_exn. eapply unwind_exn.
    + cbn. step_if E2. apply bind_exn. apply in_mem_exn. exact E3.
    + cbn. erewrite in_mem_ret by exact E4. reflexivity.
  - apply holds_intro; try done.
    + destruct transfer_safe; by rewrite ?length_fmap.
    + destruct transfer_safe; rewrite ?length_fmap; lia.
    + rewrite F4, F3 by done. etransitivity; [exact Bo2|].
      destruct transfer_safe; by rewrite ?length_fmap.
  - intros q Hq.
    destruct (decide (blk q = blk pn)) as [Heq|Hneq].
    + rewrite (fresh_block_none w q pn Fresh Heq). apply R4; [done|]. by rewrite Heq.
    + rewrite F4, F3 by done. rewrite F2, F1; done.
Qed.

(** [Resize] beyond the capacity when [operator new] throws. *)
Lemma V1_Resize_new_throws v w l cap n :
  holds w v l cap -> (cap < n)%nat ->
  new_throws (length (heap w)) (size_mul (Z.of_nat n) (Z.pos size_of)) = true ->
  call (V1.Resize (Z.of_nat n)) v w = Exn {| this := v; mem := w |}.
Proof.
  intros (Hs & Hc & Hle & _) Hn Hthrow.
  destruct v as [[po c] s]. simpl in *. subst s c.
  unfold call, V1.Resize. cbn. zb. cbn. unfold RawMemory_Capacity. cbn. zb.
  apply bind_exn. apply in_mem_exn. cbn.
  apply RawMemory_new_throws; [lia|done].
Qed.

(** X19: what [Resize(n)] of the first revision leaves behind when it
    throws.  Within the capacity, a value-construction that throws
    makes the algorithm destroy what it built: vector and store are as
    before.  Beyond the capacity (with [n * sizeof(T)] within
    [size_t]): when [operator new] throws, nothing has changed; when
    the element type is transferred by copy and a copy throws, vector
    and store are as before, but the copies made so far were not
    destroyed; when a value-construction throws after the transfer,
    the vector keeps its buffer, size and capacity, and its elements
    are as before if the element type is transferred by copy, while
    for an element type that is transferred by move they are the
    moved-from objects: then the vector is not as it was.  In both
    cases the transferred objects in the new buffer were not
    destroyed. *)
Theorem Resize_strong_guarantee v w l cap n :
  holds w v l cap -> representable (Z.of_nat n) ->
  (forall k,
      (length l <= n <= cap)%nat -> (k < n - length l)%nat ->
      calm w k -> ctor_throws (constructed w + k) value_init = true ->
      exists w',
        call (V1.Resize (Z.of_nat n)) v w = Exn {| this := v; mem := w' |} /\
        holds w' v l cap /\
        (forall q, block_of w' q = block_of w q) /\
        constructed w' = (constructed w + k)%nat /\
        destroyed w' = (destroyed w + k)%nat) /\
  ((cap < n)%nat ->
   new_throws (length (heap w)) (size_mul (Z.of_nat n) (Z.pos size_of)) = true ->
   call (V1.Resize (Z.of_nat n)) v w = Exn {| this := v; mem := w |}) /\
  (forall k y,
      (cap < n)%nat -> roomy -> transfer_safe = false ->
      l !! k = Some y -> calm w k -> ctor_throws (constructed w + k) y = true ->
      exists w',
        call (V1.Resize (Z.of_nat n)) v w = Exn {| this := v; mem := w' |} /\
        holds w' v l cap /\
        (forall q, block_of w' q = block_of w q) /\
        constructed w' = (constructed w + k)%nat /\
        destroyed w' = destroyed w) /\
  (forall j,
      (cap < n)%nat -> roomy -> (j < n - length l)%nat ->
      calm w (length l + j) ->
      ctor_throws (constructed w + length l + j) value_init = true ->
      exists w',
        call (V1.Resize (Z.of_nat n)) v w = Exn {| this := v; mem := w' |} /\
        holds w' v (if transfer_safe then moved_from <$> l else l) cap /\
        (forall q, blk q <> blk (buffer_ (data_ v)) -> block_of w' q = block_of w q) /\
        constructed w' = (constructed w + length l + j)%nat /\
        destroyed w' = (destroyed w + j)%nat).
Proof.
  intros Hv Hrepn.
  assert (Hkeep : forall w', (forall q, block_of w' q = block_of w q) -> holds w' v l cap).
  { intros w' F. destruct Hv as (Hs & Hc & Hle & Hm & Hoff & Hb & Hrep).
    repeat split; try done. by rewrite F. }
  split; [|split; [|split]].
  - intros k Hn Hk Hcalm Hthrow.
    destruct (V1_Resize_extend_throws v w l cap n k Hv Hn Hk Hcalm Hthrow)
      as (w' & E & F & C & D).
    exists w'. split; [done|]. split; [by apply Hkeep|done].
  - intros Hn Hthrow. by eapply V1_Resize_new_throws.
  - intros k y Hn Hroomy Hunsafe Hy Hcalm Hthrow.
    destruct (V1_Resize_grow_throws v w l cap n k y Hv Hn Hrepn Hroomy Hunsafe Hy Hcalm Hthrow)
      as (w' & E & F & C & D).
    exists w'. split; [done|]. split; [by apply Hkeep|done].
  - intros j Hn Hroomy Hj Hcalm Hthrow.
    by apply V1_Resize_value_throws.
Qed.

End ResizeFailure.

Section ResizeFailureWitness.

Lemma Resize_strong_guarantee_witness :
  @holds Z (throwing_at 1) sample_world sample_vector [5] 2 /\
  @holds Z throws_fifth pair_world first_vector [1; 2] 2 /\
  @representable Z (throwing_at 1) (Z.of_nat 2) /\
  @representable Z throws_fifth (Z.of_nat 4) /\
  @roomy Z throws_fifth /\ @roomy Z (throwing_at 6) /\ @roomy Z (movable_at 6) /\
  @calm Z (throwing_at 1) sample_world 0 /\
  @ctor_throws Z (throwing_at 1) (constructed sample_world + 0) 0 = true /\
  @calm Z throws_fifth pair_world 0 /\
  @ctor_throws Z throws_fifth (constructed pair_world + 0) 1 = true /\
  @calm Z (throwing_at 6) pair_world (length [1; 2] + 0) /\
  @calm Z (movable_at 6) pair_world (length [1; 2] + 0) /\
  (exists w',
     call (@V1.Resize Z (throwing_at 1) (Z.of_nat 2)) sample_vector sample_world =
       Exn {| this := sample_vector; mem := w' |} /\
     @holds Z (throwing_at 1) w' sample_vector [5] 2) /\
  call (@V1.Resize Z starved (Z.of_nat 4)) first_vector pair_world =
    Exn {| this := first_vector; mem := pair_world |} /\
  (exists w',
     call (@V1.Resize Z throws_fifth (Z.of_nat 4)) first_vector pair_world =
       Exn {| this := first_vector; mem := w' |} /\
     @holds Z throws_fifth w' first_vector [1; 2] 2) /\
  (exists w',
     call (@V1.Resize Z (throwing_at 6) (Z.of_nat 4)) first_vector pair_world =
       Exn {| this := first_vector; mem := w' |} /\
     @holds Z (throwing_at 6) w' first_vector [1; 2] 2) /\
  (exists w',
     call (@V1.Resize Z (movable_at 6) (Z.of_nat 4)) first_vector pair_world =
       Exn {| this := first_vector; mem := w' |} /\
     @holds Z (movable_at 6) w' first_vector [-1; -1] 2).
Proof.
  assert (Hv : @holds Z (throwing_at 1) sample_world sample_vector [5] 2).
  { repeat split; try reflexivity; try (vm_compute; congruence); simpl; lia. }
  assert (H2 : @holds Z throws_fifth pair_world first_vector [1; 2] 2).
  { repeat split; try reflexivity; try (vm_compute; congruence); simpl; lia. }
  assert (H2s : @holds Z starved pair_world first_vector [1; 2] 2).
  { repeat split; try reflexivity; try (vm_compute; congruence); simpl; lia. }
  assert (H2t : @holds Z (throwing_at 6) pair_world first_vector [1; 2] 2).
  { repeat split; try reflexivity; try (vm_compute; congruence); simpl; lia. }
  assert (H2m : @holds Z (movable_at 6) pair_world first_vector [1; 2] 2).
  { repeat split; try reflexivity; try (vm_compute; congruence); simpl; lia. }
  assert (Hr2 : @representable Z (throwing_at 1) (Z.of_nat 2)) by (vm_compute; congruence).
  assert (Hr4 : @representable Z throws_fifth (Z.of_nat 4)) by (vm_compute; congruence).
  assert (Hr4s : @representable Z starved (Z.of_nat 4)) by (vm_compute; congruence).
  assert (Hr4t : @representable Z (throwing_at 6) (Z.of_nat 4)) by (vm_compute; congruence).
  assert (Hr4m : @representable Z (movable_at 6) (Z.of_nat 4)) by (vm_compute; congruence).
  assert (Hroomy : @roomy Z throws_fifth) by (intros b n; reflexivity).
  assert (Hroomyt : @roomy Z (throwing_at 6)) by (intros b n; reflexivity).
  assert (Hroomym : @roomy Z (movable_at 6)) by (intros b n; reflexivity).
  assert (Hc1 : @calm Z (throwing_at 1) sample_world 0) by (intros k v Hk; lia).
  assert (Hc2 : @calm Z throws_fifth pair_world 0) by (intros k v Hk; lia).
  assert (Hct : @calm Z (throwing_at 6) pair_world (length [1; 2] + 0)).
  { intros k v Hk. simpl in Hk.
    assert (k = 4%nat \/ k = 5%nat) as [-> | ->] by lia; reflexivity. }
  assert (Hcm : @calm Z (movable_at 6) pair_world (length [1; 2] + 0)).
  { intros k v Hk. simpl in Hk.
    assert (k = 4%nat \/ k = 5%nat) as [-> | ->] by lia; reflexivity. }
  split; [exact Hv|]. split; [exact H2|]. split; [exact Hr2|]. split; [exact Hr4|].
  split; [exact Hroomy|]. split; [exact Hroomyt|]. split; [exact Hroomym|].
  split; [exact Hc1|]. split; [reflexivity|]. split; [exact Hc2|]. split; [reflexivity|].
  split; [exact Hct|]. split; [exact Hcm|].
  split; [|split; [|split; [|split]]].
  - destruct (Resize_strong_guarantee (H := throwing_at 1)
                sample_vector sample_world [5] 2%nat 2%nat Hv Hr2) as (Hin & _).
    destruct (Hin 0%nat) as (w' & E & Hw' & _);
      [simpl; lia|simpl; lia|exact Hc1|reflexivity|].
    exists w'. split; [exact E|exact Hw'].
  - destruct (Resize_strong_guarantee (H := starved)
                first_vector pair_world [1; 2] 2%nat 4%nat H2s Hr4s) as (_ & Hfail & _).
    apply Hfail; [lia|reflexivity].
  - destruct (Resize_strong_guarantee (H := throws_fifth)
                first_vector pair_world [1; 2] 2%nat 4%nat H2 Hr4) as (_ & _ & Hout & _).
    destruct (Hout 0%nat 1) as (w' & E & Hw' & _);
      [lia|exact Hroomy|reflexivity|reflexivity|exact Hc2|reflexivity|].
    exists w'. split; [exact E|exact Hw'].
  - destruct (Resize_strong_guarantee (H := throwing_at 6)
                first_vector pair_world [1; 2] 2%nat 4%nat H2t Hr4t) as (_ & _ & _ & Hval).
    destruct (Hval 0%nat) as (w' & E & Hw' & _);
      [lia|exact Hroomyt|simpl; lia|exact Hct|reflexivity|].
    exists w'. split; [exact E|exact Hw'].
  - destruct (Resize_strong_guarantee (H := movable_at 6)
                first_vector pair_world [1; 2] 2%nat 4%nat H2m Hr4m) as (_ & _ & _ & Hval).
    destruct (Hval 0%nat) as (w' & E & Hw' & _);
      [lia|exact Hroomym|simpl; lia|exact Hcm|reflexivity|].
    exists w'. split; [exact E|exact Hw'].
Defined.

End ResizeFailureWitness.
